(** * Longitudinal speed optimisation of easy_apollo: a shallow embedding

    The development follows two translation units of the planner:

    - [modules/planning/common/path/discretized_path.cc]
      (the path container and its two station look-ups), and
    - [modules/planning/tasks/optimizers/piecewise_jerk_speed/
       piecewise_jerk_speed_nonlinear_optimizer.cc]
      (bounds construction, the QP / NLP pipeline and the emission of the
      speed profile).

    Numbers.  The C++ code computes with [double].  A [double] is modelled
    by an exact rational ([Q]) and every arithmetic expression of the source
    by the same expression over [Q]; rounding, infinities and NaN are outside
    the model.  The properties below are therefore properties of
    comparisons, [min]/[max] and of single expressions as the source writes
    them.  Nothing is stated that would need two different expressions to
    round alike (sums accumulated in a loop against a product, a quotient
    against the multiple it came from), and nothing about the number of
    iterations of a loop whose counter is a [double]: there the rounding of
    the machine decides, and the model does not compute it.  This concerns
    two counts, the knots ([static_cast<int>(total_time_ / delta_t_) + 1])
    and the curvature samples ([path_s += delta_s]): the first enters the
    statements below as the member [num_of_knots_], never through the
    horizon it was computed from, and no statement depends on the second.
    [int] loop counters are [nat] or [Z]. *)

From Stdlib Require Import String.
From Stdlib Require Import QArith Qabs Qminmax Qround Lqa ZArith Lia Bool List.
Import ListNotations.

Open Scope Q_scope.

(* ------------------------------------------------------------------------- *)
(** * Comparisons on doubles *)

(** [a < b] and [a <= b] as the C++ conditions evaluate them. *)
Definition Qltb (a b : Q) : bool := if Qlt_le_dec a b then true else false.
Definition Qleb (a b : Q) : bool := if Qlt_le_dec b a then false else true.

(** [static_cast<int>(q)]: truncation toward zero. *)
Definition static_cast_int (q : Q) : Z := Z.quot (Qnum q) (Zpos (Qden q)).

(* ------------------------------------------------------------------------- *)
(** * The standard binary searches

    [std::lower_bound] and [std::upper_bound] with a caller-supplied
    comparison, written as the halving loop of the standard library:
    [len] is the size of the window that starts at index [first].  The loop
    runs at most [len] times, which is the fuel [lower_bound] and
    [upper_bound] give it. *)

Section BinarySearch.
Context {A V : Type}.

Section LowerBound.
Variable comp : A -> V -> bool.
Variable v : list A.
Variable val : V.

Fixpoint lower_bound_loop (fuel first len : nat) : nat :=
  match fuel with
  | O => first
  | S fuel' =>
      match len with
      | O => first
      | S _ =>
          let half := (len / 2)%nat in
          let middle := (first + half)%nat in
          match nth_error v middle with
          | Some e =>
              if comp e val
              then lower_bound_loop fuel' (S middle) (len - half - 1)
              else lower_bound_loop fuel' first half
          | None => first
          end
      end
  end.

Definition lower_bound : nat := lower_bound_loop (length v) 0 (length v).
End LowerBound.

Section UpperBound.
Variable comp : V -> A -> bool.
Variable v : list A.
Variable val : V.

Fixpoint upper_bound_loop (fuel first len : nat) : nat :=
  match fuel with
  | O => first
  | S fuel' =>
      match len with
      | O => first
      | S _ =>
          let half := (len / 2)%nat in
          let middle := (first + half)%nat in
          match nth_error v middle with
          | Some e =>
              if comp val e
              then upper_bound_loop fuel' first half
              else upper_bound_loop fuel' (S middle) (len - half - 1)
          | None => first
          end
      end
  end.

Definition upper_bound : nat := upper_bound_loop (length v) 0 (length v).
End UpperBound.
End BinarySearch.

(** [partition_point P v r]: the elements before index [r] satisfy [P], the
    elements from [r] on do not. *)
Definition partition_point {A} (P : A -> bool) (v : list A) (r : nat) : Prop :=
  (r <= length v)%nat /\
  (forall i e, (i < r)%nat -> nth_error v i = Some e -> P e = true) /\
  (forall i e, (r <= i)%nat -> nth_error v i = Some e -> P e = false).

(** [P] holds on a prefix of [v] (the precondition of both searches). *)
Definition partitioned {A} (P : A -> bool) (v : list A) : Prop :=
  forall i j ei ej, (i <= j)%nat ->
    nth_error v i = Some ei -> nth_error v j = Some ej ->
    P ej = true -> P ei = true.


(* ------------------------------------------------------------------------- *)
(** * discretized_path.cc *)

(** [common::PathPoint] (pnc_point.proto): the fields the planner reads.
    The accessors [s()], [kappa()], ... are the record projections. *)
Record PathPoint : Type := mkPathPoint {
  pp_x : Q;
  pp_y : Q;
  pp_theta : Q;
  pp_kappa : Q;
  pp_s : Q;
  pp_dkappa : Q;
  pp_ddkappa : Q
}.

(** [class DiscretizedPath : public std::vector<common::PathPoint>]. *)
Definition DiscretizedPath : Type := list PathPoint.

(** [empty()], [front()] and [back()] of the underlying vector; the last two
    are only called on a non-empty path, [d] stands for the element a caller
    already holds. *)
Definition empty {A} (v : list A) : bool :=
  match v with [] => true | _ :: _ => false end.

Definition back {A} (v : list A) (d : A) : A := last v d.

Definition Length (path : DiscretizedPath) : Q :=
  match path with
  | [] => 0
  | front :: _ => pp_s (back path front) - pp_s front
  end.

Definition max_s (path : DiscretizedPath) : Q :=
  match path with
  | [] => 0
  | front :: _ => pp_s (back path front)
  end.

(** The iterator returned by the two queries is the index it points at;
    [end()] is [length path]. *)
Definition QueryLowerBound (path : DiscretizedPath) (path_s : Q) : nat :=
  let func := fun (tp : PathPoint) (path_s : Q) => Qltb (pp_s tp) path_s in
  lower_bound func path path_s.

Definition QueryUpperBound (path : DiscretizedPath) (path_s : Q) : nat :=
  let func := fun (path_s : Q) (tp : PathPoint) => Qltb (pp_s tp) path_s in
  upper_bound func path path_s.

Section PathEvaluation.
(** [common::math::InterpolateUsingLinearApproximation(p0, p1, s)] lives in
    modules/common/math/linear_interpolation.cc, outside the two files
    embedded here; the look-ups only pass their arguments to it. *)
Variable InterpolateUsingLinearApproximation :
  PathPoint -> PathPoint -> Q -> PathPoint.

(** [None] is the abort of [ACHECK(!empty())]. *)
Definition Evaluate (path : DiscretizedPath) (path_s : Q) : option PathPoint :=
  match path with
  | [] => None
  | front :: _ =>
      let it_lower := QueryLowerBound path path_s in
      if (it_lower =? 0)%nat then Some front
      else if (it_lower =? length path)%nat then Some (back path front)
      else Some (InterpolateUsingLinearApproximation
                   (nth (it_lower - 1) path front) (nth it_lower path front)
                   path_s)
  end.

Definition EvaluateReverse (path : DiscretizedPath) (path_s : Q)
  : option PathPoint :=
  match path with
  | [] => None
  | front :: _ =>
      let it_upper := QueryUpperBound path path_s in
      if (it_upper =? 0)%nat then Some front
      else if (it_upper =? length path)%nat then Some (back path front)
      else Some (InterpolateUsingLinearApproximation
                   (nth (it_upper - 1) path front) (nth it_upper path front)
                   path_s)
  end.
End PathEvaluation.

(** Station values along a path, front to back. *)
Fixpoint nondecreasing (path : DiscretizedPath) : Prop :=
  match path with
  | p0 :: (p1 :: _) as rest => pp_s p0 <= pp_s p1 /\ nondecreasing rest
  | _ => True
  end.

Fixpoint strictly_increasing (path : DiscretizedPath) : Prop :=
  match path with
  | p0 :: (p1 :: _) as rest => pp_s p0 < pp_s p1 /\ strictly_increasing rest
  | _ => True
  end.

Fixpoint nonincreasing (path : DiscretizedPath) : Prop :=
  match path with
  | p0 :: (p1 :: _) as rest => pp_s p1 <= pp_s p0 /\ nonincreasing rest
  | _ => True
  end.

(** A concrete interpolation for the worked examples: every numeric field is
    interpolated linearly in the station. *)
Definition lerp (x0 t0 x1 t1 t : Q) : Q :=
  let r := (t - t0) / (t1 - t0) in x0 + r * (x1 - x0).

Definition lerp_path_point (p0 p1 : PathPoint) (s : Q) : PathPoint :=
  let f := fun (field : PathPoint -> Q) =>
             lerp (field p0) (pp_s p0) (field p1) (pp_s p1) s in
  mkPathPoint (f pp_x) (f pp_y) (f pp_theta) (f pp_kappa) s
              (f pp_dkappa) (f pp_ddkappa).

(** Path points on the x axis at the given station and curvature. *)
Definition point_at (s kappa : Q) : PathPoint :=
  mkPathPoint s 0 0 kappa s 0 0.

Definition path_0_1 : DiscretizedPath := [point_at 0 0; point_at 1 (1#10)].
Definition path_0_1_2 : DiscretizedPath :=
  [point_at 0 0; point_at 1 (1#10); point_at 2 (2#10)].

(* ------------------------------------------------------------------------- *)
(** * piecewise_jerk_speed_nonlinear_optimizer.cc: the data it works on *)

(** [common::SpeedPoint] and [SpeedData] (a vector of speed points). *)
Record SpeedPoint : Type := mkSpeedPoint {
  sp_s : Q;
  sp_t : Q;
  sp_v : Q;
  sp_a : Q;
  sp_da : Q
}.

Definition SpeedData : Type := list SpeedPoint.

(** Modelled from the spec: [SpeedData::AppendSpeedPoint] is defined in
    speed_data.cc, which is not among the embedded files; the optimizer is
    specified to "append" each point to the ordered sequence.  [clear()] is
    the [clear] of the underlying vector. *)
Definition AppendSpeedPoint (speed_data : SpeedData) (s time v a da : Q)
  : SpeedData :=
  speed_data ++ [mkSpeedPoint s time v a da].

Definition clear : SpeedData := [].

(** Modelled from the spec: [common::Status] is declared in status.h, which
    is not among the embedded files; a status is "typed", "carrying kind and
    message", and [ok()] tells success from failure. *)
Inductive ErrorCode : Type := OK | PLANNING_ERROR.

Record Status : Type := mkStatus {
  code : ErrorCode;
  error_message : string
}.

Definition Status_OK : Status := mkStatus OK "".

Definition ok (status : Status) : bool :=
  match code status with OK => true | PLANNING_ERROR => false end.

(** [common::TrajectoryPoint]: only [v()] and [a()] are read. *)
Record TrajectoryPoint : Type := mkTrajectoryPoint {
  tp_v : Q;
  tp_a : Q
}.

(** [STBoundary].  The switch of [SetUpStatesAndBounds] names four boundary
    types; the remaining enumerators fall into its [default] branch. *)
Inductive BoundaryType : Type :=
  UNKNOWN | STOP | FOLLOW | YIELD | OVERTAKE | KEEP_CLEAR.

Record st_gap_poi : Type := mk_st_gap_poi {
  poi_time : Q;
  poi_s_gap : Q
}.

(** [GetUnblockSRange t] is [Some (s_upper, s_lower)] when the C++ method
    returns [true] and fills its two output arguments, [None] when it
    returns [false]. *)
Record STBoundary : Type := mkSTBoundary {
  boundary_type : BoundaryType;
  GetUnblockSRange : Q -> option (Q * Q);
  characteristic_length : Q;
  is_end_interaction_point_valid : bool;
  get_end_interaction_poi : st_gap_poi
}.

(** [SpeedLimit]: the sampled (s, v) points. *)
Record SpeedLimit : Type := mkSpeedLimit {
  speed_limit_points : list (Q * Q)
}.

Record StGraphData : Type := mkStGraphData {
  path_length : Q;
  total_time_by_conf : Q;
  init_point : TrajectoryPoint;
  st_boundaries : list STBoundary;
  speed_limit : SpeedLimit
}.

(** Modelled from the spec: [StGraphData::is_st_boundaries_empty] is declared
    in st_graph_data.h, which is not among the embedded files; the bounds
    builder is specified to look the two speed profiles up "if any ST
    boundaries exist". *)
Definition is_st_boundaries_empty (st_graph_data : StGraphData) : bool :=
  empty (st_boundaries st_graph_data).

Record ReferenceLineInfo : Type := mkReferenceLineInfo {
  get_max_speed : Q;
  GetCruiseSpeed : Q;
  ReachedDestination : bool;
  emergency_brake_speed_data : SpeedData;
  mutable_st_graph_data : StGraphData
}.

Record PathData : Type := mkPathData {
  discretized_path : DiscretizedPath
}.

Record VehicleParam : Type := mkVehicleParam {
  max_acceleration : Q;
  max_deceleration : Q
}.

(** The gflags the optimizer reads. *)
Record Flags : Type := mkFlags {
  FLAGS_use_soft_bound_in_nonlinear_speed_opt : bool;
  FLAGS_use_smoothed_dp_guide_line : bool;
  FLAGS_longitudinal_jerk_lower_bound : Q;
  FLAGS_longitudinal_jerk_upper_bound : Q;
  FLAGS_follow_min_distance : Q;
  FLAGS_follow_time_buffer : Q
}.

(** [piecewise_jerk_nonlinear_speed_optimizer_config]. *)
Record Config : Type := mkConfig {
  acc_weight : Q;
  jerk_weight : Q;
  lat_acc_weight : Q;
  ref_s_weight : Q;
  ref_v_weight : Q;
  s_potential_weight : Q;
  soft_s_bound_weight : Q;
  use_warm_start : bool
}.

(** Modelled from the spec: [PiecewiseJerkTrajectory1d] is declared outside
    the embedded files; it is a "head (x0, dx0, ddx0)" and a "list of
    (jerk, duration) segments", which [AppendSegment] extends. *)
Record PiecewiseJerkTrajectory1d : Type := mkPiecewiseJerkTrajectory1d {
  traj_init : Q * Q * Q;
  traj_segments : list (Q * Q)
}.

Definition AppendSegment (traj : PiecewiseJerkTrajectory1d) (jerk param : Q)
  : PiecewiseJerkTrajectory1d :=
  mkPiecewiseJerkTrajectory1d (traj_init traj)
                              (traj_segments traj ++ [(jerk, param)]).

(** Modelled from the spec: the piecewise-jerk QP classes
    ([PiecewiseJerkSpeedProblem], [PiecewiseJerkPathProblem]) are declared
    outside the embedded files.  The record holds what the setters were
    given: "per-knot" bounds on x from [set_x_bounds(vector)], and "global"
    intervals, one for every knot, from the two-argument setters
    ([set_x_bounds(lo, hi)], [set_dx_bounds], [set_ddx_bounds],
    [set_dddx_bound]); the weights and the reference "are set per call". *)
Inductive XBounds : Type :=
| x_bounds_unset
| x_bounds_uniform (lo hi : Q)
| x_bounds_per_knot (bounds : list (Q * Q)).

Record PiecewiseJerkProblem : Type := mkPiecewiseJerkProblem {
  pjp_num_of_knots : Z;
  pjp_delta_s : Q;
  pjp_x_init : Q * Q * Q;
  pjp_x_bounds : XBounds;
  pjp_dx_bounds : option (Q * Q);
  pjp_ddx_bounds : option (Q * Q);
  pjp_dddx_bound : option (Q * Q);
  pjp_weight_x : Q;
  pjp_weight_dx : Q;
  pjp_weight_ddx : Q;
  pjp_weight_dddx : Q;
  pjp_x_ref : option (Q * list Q)
}.

(** The constructor [PiecewiseJerkProblem(num_of_knots, delta_s, x_init)]. *)
Definition new_problem (n : Z) (delta_s : Q) (x_init : Q * Q * Q)
  : PiecewiseJerkProblem :=
  mkPiecewiseJerkProblem n delta_s x_init x_bounds_unset None None None
                         0 0 0 0 None.

Definition set_x_bounds (b : XBounds) (p : PiecewiseJerkProblem) :=
  mkPiecewiseJerkProblem (pjp_num_of_knots p) (pjp_delta_s p) (pjp_x_init p)
    b (pjp_dx_bounds p) (pjp_ddx_bounds p) (pjp_dddx_bound p)
    (pjp_weight_x p) (pjp_weight_dx p) (pjp_weight_ddx p) (pjp_weight_dddx p)
    (pjp_x_ref p).

Definition set_dx_bounds (lo hi : Q) (p : PiecewiseJerkProblem) :=
  mkPiecewiseJerkProblem (pjp_num_of_knots p) (pjp_delta_s p) (pjp_x_init p)
    (pjp_x_bounds p) (Some (lo, hi)) (pjp_ddx_bounds p) (pjp_dddx_bound p)
    (pjp_weight_x p) (pjp_weight_dx p) (pjp_weight_ddx p) (pjp_weight_dddx p)
    (pjp_x_ref p).

Definition set_ddx_bounds (lo hi : Q) (p : PiecewiseJerkProblem) :=
  mkPiecewiseJerkProblem (pjp_num_of_knots p) (pjp_delta_s p) (pjp_x_init p)
    (pjp_x_bounds p) (pjp_dx_bounds p) (Some (lo, hi)) (pjp_dddx_bound p)
    (pjp_weight_x p) (pjp_weight_dx p) (pjp_weight_ddx p) (pjp_weight_dddx p)
    (pjp_x_ref p).

Definition set_dddx_bound (lo hi : Q) (p : PiecewiseJerkProblem) :=
  mkPiecewiseJerkProblem (pjp_num_of_knots p) (pjp_delta_s p) (pjp_x_init p)
    (pjp_x_bounds p) (pjp_dx_bounds p) (pjp_ddx_bounds p) (Some (lo, hi))
    (pjp_weight_x p) (pjp_weight_dx p) (pjp_weight_ddx p) (pjp_weight_dddx p)
    (pjp_x_ref p).

Definition set_weights (wx wdx wddx wdddx : Q) (p : PiecewiseJerkProblem) :=
  mkPiecewiseJerkProblem (pjp_num_of_knots p) (pjp_delta_s p) (pjp_x_init p)
    (pjp_x_bounds p) (pjp_dx_bounds p) (pjp_ddx_bounds p) (pjp_dddx_bound p)
    wx wdx wddx wdddx (pjp_x_ref p).

Definition set_x_ref (weight : Q) (x_ref : list Q) (p : PiecewiseJerkProblem) :=
  mkPiecewiseJerkProblem (pjp_num_of_knots p) (pjp_delta_s p) (pjp_x_init p)
    (pjp_x_bounds p) (pjp_dx_bounds p) (pjp_ddx_bounds p) (pjp_dddx_bound p)
    (pjp_weight_x p) (pjp_weight_dx p) (pjp_weight_ddx p) (pjp_weight_dddx p)
    (Some (weight, x_ref)).

(** The three result arrays [opt_x], [opt_dx], [opt_ddx] of a solve. *)
Definition Solution : Type := (list Q * list Q * list Q)%type.

(** [Ipopt::ApplicationReturnStatus]: the two values the optimizer accepts,
    and every other return code. *)
Inductive ApplicationReturnStatus : Type :=
| Solve_Succeeded
| Solved_To_Acceptable_Level
| Ipopt_failure (return_code : Z).

(** [PiecewiseJerkSpeedNonlinearIpoptInterface] as [OptimizeByNLP] sets it
    up. *)
Record IpoptInterface : Type := mkIpoptInterface {
  nlp_s_init : Q;
  nlp_s_dot_init : Q;
  nlp_s_ddot_init : Q;
  nlp_delta_t : Q;
  nlp_num_of_knots : Z;
  nlp_total_length : Q;
  nlp_s_dot_max : Q;
  nlp_s_ddot_min : Q;
  nlp_s_ddot_max : Q;
  nlp_s_dddot_min : Q;
  nlp_s_dddot_max : Q;
  nlp_safety_bounds : list (Q * Q);
  nlp_curvature_curve : PiecewiseJerkTrajectory1d;
  nlp_speed_limit_curve : PiecewiseJerkTrajectory1d;
  nlp_warm_start : option (list (list Q));
  nlp_reference_spatial_distance : list Q;
  nlp_w_reference_spatial_distance : Q;
  nlp_soft_safety_bounds : option (list (Q * Q) * Q);
  nlp_w_overall_a : Q;
  nlp_w_overall_j : Q;
  nlp_w_overall_centripetal_acc : Q;
  nlp_reference_speed : Q;
  nlp_w_reference_speed : Q
}.

(** The collaborators the optimizer calls and whose code is elsewhere:
    speed-profile and speed-limit look-ups, path interpolation, the two
    solvers and the tail padding of the emitted profile. *)
Record Collaborators : Type := mkCollaborators {
  EvaluateByTime : SpeedData -> Q -> option SpeedPoint;
  GetSpeedLimitByS : SpeedLimit -> Q -> Q;
  InterpolateUsingLinearApproximation : PathPoint -> PathPoint -> Q -> PathPoint;
  (** [PiecewiseJerkProblem::Optimize(max_iter)], [None] when it returns
      false. *)
  Optimize : PiecewiseJerkProblem -> option nat -> option Solution;
  (** [IpoptApplication::Initialize()] and [OptimizeTNLP(problem)]. *)
  Initialize : ApplicationReturnStatus;
  OptimizeTNLP : IpoptInterface -> ApplicationReturnStatus;
  get_optimization_results : IpoptInterface -> Solution;
  FillEnoughSpeedPoints : SpeedData -> SpeedData
}.

(** The data members of [PiecewiseJerkSpeedNonlinearOptimizer]. *)
Record Members : Type := mkMembers {
  delta_t_ : Q;
  total_length_ : Q;
  total_time_ : Q;
  num_of_knots_ : Z;
  s_init_ : Q;
  s_dot_init_ : Q;
  s_ddot_init_ : Q;
  max_speed_ : Q;
  s_dot_max_ : Q;
  s_ddot_min_ : Q;
  s_ddot_max_ : Q;
  s_dddot_min_ : Q;
  s_dddot_max_ : Q;
  s_bounds_ : list (Q * Q);
  s_soft_bounds_ : list (Q * Q);
  speed_limit_ : SpeedLimit;
  cruise_speed_ : Q;
  smoothed_speed_limit_ : PiecewiseJerkTrajectory1d;
  smoothed_path_curvature_ : PiecewiseJerkTrajectory1d
}.

(** The state the constructor leaves: both smoothed curves start at
    (0, 0, 0); the numeric members are assigned by [SetUpStatesAndBounds]
    before they are read. *)
Definition constructed : Members :=
  let zero_curve := mkPiecewiseJerkTrajectory1d (0, 0, 0) [] in
  mkMembers 0 0 0 0 0 0 0 0 0 0 0 0 0 [] [] (mkSpeedLimit []) 0
            zero_curve zero_curve.

(* ------------------------------------------------------------------------- *)
(** * SetUpStatesAndBounds *)

Definition k_overtake_safe_dist : Q := 10.

(** The local [k_s_bound_error] of [SetUpStatesAndBounds]. *)
Definition k_s_bound_error : Q := 1 # 10.

(** The four bounds a knot carries through the loop over the boundaries. *)
Record KnotBounds : Type := mkKnotBounds {
  s_lower_bound : Q;
  s_upper_bound : Q;
  s_soft_lower_bound : Q;
  s_soft_upper_bound : Q
}.

(** [s_gap] of the YIELD and FOLLOW cases: the characteristic length, raised
    to the gap of the end-interaction point when that point is valid and its
    time is within 0.05 s of the knot. *)
Definition interaction_gap (boundary : STBoundary) (curr_t : Q) : Q :=
  let s_gap := characteristic_length boundary in
  if is_end_interaction_point_valid boundary then
    let end_interaction_poi := get_end_interaction_poi boundary in
    if Qltb (poi_time end_interaction_poi - curr_t) (5 # 100)
       && Qltb (- (5 # 100)) (poi_time end_interaction_poi - curr_t)
    then Qmax s_gap (poi_s_gap end_interaction_poi)
    else s_gap
  else s_gap.

(** The assignments that open each case of the switch. *)
Definition stop_update (drive_s_upper : Q) (k : KnotBounds) : KnotBounds :=
  mkKnotBounds (s_lower_bound k)
               (Qmin (s_upper_bound k) drive_s_upper)
               (s_soft_lower_bound k)
               (Qmin (s_soft_upper_bound k) drive_s_upper).

Definition yield_update (boundary : STBoundary) (curr_t drive_s_upper : Q)
    (k : KnotBounds) : KnotBounds :=
  let s_gap := interaction_gap boundary curr_t in
  let yield_upper := drive_s_upper - s_gap in
  mkKnotBounds (s_lower_bound k)
               (Qmin (s_upper_bound k) yield_upper)
               (s_soft_lower_bound k)
               (Qmin (s_soft_upper_bound k) drive_s_upper).

Definition follow_update (flags : Flags) (boundary : STBoundary)
    (curr_t : Q) (dp_speed_point : SpeedPoint) (drive_s_upper : Q)
    (k : KnotBounds) : KnotBounds :=
  let s_gap := interaction_gap boundary curr_t in
  let follow_upper := drive_s_upper - s_gap in
  let soft_follow_dist :=
    FLAGS_follow_min_distance flags +
    Qmin 7 (FLAGS_follow_time_buffer flags * sp_v dp_speed_point) in
  mkKnotBounds (s_lower_bound k)
               (Qmin (s_upper_bound k) follow_upper)
               (s_soft_lower_bound k)
               (Qmin (s_soft_upper_bound k) (drive_s_upper - soft_follow_dist)).

Definition overtake_update (drive_s_lower : Q) (k : KnotBounds) : KnotBounds :=
  mkKnotBounds (Qmax (s_lower_bound k) drive_s_lower)
               (s_upper_bound k)
               (Qmax (s_soft_lower_bound k) (drive_s_lower + k_overtake_safe_dist))
               (s_soft_upper_bound k).

(** The two checks that close the STOP, YIELD and FOLLOW cases (the same
    text in all three) ... *)
Definition check_upper_bounds (k : KnotBounds) : KnotBounds :=
  let s_upper_bound' :=
    if Qleb (s_upper_bound k) (s_lower_bound k)
    then s_lower_bound k + k_s_bound_error
    else s_upper_bound k in
  let s_soft_upper_bound' :=
    if Qleb (s_soft_upper_bound k) (s_soft_lower_bound k)
    then s_soft_lower_bound k + k_s_bound_error
    else s_soft_upper_bound k in
  mkKnotBounds (s_lower_bound k) s_upper_bound'
               (s_soft_lower_bound k) s_soft_upper_bound'.

(** ... and the two that close the OVERTAKE case. *)
Definition check_lower_bounds (k : KnotBounds) : KnotBounds :=
  let s_lower_bound' :=
    if Qleb (s_upper_bound k) (s_lower_bound k)
    then s_upper_bound k - k_s_bound_error
    else s_lower_bound k in
  let s_soft_lower_bound' :=
    if Qleb (s_soft_upper_bound k) (s_soft_lower_bound k)
    then s_soft_upper_bound k - k_s_bound_error
    else s_soft_lower_bound k in
  mkKnotBounds s_lower_bound' (s_upper_bound k)
               s_soft_lower_bound' (s_soft_upper_bound k).

(** One iteration of [for (const STBoundary* boundary : ...)] in the branch
    with soft bounds. *)
Definition fold_boundary (flags : Flags) (curr_t : Q)
    (dp_speed_point : SpeedPoint) (k : KnotBounds) (boundary : STBoundary)
  : KnotBounds :=
  match GetUnblockSRange boundary curr_t with
  | None => k
  | Some (drive_s_upper, drive_s_lower) =>
      match boundary_type boundary with
      | STOP => check_upper_bounds (stop_update drive_s_upper k)
      | YIELD =>
          check_upper_bounds (yield_update boundary curr_t drive_s_upper k)
      | FOLLOW =>
          check_upper_bounds
            (follow_update flags boundary curr_t dp_speed_point drive_s_upper k)
      | OVERTAKE => check_lower_bounds (overtake_update drive_s_lower k)
      | UNKNOWN | KEEP_CLEAR => k
      end
  end.

(** One iteration of the same loop in the branch without soft bounds; the
    state is [(s_lower_bound, s_upper_bound)]. *)
Definition fold_boundary_hard (curr_t : Q) (k : Q * Q) (boundary : STBoundary)
  : Q * Q :=
  let '(s_lower_bound, s_upper_bound) := k in
  match GetUnblockSRange boundary curr_t with
  | None => k
  | Some (s_upper, s_lower) =>
      match boundary_type boundary with
      | STOP | YIELD => (s_lower_bound, Qmin s_upper_bound s_upper)
      | FOLLOW => (s_lower_bound, Qmin s_upper_bound (s_upper - 8))
      | OVERTAKE => (Qmax s_lower_bound s_lower, s_upper_bound)
      | UNKNOWN | KEEP_CLEAR => k
      end
  end.

Definition msg_rough_speed_profile : string :=
  "rough speed profile estimation for soft follow fence failed".

Definition msg_bounds : string :=
  "s_lower_bound larger than s_upper_bound on STGraph".

(** The time of knot [i]: [i * delta_t_]. *)
Definition knot_time (delta_t : Q) (i : nat) : Q :=
  inject_Z (Z.of_nat i) * delta_t.

Section SetUp.
Variable ext : Collaborators.
Variable flags : Flags.
Variable veh_param : VehicleParam.
Variable reference_line_info_ : ReferenceLineInfo.

(** The emergency-brake point of a knot: [has_dynamic_constraints_lower]
    together with [dynamic_constraints_lower_point].  The flag is assigned
    only when ST boundaries exist and keeps its initial [false]
    otherwise. *)
Definition dynamic_constraints_lower (curr_t : Q) : option SpeedPoint :=
  if negb (is_st_boundaries_empty (mutable_st_graph_data reference_line_info_))
  then EvaluateByTime ext (emergency_brake_speed_data reference_line_info_) curr_t
  else None.

(** The bounds after the loop over the boundaries of a knot. *)
Definition fold_boundaries (curr_t total_length : Q)
    (dp_speed_point : SpeedPoint) : KnotBounds :=
  fold_left (fold_boundary flags curr_t dp_speed_point)
            (st_boundaries (mutable_st_graph_data reference_line_info_))
            (mkKnotBounds 0 total_length 0 total_length).

(** "check dynamic constraints lower bound". *)
Definition raise_to_dynamic_constraints (ebk : option SpeedPoint)
    (k : KnotBounds) : KnotBounds :=
  match ebk with
  | Some dynamic_constraints_lower_point =>
      mkKnotBounds (s_lower_bound k)
                   (Qmax (s_upper_bound k)
                         (sp_s dynamic_constraints_lower_point + (2 # 10)))
                   (s_soft_lower_bound k) (s_soft_upper_bound k)
  | None => k
  end.

(** The body of [for (int i = 0; i < num_of_knots_; ++i)] with soft
    bounds: an error status, or the bounds the knot appends. *)
Definition soft_knot (speed_data : SpeedData) (delta_t total_length : Q)
    (i : nat) : Status + KnotBounds :=
  let st_graph_data := mutable_st_graph_data reference_line_info_ in
  let curr_t := knot_time delta_t i in
  let dp_lookup :=
    if negb (is_st_boundaries_empty st_graph_data)
    then EvaluateByTime ext speed_data curr_t
    else Some (mkSpeedPoint 0 0 0 0 0) in
  match dp_lookup with
  | None => inl (mkStatus PLANNING_ERROR msg_rough_speed_profile)
  | Some dp_speed_point =>
      let k := fold_boundaries curr_t total_length dp_speed_point in
      let k := raise_to_dynamic_constraints (dynamic_constraints_lower curr_t) k in
      if Qltb (s_upper_bound k) (s_lower_bound k)
      then inl (mkStatus PLANNING_ERROR msg_bounds)
      else inr k
  end.

(** [n] further iterations from knot [i]; the two vectors grow by one
    pair per completed knot, an error leaves them as they are. *)
Fixpoint soft_bounds_loop (speed_data : SpeedData) (delta_t total_length : Q)
    (n i : nat) (s_bounds s_soft_bounds : list (Q * Q))
  : Status * list (Q * Q) * list (Q * Q) :=
  match n with
  | O => (Status_OK, s_bounds, s_soft_bounds)
  | S n' =>
      match soft_knot speed_data delta_t total_length i with
      | inl status => (status, s_bounds, s_soft_bounds)
      | inr k =>
          soft_bounds_loop speed_data delta_t total_length n' (S i)
            (s_bounds ++ [(s_lower_bound k, s_upper_bound k)])
            (s_soft_bounds ++ [(s_soft_lower_bound k, s_soft_upper_bound k)])
      end
  end.

Definition hard_knot (delta_t total_length : Q) (i : nat) : Status + Q * Q :=
  let curr_t := knot_time delta_t i in
  let '(s_lower_bound, s_upper_bound) :=
    fold_left (fold_boundary_hard curr_t)
              (st_boundaries (mutable_st_graph_data reference_line_info_))
              (0, total_length) in
  if Qltb s_upper_bound s_lower_bound
  then inl (mkStatus PLANNING_ERROR msg_bounds)
  else inr (s_lower_bound, s_upper_bound).

Fixpoint hard_bounds_loop (delta_t total_length : Q) (n i : nat)
    (s_bounds : list (Q * Q)) : Status * list (Q * Q) :=
  match n with
  | O => (Status_OK, s_bounds)
  | S n' =>
      match hard_knot delta_t total_length i with
      | inl status => (status, s_bounds)
      | inr b => hard_bounds_loop delta_t total_length n' (S i) (s_bounds ++ [b])
      end
  end.

(** [SetUpStatesAndBounds(path_data, speed_data)]: the status and the
    members as the call leaves them.  [speed_limit_] and [cruise_speed_]
    are assigned only when the bounds were built. *)
Definition SetUpStatesAndBounds (this : Members) (path_data : PathData)
    (speed_data : SpeedData) : Status * Members :=
  let st_graph_data := mutable_st_graph_data reference_line_info_ in
  let max_speed := get_max_speed reference_line_info_ in
  let delta_t := 1 # 10 in
  let total_length := path_length st_graph_data in
  let total_time := total_time_by_conf st_graph_data in
  let num_of_knots := (static_cast_int (total_time / delta_t) + 1)%Z in
  let s_init := 0 in
  let s_dot_init := tp_v (init_point st_graph_data) in
  let s_ddot_init := tp_a (init_point st_graph_data) in
  let s_dot_max := Qmax max_speed (s_dot_init + 1) in
  let s_ddot_max := max_acceleration veh_param in
  let s_ddot_min := - (1) * Qabs (max_deceleration veh_param) in
  let s_dddot_min := - Qabs (FLAGS_longitudinal_jerk_lower_bound flags) in
  let s_dddot_max := FLAGS_longitudinal_jerk_upper_bound flags in
  let '(status, s_bounds, s_soft_bounds) :=
    if FLAGS_use_soft_bound_in_nonlinear_speed_opt flags
    then soft_bounds_loop speed_data delta_t total_length
                          (Z.to_nat num_of_knots) 0 [] []
    else
      let '(status, s_bounds) :=
        hard_bounds_loop delta_t total_length (Z.to_nat num_of_knots) 0 [] in
      (status, s_bounds, s_soft_bounds_ this) in
  let built := ok status in
  (status,
   mkMembers delta_t total_length total_time num_of_knots
             s_init s_dot_init s_ddot_init max_speed s_dot_max
             s_ddot_min s_ddot_max s_dddot_min s_dddot_max
             s_bounds s_soft_bounds
             (if built then speed_limit st_graph_data else speed_limit_ this)
             (if built then GetCruiseSpeed reference_line_info_
              else cruise_speed_ this)
             (smoothed_speed_limit_ this) (smoothed_path_curvature_ this)).
End SetUp.

(* ------------------------------------------------------------------------- *)
(** * The solver stages *)

Definition msg_smooth_speed_limit : string := "Smoothing speed limit failed".
Definition msg_smooth_curvature : string := "Smoothing path curvature failed".
Definition msg_qp : string :=
  "Speed Optimization by Quadratic Programming failed".
Definition msg_warm_start : string :=
  "Piecewise jerk speed nonlinear optimizer warm start invalid!".
Definition msg_nlp_init : string :=
  "Piecewise jerk speed nonlinear optimizer failed during initialization".
Definition msg_nlp : string :=
  "Piecewise jerk speed nonlinear optimizer failed".

(** [v[i]] of a [std::vector<double>]; the optimizer indexes the solver's
    arrays below [num_of_knots_], their length. *)
Definition at_index (v : list Q) (i : nat) : Q := nth i v 0.

(** The curve a smoothing QP yields: it starts at the first entries of the
    three arrays and gets one segment per further entry of [opt_ddx]. *)
Definition curve_of_solution (sol : Solution) (delta_s : Q)
  : PiecewiseJerkTrajectory1d :=
  let '(opt_x, opt_dx, opt_ddx) := sol in
  fold_left
    (fun curve i =>
       let j := (at_index opt_ddx i - at_index opt_ddx (i - 1)) / delta_s in
       AppendSegment curve j delta_s)
    (seq 1 (length opt_ddx - 1))
    (mkPiecewiseJerkTrajectory1d
       (at_index opt_x 0, at_index opt_dx 0, at_index opt_ddx 0) []).

Definition with_smoothed_speed_limit (this : Members)
    (curve : PiecewiseJerkTrajectory1d) : Members :=
  mkMembers (delta_t_ this) (total_length_ this) (total_time_ this)
            (num_of_knots_ this) (s_init_ this) (s_dot_init_ this)
            (s_ddot_init_ this) (max_speed_ this) (s_dot_max_ this)
            (s_ddot_min_ this) (s_ddot_max_ this) (s_dddot_min_ this)
            (s_dddot_max_ this) (s_bounds_ this) (s_soft_bounds_ this)
            (speed_limit_ this) (cruise_speed_ this)
            curve (smoothed_path_curvature_ this).

Definition with_smoothed_path_curvature (this : Members)
    (curve : PiecewiseJerkTrajectory1d) : Members :=
  mkMembers (delta_t_ this) (total_length_ this) (total_time_ this)
            (num_of_knots_ this) (s_init_ this) (s_dot_init_ this)
            (s_ddot_init_ this) (max_speed_ this) (s_dot_max_ this)
            (s_ddot_min_ this) (s_ddot_max_ this) (s_dddot_min_ this)
            (s_dddot_max_ this) (s_bounds_ this) (s_soft_bounds_ this)
            (speed_limit_ this) (cruise_speed_ this)
            (smoothed_speed_limit_ this) curve.

Section Stages.
Variable ext : Collaborators.
Variable flags : Flags.
Variable config_ : Config.

Definition CheckSpeedLimitFeasibility (this : Members) : bool :=
  let kEpsilon := 1 # 1000000 in
  let init_speed_limit := GetSpeedLimitByS ext (speed_limit_ this) (s_init_ this) in
  if Qltb (init_speed_limit + kEpsilon) (s_dot_init_ this) then false else true.

Definition SmoothSpeedLimit (this : Members) : Status * Members :=
  let delta_s := 2 in
  let speed_ref :=
    map (fun i => GetSpeedLimitByS ext (speed_limit_ this)
                                   (inject_Z (Z.of_nat i) * delta_s))
        (seq 0 100) in
  let init_state := (at_index speed_ref 0, 0, 0) in
  let piecewise_jerk_problem :=
    set_x_ref 10 speed_ref
      (set_weights 0 10 10 10
         (set_dddx_bound (-(10)) 10
            (set_ddx_bounds (-(10)) 10
               (set_dx_bounds (-(10)) 10
                  (set_x_bounds (x_bounds_uniform 0 50)
                     (new_problem (Z.of_nat (length speed_ref)) delta_s
                                  init_state)))))) in
  match Optimize ext piecewise_jerk_problem (Some 4000%nat) with
  | None => (mkStatus PLANNING_ERROR msg_smooth_speed_limit, this)
  | Some sol =>
      (Status_OK, with_smoothed_speed_limit this (curve_of_solution sol delta_s))
  end.

(** The sampling loop of [SmoothPathCurvature]:
    [for (path_s = front.s; path_s < limit; path_s += delta_s)]. *)
Fixpoint sample_path_curvature (fuel : nat) (path : DiscretizedPath)
    (path_s limit delta_s : Q) (path_curvature : list Q) : list Q :=
  match fuel with
  | O => path_curvature
  | S fuel' =>
      if Qltb path_s limit
      then
        let kappa :=
          match Evaluate (InterpolateUsingLinearApproximation ext) path path_s with
          | Some path_point => pp_kappa path_point
          | None => 0
          end in
        sample_path_curvature fuel' path (path_s + delta_s) limit delta_s
                              (path_curvature ++ [kappa])
      else path_curvature
  end.

(** The number of stations [start + k * delta_s] below [limit]. *)
Definition sample_count (start limit delta_s : Q) : nat :=
  Z.to_nat (Qceiling ((limit - start) / delta_s)).

(** [Process] calls this with a path it has checked to be non-empty. *)
Definition SmoothPathCurvature (this : Members) (path_data : PathData)
  : Status * Members :=
  let cartesian_path := discretized_path path_data in
  match cartesian_path with
  | [] => (mkStatus PLANNING_ERROR msg_smooth_curvature, this)
  | path_init_point :: _ =>
      let delta_s := 1 # 2 in
      let start := pp_s path_init_point in
      let limit := pp_s (back cartesian_path path_init_point) + delta_s in
      let path_curvature :=
        sample_path_curvature (sample_count start limit delta_s)
                              cartesian_path start limit delta_s [] in
      let init_state := (pp_kappa path_init_point, pp_dkappa path_init_point,
                         pp_ddkappa path_init_point) in
      let piecewise_jerk_problem :=
        set_x_ref 10 path_curvature
          (set_weights 0 10 10 10
             (set_dddx_bound (-(10)) 10
                (set_ddx_bounds (-(10)) 10
                   (set_dx_bounds (-(10)) 10
                      (set_x_bounds (x_bounds_uniform (-(1)) 1)
                         (new_problem (Z.of_nat (length path_curvature))
                                      delta_s init_state)))))) in
      match Optimize ext piecewise_jerk_problem (Some 1000%nat) with
      | None => (mkStatus PLANNING_ERROR msg_smooth_curvature, this)
      | Some sol =>
          (Status_OK,
           with_smoothed_path_curvature this (curve_of_solution sol delta_s))
      end
  end.

(** The speed QP as [OptimizeByQP] configures it, ready for [Optimize()]. *)
Definition speed_qp (this : Members) (speed_data : SpeedData)
    (piecewise_jerk_problem : PiecewiseJerkProblem) : PiecewiseJerkProblem :=
  let speed_limit := Qmax (max_speed_ this) (s_dot_init_ this + (1 # 10)) in
  let x_ref :=
    map (fun i =>
           let curr_t := knot_time (delta_t_ this) i in
           match EvaluateByTime ext speed_data curr_t with
           | Some sp => sp_s sp
           | None => 0
           end)
        (seq 0 (Z.to_nat (num_of_knots_ this))) in
  set_x_ref (ref_s_weight config_) x_ref
    (set_weights 0 0 (acc_weight config_) (jerk_weight config_)
       (set_x_bounds (x_bounds_per_knot (s_bounds_ this))
          (set_dddx_bound (s_dddot_min_ this) (s_dddot_max_ this)
             (set_ddx_bounds (s_ddot_min_ this) (s_ddot_max_ this)
                (set_dx_bounds 0 speed_limit piecewise_jerk_problem))))).

(** [OptimizeByQP]: the status and the three output arrays, which are
    written only after a successful solve. *)
Definition OptimizeByQP (this : Members) (speed_data : SpeedData)
    (distance velocity acceleration : list Q)
    (piecewise_jerk_problem : PiecewiseJerkProblem) : Status * Solution :=
  match Optimize ext (speed_qp this speed_data piecewise_jerk_problem) None with
  | None => (mkStatus PLANNING_ERROR msg_qp, (distance, velocity, acceleration))
  | Some (opt_x, opt_dx, opt_ddx) => (Status_OK, (opt_x, opt_dx, opt_ddx))
  end.

Definition warm_start_invalid (distance velocity acceleration : list Q) : bool :=
  empty distance || empty velocity || empty acceleration
  || negb (length distance =? length velocity)%nat
  || negb (length velocity =? length acceleration)%nat.

Definition warm_start_of (distance velocity acceleration : list Q)
  : list (list Q) :=
  map (fun i => [at_index distance i; at_index velocity i;
                 at_index acceleration i])
      (seq 0 (length distance)).

(** The interface object of [OptimizeByNLP] after all its setters. *)
Definition nlp_interface (this : Members) (distance : list Q)
    (warm_start : option (list (list Q))) : IpoptInterface :=
  let '(reference_spatial_distance, w_reference_spatial_distance) :=
    if FLAGS_use_smoothed_dp_guide_line flags
    then (distance, 5 # 100)
    else (repeat (total_length_ this) (Z.to_nat (num_of_knots_ this)),
          s_potential_weight config_) in
  mkIpoptInterface
    (s_init_ this) (s_dot_init_ this) (s_ddot_init_ this) (delta_t_ this)
    (num_of_knots_ this) (total_length_ this) (s_dot_max_ this)
    (s_ddot_min_ this) (s_ddot_max_ this) (s_dddot_min_ this)
    (s_dddot_max_ this)
    (s_bounds_ this) (smoothed_path_curvature_ this)
    (smoothed_speed_limit_ this) warm_start
    reference_spatial_distance w_reference_spatial_distance
    (if FLAGS_use_soft_bound_in_nonlinear_speed_opt flags
     then Some (s_soft_bounds_ this, soft_s_bound_weight config_) else None)
    (acc_weight config_) (jerk_weight config_) (lat_acc_weight config_)
    (cruise_speed_ this) (ref_v_weight config_).

(** [OptimizeByNLP]: the three arrays are overwritten by
    [get_optimization_results] only, the last statement before
    [return Status::OK()]. *)
Definition OptimizeByNLP (this : Members)
    (distance velocity acceleration : list Q) : Status * Solution :=
  let unchanged := (distance, velocity, acceleration) in
  if use_warm_start config_ && warm_start_invalid distance velocity acceleration
  then (mkStatus PLANNING_ERROR msg_warm_start, unchanged)
  else
    let warm_start :=
      if use_warm_start config_
      then Some (warm_start_of distance velocity acceleration)
      else None in
    let ptr_interface := nlp_interface this distance warm_start in
    match Initialize ext with
    | Solve_Succeeded =>
        match OptimizeTNLP ext ptr_interface with
        | Solve_Succeeded | Solved_To_Acceptable_Level =>
            (Status_OK, get_optimization_results ext ptr_interface)
        | Ipopt_failure _ => (mkStatus PLANNING_ERROR msg_nlp, unchanged)
        end
    | Solved_To_Acceptable_Level | Ipopt_failure _ =>
        (mkStatus PLANNING_ERROR msg_nlp_init, unchanged)
    end.

(** [optimize_speed_by_nlp_interface]: always returns 0; what it leaves
    behind are the members, [*speed_data] and the three arrays.  Its three
    array pointers are addresses of locals of [Process]. *)
Definition optimize_speed_by_nlp_interface (this : Members)
    (path_data : PathData) (speed_data : SpeedData)
    (distance velocity acceleration : list Q)
  : Members * SpeedData * Solution :=
  let unchanged := (distance, velocity, acceleration) in
  let speed_limit_check_status := CheckSpeedLimitFeasibility this in
  if speed_limit_check_status then
    let '(path_curvature_smooth_status, this1) :=
      SmoothPathCurvature this path_data in
    if negb (ok path_curvature_smooth_status)
    then (this1, clear, unchanged)
    else
      let '(speed_limit_smooth_status, this2) := SmoothSpeedLimit this1 in
      if negb (ok speed_limit_smooth_status)
      then (this2, clear, unchanged)
      else
        let '(nlp_smooth_status, arrays) :=
          OptimizeByNLP this2 distance velocity acceleration in
        if negb (ok nlp_smooth_status)
        then (this2, clear, arrays)
        else (this2, speed_data, arrays)
  else (this, speed_data, unchanged).
End Stages.

(* ------------------------------------------------------------------------- *)
(** * Process *)

Definition msg_null_speed_data : string := "Null speed_data pointer".
Definition msg_empty_path : string := "Speed Optimizer receives empty path data".

(** The loop [for (int i = 1; i < num_of_knots_; ++i)] that closes
    [Process], with [n] iterations left; it breaks at the first negative
    velocity. *)
Fixpoint append_optimized_points (n i : nat) (delta_t : Q)
    (distance velocity acceleration : list Q) (speed_data : SpeedData)
  : SpeedData :=
  match n with
  | O => speed_data
  | S n' =>
      if Qltb (at_index velocity i) 0
      then speed_data
      else
        append_optimized_points n' (S i) delta_t distance velocity acceleration
          (AppendSpeedPoint speed_data
             (at_index distance i) (delta_t * inject_Z (Z.of_nat i))
             (at_index velocity i) (at_index acceleration i)
             ((at_index acceleration i - at_index acceleration (i - 1)) / delta_t))
  end.

(** [speed_data->clear()], the initial point and the loop. *)
Definition emit_speed_data (num_of_knots : Z) (delta_t : Q) (arrays : Solution)
  : SpeedData :=
  let '(distance, velocity, acceleration) := arrays in
  let speed_data :=
    AppendSpeedPoint clear (at_index distance 0) 0 (at_index velocity 0)
                     (at_index acceleration 0) 0 in
  append_optimized_points (Z.to_nat (num_of_knots - 1)) 1 delta_t
                          distance velocity acceleration speed_data.

(** What a call of [Process] leaves: the returned status, the members and
    the caller's [*speed_data] ([None] for a null pointer). *)
Record ProcessResult : Type := mkProcessResult {
  result_status : Status;
  result_members : Members;
  result_speed_data : option SpeedData
}.

Section Process.
Variable ext : Collaborators.
Variable flags : Flags.
Variable config_ : Config.
Variable veh_param : VehicleParam.
Variable reference_line_info_ : ReferenceLineInfo.

(** [record_constraints], [record_qp_info] and [record_nlp_info] write
    debug records only, and the local [speed_limit] of [Process] is never
    read; none of them appears below. *)
Definition Process (this : Members) (path_data : PathData)
    (init_point : TrajectoryPoint) (speed_data : option SpeedData)
  : ProcessResult :=
  match speed_data with
  | None =>
      mkProcessResult (mkStatus PLANNING_ERROR msg_null_speed_data) this None
  | Some rough =>
      if empty (discretized_path path_data)
      then mkProcessResult (mkStatus PLANNING_ERROR msg_empty_path)
                           this (Some rough)
      else if ReachedDestination reference_line_info_
      then mkProcessResult Status_OK this (Some rough)
      else
        let '(problem_setups_status, this1) :=
          SetUpStatesAndBounds ext flags veh_param reference_line_info_
                               this path_data rough in
        if negb (ok problem_setups_status)
        then mkProcessResult problem_setups_status this1 (Some clear)
        else
          let init_states :=
            (s_init_ this1, s_dot_init_ this1, s_ddot_init_ this1) in
          let piecewise_jerk_problem :=
            new_problem (num_of_knots_ this1) (delta_t_ this1) init_states in
          let '(qp_smooth_status, (distance, velocity, acceleration)) :=
            OptimizeByQP ext config_ this1 rough [] [] []
                         piecewise_jerk_problem in
          if negb (ok qp_smooth_status)
          then mkProcessResult qp_smooth_status this1 (Some clear)
          else
            let '(this2, _, arrays) :=
              optimize_speed_by_nlp_interface ext flags config_ this1
                path_data rough distance velocity acceleration in
            mkProcessResult Status_OK this2
              (Some (FillEnoughSpeedPoints ext
                       (emit_speed_data (num_of_knots_ this2)
                                        (delta_t_ this2) arrays)))
  end.

(** Names for the intermediate values of a run of [Process]: the members
    after the set-up, the outcome of the speed QP built on them, and the
    three arrays the emission reads. *)
Definition members_after_setup (this : Members) (path_data : PathData)
    (rough : SpeedData) : Members :=
  snd (SetUpStatesAndBounds ext flags veh_param reference_line_info_
                            this path_data rough).

Definition qp_outcome (this : Members) (path_data : PathData)
    (rough : SpeedData) : Status * Solution :=
  let this1 := members_after_setup this path_data rough in
  OptimizeByQP ext config_ this1 rough [] [] []
    (new_problem (num_of_knots_ this1) (delta_t_ this1)
                 (s_init_ this1, s_dot_init_ this1, s_ddot_init_ this1)).

Definition optimized_arrays (this : Members) (path_data : PathData)
    (rough : SpeedData) : Solution :=
  let this1 := members_after_setup this path_data rough in
  let '(distance, velocity, acceleration) :=
    snd (qp_outcome this path_data rough) in
  snd (optimize_speed_by_nlp_interface ext flags config_ this1 path_data
         rough distance velocity acceleration).
End Process.

(** ** The emitted profile, as the specification words it *)

Fixpoint take_while {A} (keep : A -> bool) (l : list A) : list A :=
  match l with
  | [] => []
  | a :: l' => if keep a then a :: take_while keep l' else []
  end.

(** The point of knot [i >= 1]. *)
Definition optimized_point (delta_t : Q) (arrays : Solution) (i : nat)
  : SpeedPoint :=
  let '(distance, velocity, acceleration) := arrays in
  mkSpeedPoint (at_index distance i) (delta_t * inject_Z (Z.of_nat i))
               (at_index velocity i) (at_index acceleration i)
               ((at_index acceleration i - at_index acceleration (i - 1)) / delta_t).

(** The initial point, then the points of the knots 1 .. N-1 up to, and
    without, the first one with a negative velocity. *)
Definition emission_by_spec (num_of_knots : Z) (delta_t : Q) (arrays : Solution)
  : SpeedData :=
  let '(distance, velocity, acceleration) := arrays in
  mkSpeedPoint (at_index distance 0) 0 (at_index velocity 0)
               (at_index acceleration 0) 0
  :: map (optimized_point delta_t arrays)
         (take_while (fun i => negb (Qltb (at_index velocity i) 0))
                     (seq 1 (Z.to_nat (num_of_knots - 1)))).

(** ** The solvers' results, as the specification words them *)

(** Modelled from the spec: the QP solver class is declared outside the
    embedded files.  Its solution "satisfies all hard constraints to
    tolerance" and, for the "global" velocity box, every velocity lies in
    "[0, s_dot_max + eps]": not below the lower bound of the box the problem
    was given, and above its upper bound by [eps] at most. *)
Definition honours_dx_bounds (eps : Q) (problem : PiecewiseJerkProblem)
    (sol : Solution) : Prop :=
  match pjp_dx_bounds problem with
  | Some (lo, hi) => Forall (fun v => lo <= v /\ v <= hi + eps) (snd (fst sol))
  | None => True
  end.

(** Modelled from the spec: the NLP interface class is declared outside the
    embedded files.  Its "decision variables" are the "same z as QP", the
    velocities under the same lower bound 0. *)
Definition nonnegative_velocities (sol : Solution) : Prop :=
  Forall (fun v => 0 <= v) (snd (fst sol)).

(* ------------------------------------------------------------------------- *)
(** * Concrete scenarios

    A short horizon (three knots), a straight two-point path and simple
    stand-ins for the collaborators, for the worked examples below. *)

(** A speed profile look-up: the first stored point at or after [t]. *)
Definition first_point_from (speed_data : SpeedData) (t : Q) : option SpeedPoint :=
  find (fun p => Qleb t (sp_t p)) speed_data.

(** A QP "solver" that returns a fixed constant-speed profile. *)
Definition cruise_solution : Solution :=
  ([0; 1 # 2; 1], [5; 5; 5], [0; 0; 0]).

(** A profile whose initial velocity is slightly negative. *)
Definition creeping_solution : Solution :=
  ([0; 0; 0], [-1 # 100; 0; 0], [0; 0; 0]).

Definition refined_solution : Solution :=
  ([0; 2 # 5; 4 # 5], [4; 4; 4], [0; 0; 0]).

Definition sample_ext (qp : option Solution) (nlp : ApplicationReturnStatus)
  : Collaborators :=
  mkCollaborators first_point_from (fun _ _ => 20) lerp_path_point
                  (fun _ _ => qp) Solve_Succeeded (fun _ => nlp)
                  (fun _ => refined_solution) (fun speed_data => speed_data).

Definition sample_flags : Flags := mkFlags true false 4 2 3 (5 # 2).

Definition sample_config : Config := mkConfig 1 1 1 1 1 1 1 true.

Definition sample_vehicle : VehicleParam := mkVehicleParam 2 6.

Definition rough_profile : SpeedData :=
  [mkSpeedPoint 0 0 5 0 0; mkSpeedPoint (1 # 2) (1 # 10) 5 0 0;
   mkSpeedPoint 1 (2 # 10) 5 0 0].

(** A leader 30 m ahead at every time, followed with a 5 m gap. *)
Definition follow_boundary : STBoundary :=
  mkSTBoundary FOLLOW (fun _ => Some (30, 0)) 5 false (mk_st_gap_poi 0 0).

(** A leader so close that the follow fence falls behind the ego position. *)
Definition close_follow_boundary : STBoundary :=
  mkSTBoundary FOLLOW (fun _ => Some (3, 0)) 5 false (mk_st_gap_poi 0 0).

Definition stop_boundary (s : Q) : STBoundary :=
  mkSTBoundary STOP (fun _ => Some (s, 0)) 0 false (mk_st_gap_poi 0 0).

Definition overtake_boundary (s : Q) : STBoundary :=
  mkSTBoundary OVERTAKE (fun _ => Some (200, s)) 0 false (mk_st_gap_poi 0 0).

Definition sample_graph (init_v : Q) (boundaries : list STBoundary) : StGraphData :=
  mkStGraphData 100 (2 # 10) (mkTrajectoryPoint init_v 0) boundaries
                (mkSpeedLimit [(0, 20)]).

Definition sample_reference_line (reached : bool) (init_v : Q)
    (boundaries : list STBoundary) : ReferenceLineInfo :=
  mkReferenceLineInfo 10 8 reached [mkSpeedPoint 12 0 5 0 0;
                                    mkSpeedPoint 13 (2 # 10) 4 0 0]
                      (sample_graph init_v boundaries).

Definition sample_path : PathData := mkPathData path_0_1_2.

(** ** The bounds builder, as the specification words it *)

(** The assignments of the case a boundary type selects, before the checks
    that close the case. *)
Definition case_update (flags : Flags) (curr_t : Q) (dp_speed_point : SpeedPoint)
    (k : KnotBounds) (boundary : STBoundary) (drive_s_upper drive_s_lower : Q)
  : KnotBounds :=
  match boundary_type boundary with
  | STOP => stop_update drive_s_upper k
  | YIELD => yield_update boundary curr_t drive_s_upper k
  | FOLLOW => follow_update flags boundary curr_t dp_speed_point drive_s_upper k
  | OVERTAKE => overtake_update drive_s_lower k
  | UNKNOWN | KEEP_CLEAR => k
  end.


(** "soft_follow_dist <- follow_min_distance +
     min(7.0, follow_time_buffer * dp_point.v)". *)
Definition soft_follow_dist_by_spec (flags : Flags) (dp_point : SpeedPoint) : Q :=
  FLAGS_follow_min_distance flags
  + Qmin 7 (FLAGS_follow_time_buffer flags * sp_v dp_point).

(** The four boundary types the switch names. *)
Definition constrains (t : BoundaryType) : bool :=
  match t with
  | STOP | YIELD | FOLLOW | OVERTAKE => true
  | UNKNOWN | KEEP_CLEAR => false
  end.

(** The flags of the scenarios with the soft bounds switched off. *)
Definition hard_only_flags : Flags := mkFlags false false 4 2 3 (5 # 2).

(** A stop fence at 30 m behind a vehicle to overtake at 50 m. *)
Definition crossing_boundaries : list STBoundary :=
  [stop_boundary 30; overtake_boundary 50].

(** An NLP solver that gives up, and the collaborators of the scenarios
    around it. *)
Definition nlp_gives_up : ApplicationReturnStatus := Ipopt_failure (-1).

Definition ext_nlp_fails : Collaborators :=
  sample_ext (Some cruise_solution) nlp_gives_up.

Definition ext_qp_fails : Collaborators := sample_ext None Solve_Succeeded.

Definition ext_creeping : Collaborators :=
  sample_ext (Some creeping_solution) nlp_gives_up.

Definition following_line : ReferenceLineInfo :=
  sample_reference_line false 5 [follow_boundary].

(** The ego vehicle drives at 15 m/s where the reference line allows 10. *)
Definition speeding_line : ReferenceLineInfo :=
  sample_reference_line false 15 [].

Definition standing_line : ReferenceLineInfo :=
  sample_reference_line false 0 [].

Definition arrived_line : ReferenceLineInfo :=
  sample_reference_line true 0 [].

Definition empty_path : PathData := mkPathData [].

(* ------------------------------------------------------------------------- *)
(** * Vocabulary for the further properties *)

(** The shape of a look-up result: an end point, or the interpolation of two
    neighbours. *)
Definition reads_from (interpolate : PathPoint -> PathPoint -> Q -> PathPoint)
    (path : DiscretizedPath) (front : PathPoint) (path_s : Q)
    (result : option PathPoint) : Prop :=
  result = Some front \/
  result = Some (back path front) \/
  exists k p0 p1,
    nth_error path k = Some p0 /\ nth_error path (S k) = Some p1 /\
    result = Some (interpolate p0 p1 path_s).

(* ------------------------------------------------------------------------- *)
(** * The debug records *)

Definition name_brake_plan : string := "minimum_jerk_speed_profile".
Definition name_drive_boundary : string := "ST_drive_Boundary".
Definition name_qp_plan : string := "qp_speed".

(** What [record_constraints] adds to the planning debug data: the speed
    plan copied from the emergency-brake profile, and the (t, s) points of
    the drivable region. *)
Record ConstraintsDebug : Type := mkConstraintsDebug {
  speed_plan_name : string;
  speed_plan_points : SpeedData;
  st_graph_name : string;
  boundary_name : string;
  boundary_points : list (Q * Q)
}.

(** "lower": [for (const auto& st_bound_pt : s_bounds_)], with the running
    time [t]; the result is the time after the loop and the points. *)
Fixpoint lower_edge (s_bounds : list (Q * Q)) (t delta_t : Q)
    (points : list (Q * Q)) : Q * list (Q * Q) :=
  match s_bounds with
  | [] => (t, points)
  | st_bound_pt :: rest =>
      let s_lower := fst st_bound_pt in
      lower_edge rest (t + delta_t) delta_t (points ++ [(t, s_lower)])
  end.

(** "upper": [for (int i = s_bound_size - 1; i >= 0; --i)], with [n = i + 1]
    iterations left. *)
Fixpoint upper_edge (n : nat) (s_bounds : list (Q * Q)) (t delta_t : Q)
    (points : list (Q * Q)) : list (Q * Q) :=
  match n with
  | O => points
  | S i =>
      let s_upper := snd (nth i s_bounds (0, 0)) in
      upper_edge i s_bounds (t - delta_t) delta_t (points ++ [(t, s_upper)])
  end.

(** [record_constraints]: [None] when the emergency-brake profile is empty
    and nothing is recorded; [name] is the task's [Name()]. *)
Definition record_constraints (reference_line_info_ : ReferenceLineInfo)
    (name : string) (this : Members) : option ConstraintsDebug :=
  let brake_speed := emergency_brake_speed_data reference_line_info_ in
  if (length brake_speed <? 1)%nat then None
  else
    let '(t, points) := lower_edge (s_bounds_ this) 0 (delta_t_ this) [] in
    let s_bound_size := length (s_bounds_ this) in
    let t := t - delta_t_ this in
    Some (mkConstraintsDebug
            name_brake_plan brake_speed name name_drive_boundary
            (upper_edge s_bound_size (s_bounds_ this) t (delta_t_ this) points)).

(** The loop of [record_qp_info]: unlike the loop of [Process] it has no
    break. *)
Fixpoint record_qp_points (n i : nat) (delta_t : Q)
    (distance velocity acceleration : list Q) (plan : SpeedData) : SpeedData :=
  match n with
  | O => plan
  | S n' =>
      record_qp_points n' (S i) delta_t distance velocity acceleration
        (plan ++ [mkSpeedPoint
                    (at_index distance i) (delta_t * inject_Z (Z.of_nat i))
                    (at_index velocity i) (at_index acceleration i)
                    ((at_index acceleration i - at_index acceleration (i - 1))
                     / delta_t)])
  end.

(** [record_qp_info]: the name and the points of the speed plan it adds. *)
Definition record_qp_info (this : Members)
    (distance velocity acceleration : list Q) : string * SpeedData :=
  if (length distance <=? 0)%nat || (length velocity <=? 0)%nat
     || (length acceleration <=? 0)%nat
  then (name_qp_plan, [])
  else
    (name_qp_plan,
     record_qp_points (Z.to_nat (num_of_knots_ this - 1)) 1 (delta_t_ this)
       distance velocity acceleration
       [mkSpeedPoint (at_index distance 0) 0 (at_index velocity 0)
                     (at_index acceleration 0) 0]).

(** Times along a speed profile, first to last. *)
Fixpoint increasing_times (speed_data : SpeedData) : Prop :=
  match speed_data with
  | p0 :: (p1 :: _) as rest => sp_t p0 < sp_t p1 /\ increasing_times rest
  | _ => True
  end.

(** The statuses [Process] can return. *)
Definition Process_statuses : list Status :=
  [Status_OK;
   mkStatus PLANNING_ERROR msg_null_speed_data;
   mkStatus PLANNING_ERROR msg_empty_path;
   mkStatus PLANNING_ERROR msg_rough_speed_profile;
   mkStatus PLANNING_ERROR msg_bounds;
   mkStatus PLANNING_ERROR msg_qp].

(** A rough profile that ends before the second knot, and boundaries whose
    ranges are known only from 5 s on. *)
Definition short_rough_profile : SpeedData := [mkSpeedPoint 0 0 5 0 0].

Definition late_stop_boundary : STBoundary :=
  mkSTBoundary STOP (fun t => if Qleb 5 t then Some (30, 0) else None)
               0 false (mk_st_gap_poi 0 0).

(** All stages succeed. *)
Definition ext_all_succeed : Collaborators :=
  sample_ext (Some cruise_solution) Solve_Succeeded.

Definition free_line : ReferenceLineInfo := sample_reference_line false 5 [].

Definition stop_line : ReferenceLineInfo :=
  sample_reference_line false 5 [stop_boundary 30].

(* ========================================================================= *)
(** * Properties *)

(** ** Comparisons *)

Lemma Qltb_true (a b : Q) : Qltb a b = true <-> a < b.
Proof.
  unfold Qltb; destruct (Qlt_le_dec a b) as [H | H]; split; intro K;
    try reflexivity; try assumption; try discriminate; lra.
Qed.

Lemma Qltb_false (a b : Q) : Qltb a b = false <-> b <= a.
Proof.
  unfold Qltb; destruct (Qlt_le_dec a b) as [H | H]; split; intro K;
    try reflexivity; try assumption; try discriminate; lra.
Qed.

Lemma Qleb_true (a b : Q) : Qleb a b = true <-> a <= b.
Proof.
  unfold Qleb; destruct (Qlt_le_dec b a) as [H | H]; split; intro K;
    try reflexivity; try assumption; try discriminate; lra.
Qed.

Lemma Qleb_false (a b : Q) : Qleb a b = false <-> b < a.
Proof.
  unfold Qleb; destruct (Qlt_le_dec b a) as [H | H]; split; intro K;
    try reflexivity; try assumption; try discriminate; lra.
Qed.

(** ** The binary searches return the partition point *)

Lemma partition_point_unique {A} (P : A -> bool) (v : list A) (r1 r2 : nat) :
  partition_point P v r1 -> partition_point P v r2 -> r1 = r2.
Proof.
  intros (L1 & T1 & F1) (L2 & T2 & F2).
  destruct (Nat.lt_trichotomy r1 r2) as [H | [H | H]]; [ | exact H | ].
  - destruct (nth_error v r1) as [e |] eqn:E.
    + pose proof (T2 r1 e H E) as K1. pose proof (F1 r1 e (Nat.le_refl _) E) as K2.
      congruence.
    + apply nth_error_None in E. lia.
  - destruct (nth_error v r2) as [e |] eqn:E.
    + pose proof (T1 r2 e H E) as K1. pose proof (F2 r2 e (Nat.le_refl _) E) as K2.
      congruence.
    + apply nth_error_None in E. lia.
Qed.

Lemma lower_bound_loop_partition {A V} (comp : A -> V -> bool) (v : list A) (val : V) :
  partitioned (fun e => comp e val) v ->
  forall fuel first len,
    (len <= fuel)%nat -> (first + len <= length v)%nat ->
    (forall i e, (i < first)%nat -> nth_error v i = Some e -> comp e val = true) ->
    (forall i e, (first + len <= i)%nat -> nth_error v i = Some e -> comp e val = false) ->
    partition_point (fun e => comp e val) v (lower_bound_loop comp v val fuel first len).
Proof.
  intros Hpart fuel.
  induction fuel as [| fuel IH]; intros first len Hfuel Hlen Hlo Hhi.
  - assert (len = 0)%nat by lia; subst len. simpl.
    repeat split; [lia | exact Hlo | ].
    intros i e Hi; apply Hhi; lia.
  - destruct len as [| len'].
    + simpl. repeat split; [lia | exact Hlo | ].
      intros i e Hi; apply Hhi; lia.
    + cbn [lower_bound_loop].
      set (half := (S len' / 2)%nat).
      assert (Hhalf : (half <= len')%nat).
      { pose proof (Nat.div_lt (S len') 2) as K. subst half. lia. }
      destruct (nth_error v (first + half)) as [e |] eqn:E.
      2:{ apply nth_error_None in E. lia. }
      destruct (comp e val) eqn:C.
      * apply IH; try lia.
        -- intros i ei Hi Ei.
           apply (Hpart i (first + half)%nat ei e); try assumption; lia.
        -- intros i ei Hi Ei. apply (Hhi i ei); [lia | exact Ei].
      * apply IH; try lia.
        -- exact Hlo.
        -- intros i ei Hi Ei.
           destruct (comp ei val) eqn:Ci; [ | reflexivity].
           assert (K : comp e val = true).
           { apply (Hpart (first + half)%nat i e ei); try assumption. }
           congruence.
Qed.

Lemma lower_bound_partition {A V} (comp : A -> V -> bool) (v : list A) (val : V) :
  partitioned (fun e => comp e val) v ->
  partition_point (fun e => comp e val) v (lower_bound comp v val).
Proof.
  intro Hpart. unfold lower_bound.
  apply lower_bound_loop_partition; try assumption; try lia.
  intros i e Hi Ei.
  assert (nth_error v i = None) by (apply nth_error_None; lia). congruence.
Qed.

Lemma upper_bound_loop_partition {A V} (comp : V -> A -> bool) (v : list A) (val : V) :
  partitioned (fun e => negb (comp val e)) v ->
  forall fuel first len,
    (len <= fuel)%nat -> (first + len <= length v)%nat ->
    (forall i e, (i < first)%nat -> nth_error v i = Some e -> comp val e = false) ->
    (forall i e, (first + len <= i)%nat -> nth_error v i = Some e -> comp val e = true) ->
    partition_point (fun e => negb (comp val e)) v
                    (upper_bound_loop comp v val fuel first len).
Proof.
  intros Hpart fuel.
  assert (Hneg : forall b, negb b = true <-> b = false) by (intros []; simpl; split; congruence).
  assert (Hneg' : forall b, negb b = false <-> b = true) by (intros []; simpl; split; congruence).
  induction fuel as [| fuel IH]; intros first len Hfuel Hlen Hlo Hhi.
  - assert (len = 0)%nat by lia; subst len. simpl.
    repeat split; [lia | | ].
    + intros i e Hi Ei. apply Hneg. eapply Hlo; eassumption.
    + intros i e Hi Ei. apply Hneg'. eapply Hhi; [ | eassumption]. lia.
  - destruct len as [| len'].
    + simpl. repeat split; [lia | | ].
      * intros i e Hi Ei. apply Hneg. eapply Hlo; eassumption.
      * intros i e Hi Ei. apply Hneg'. eapply Hhi; [ | eassumption]. lia.
    + cbn [upper_bound_loop].
      set (half := (S len' / 2)%nat).
      assert (Hhalf : (half <= len')%nat).
      { pose proof (Nat.div_lt (S len') 2) as K. subst half. lia. }
      destruct (nth_error v (first + half)) as [e |] eqn:E.
      2:{ apply nth_error_None in E. lia. }
      destruct (comp val e) eqn:C.
      * apply IH; try lia.
        -- exact Hlo.
        -- intros i ei Hi Ei.
           destruct (comp val ei) eqn:Ci; [reflexivity | ].
           assert (K : negb (comp val e) = true).
           { apply (Hpart (first + half)%nat i e ei); try assumption.
             apply Hneg; exact Ci. }
           apply Hneg in K. congruence.
      * apply IH; try lia.
        -- intros i ei Hi Ei. apply Hneg.
           apply (Hpart i (first + half)%nat ei e); try assumption; try lia.
           apply Hneg; exact C.
        -- intros i ei Hi Ei. apply (Hhi i ei); [lia | exact Ei].
Qed.

Lemma upper_bound_partition {A V} (comp : V -> A -> bool) (v : list A) (val : V) :
  partitioned (fun e => negb (comp val e)) v ->
  partition_point (fun e => negb (comp val e)) v (upper_bound comp v val).
Proof.
  intro Hpart. unfold upper_bound.
  apply upper_bound_loop_partition; try assumption; try lia.
  intros i e Hi Ei.
  assert (nth_error v i = None) by (apply nth_error_None; lia). congruence.
Qed.

(** ** DiscretizedPath: the lower_bound look-up *)

Lemma nondecreasing_tail (p : PathPoint) (path : DiscretizedPath) :
  nondecreasing (p :: path) -> nondecreasing path.
Proof. destruct path as [| q rest]; simpl; tauto. Qed.

Lemma nondecreasing_nth (path : DiscretizedPath) :
  nondecreasing path ->
  forall i j pi pj, (i <= j)%nat ->
    nth_error path i = Some pi -> nth_error path j = Some pj ->
    pp_s pi <= pp_s pj.
Proof.
  induction path as [| p rest IH]; intros Hs i j pi pj Hij Ei Ej.
  - destruct i; discriminate.
  - destruct j as [| j'].
    + assert (i = 0)%nat by lia; subst i. simpl in *.
      injection Ei as <-; injection Ej as <-. lra.
    + destruct i as [| i'].
      * simpl in Ei; injection Ei as <-. simpl in Ej.
        destruct rest as [| q rest']; [destruct j'; discriminate | ].
        destruct Hs as [Hpq Hrest].
        assert (K : pp_s q <= pp_s pj).
        { apply (IH Hrest 0%nat j' q pj); [lia | reflexivity | exact Ej]. }
        lra.
      * simpl in Ei, Ej. apply (IH (nondecreasing_tail _ _ Hs) i' j'); auto; lia.
Qed.

Lemma nonincreasing_tail (p : PathPoint) (path : DiscretizedPath) :
  nonincreasing (p :: path) -> nonincreasing path.
Proof. destruct path as [| q rest]; simpl; tauto. Qed.

Lemma nonincreasing_nth (path : DiscretizedPath) :
  nonincreasing path ->
  forall i j pi pj, (i <= j)%nat ->
    nth_error path i = Some pi -> nth_error path j = Some pj ->
    pp_s pj <= pp_s pi.
Proof.
  induction path as [| p rest IH]; intros Hs i j pi pj Hij Ei Ej.
  - destruct i; discriminate.
  - destruct j as [| j'].
    + assert (i = 0)%nat by lia; subst i. simpl in *.
      injection Ei as <-; injection Ej as <-. lra.
    + destruct i as [| i'].
      * simpl in Ei; injection Ei as <-. simpl in Ej.
        destruct rest as [| q rest']; [destruct j'; discriminate | ].
        destruct Hs as [Hpq Hrest].
        assert (K : pp_s pj <= pp_s q).
        { apply (IH Hrest 0%nat j' q pj); [lia | reflexivity | exact Ej]. }
        lra.
      * simpl in Ei, Ej. apply (IH (nonincreasing_tail _ _ Hs) i' j'); auto; lia.
Qed.

Lemma back_nth_error {A} (v : list A) (d : A) :
  v <> [] -> nth_error v (length v - 1) = Some (back v d).
Proof.
  intro Hne. unfold back.
  rewrite (app_removelast_last d Hne) at 1 2.
  rewrite length_app, nth_error_app2; simpl; [ | lia].
  replace (length (removelast v) + 1 - 1 - length (removelast v))%nat with 0%nat by lia.
  reflexivity.
Qed.

Lemma QueryLowerBound_partition (path : DiscretizedPath) (path_s : Q) :
  nondecreasing path ->
  partition_point (fun tp => Qltb (pp_s tp) path_s) path (QueryLowerBound path path_s).
Proof.
  intro Hs. unfold QueryLowerBound.
  apply (lower_bound_partition (fun tp x => Qltb (pp_s tp) x)).
  intros i j pi pj Hij Ei Ej Hj.
  apply Qltb_true in Hj. apply Qltb_true.
  pose proof (nondecreasing_nth path Hs i j pi pj Hij Ei Ej). lra.
Qed.

Lemma QueryUpperBound_partition (path : DiscretizedPath) (path_s : Q) :
  nonincreasing path ->
  partition_point (fun tp => negb (Qltb (pp_s tp) path_s)) path
                  (QueryUpperBound path path_s).
Proof.
  intro Hs. unfold QueryUpperBound.
  apply (upper_bound_partition (fun x tp => Qltb (pp_s tp) x)).
  intros i j pi pj Hij Ei Ej Hj.
  destruct (Qltb (pp_s pi) path_s) eqn:C; [ | reflexivity].
  destruct (Qltb (pp_s pj) path_s) eqn:D; [discriminate | ].
  apply Qltb_true in C. apply Qltb_false in D.
  pose proof (nonincreasing_nth path Hs i j pi pj Hij Ei Ej). lra.
Qed.

(** C9.  On a non-empty path with non-decreasing stations, [Evaluate] clamps:
    it returns [front()] for every [path_s <= front().s()], [back()] for
    every [path_s > back().s()], and otherwise the linear interpolation of
    the two neighbouring points [p0], [p1] with
    [p0.s() < path_s <= p1.s()]. *)
Theorem Evaluate_clamps_and_brackets
    (interpolate : PathPoint -> PathPoint -> Q -> PathPoint)
    (front : PathPoint) (rest : list PathPoint) (path_s : Q) :
  let path := front :: rest in
  nondecreasing path ->
  (path_s <= pp_s front -> Evaluate interpolate path path_s = Some front) /\
  (pp_s (back path front) < path_s ->
     Evaluate interpolate path path_s = Some (back path front)) /\
  (pp_s front < path_s -> path_s <= pp_s (back path front) ->
     exists k p0 p1,
       nth_error path k = Some p0 /\ nth_error path (S k) = Some p1 /\
       pp_s p0 < path_s /\ path_s <= pp_s p1 /\
       Evaluate interpolate path path_s = Some (interpolate p0 p1 path_s)).
Proof.
  intros path Hs.
  pose proof (QueryLowerBound_partition path path_s Hs) as (Hle & Ht & Hf).
  assert (Hne : path <> []) by (subst path; discriminate).
  pose proof (back_nth_error path front Hne) as Hback.
  assert (Hfront : nth_error path 0 = Some front) by reflexivity.
  assert (Hlen : (0 < length path)%nat) by (subst path; simpl; lia).
  set (r := QueryLowerBound path path_s) in *.
  assert (Hev : Evaluate interpolate path path_s =
                if (r =? 0)%nat then Some front
                else if (r =? length path)%nat then Some (back path front)
                else Some (interpolate (nth (r - 1) path front)
                                       (nth r path front) path_s))
    by reflexivity.
  split; [ | split].
  - intro Hq.
    assert (r = 0)%nat as ->.
    { destruct r as [| r']; [reflexivity | exfalso].
      pose proof (Ht 0%nat front ltac:(lia) Hfront) as K.
      apply Qltb_true in K. lra. }
    exact Hev.
  - intro Hq.
    assert (r = length path) as Hr.
    { destruct (Nat.eq_dec r (length path)) as [E | N]; [exact E | exfalso].
      pose proof (Hf (length path - 1)%nat _ ltac:(lia) Hback) as K.
      apply Qltb_false in K. lra. }
    rewrite Hev, Hr.
    destruct (length path =? 0)%nat eqn:E0; [apply Nat.eqb_eq in E0; lia | ].
    rewrite Nat.eqb_refl. reflexivity.
  - intros Hq1 Hq2.
    assert (Hr0 : r <> 0%nat).
    { intro E. pose proof (Hf 0%nat front ltac:(lia) Hfront) as K.
      apply Qltb_false in K. lra. }
    assert (Hrn : r <> length path).
    { intro E. pose proof (Ht (length path - 1)%nat _ ltac:(lia) Hback) as K.
      apply Qltb_true in K. lra. }
    exists (r - 1)%nat, (nth (r - 1) path front), (nth r path front).
    assert (E0 : nth_error path (r - 1) = Some (nth (r - 1) path front))
      by (apply nth_error_nth'; lia).
    assert (E1 : nth_error path r = Some (nth r path front))
      by (apply nth_error_nth'; lia).
    replace (S (r - 1)) with r by lia.
    repeat split; try assumption.
    + apply Qltb_true. apply (Ht (r - 1)%nat); [lia | exact E0].
    + apply Qltb_false. apply (Hf r); [lia | exact E1].
    + rewrite Hev.
      destruct (r =? 0)%nat eqn:Ea; [apply Nat.eqb_eq in Ea; lia | ].
      destruct (r =? length path)%nat eqn:Eb; [apply Nat.eqb_eq in Eb; lia | ].
      reflexivity.
Qed.

Lemma Evaluate_clamps_and_brackets_witness :
  nondecreasing path_0_1_2 /\
  Evaluate lerp_path_point path_0_1_2 (-1 # 1) = Some (point_at 0 0) /\
  Evaluate lerp_path_point path_0_1_2 (5 # 2) = Some (point_at 2 (2 # 10)).
Proof.
  assert (Hs : nondecreasing path_0_1_2) by (simpl; repeat split; lra).
  pose proof (Evaluate_clamps_and_brackets lerp_path_point (point_at 0 0)
                [point_at 1 (1 # 10); point_at 2 (2 # 10)] (-1 # 1) Hs)
    as (Hfront & _ & _).
  pose proof (Evaluate_clamps_and_brackets lerp_path_point (point_at 0 0)
                [point_at 1 (1 # 10); point_at 2 (2 # 10)] (5 # 2) Hs)
    as (_ & Hback & _).
  split; [exact Hs | split].
  - apply Hfront. simpl. lra.
  - apply Hback. simpl. lra.
Defined.

(** ** DiscretizedPath: the upper_bound look-up *)

Lemma hd_rev_back {A} (v : list A) (d d' : A) :
  v <> [] -> hd d' (rev v) = back v d.
Proof.
  intro Hne. unfold back.
  rewrite (app_removelast_last d Hne) at 1.
  rewrite rev_app_distr. simpl.
  reflexivity.
Qed.

Lemma back_rev {A} (a : A) (v : list A) (d : A) : back (rev (a :: v)) d = a.
Proof. unfold back. simpl. apply last_last. Qed.

Lemma QueryLowerBound_rev (path : DiscretizedPath) (path_s : Q) :
  nonincreasing path ->
  QueryLowerBound (rev path) path_s = (length path - QueryUpperBound path path_s)%nat.
Proof.
  intro Hs.
  pose proof (QueryUpperBound_partition path path_s Hs) as (Hle & Ht & Hf).
  set (u := QueryUpperBound path path_s) in *.
  assert (Hrev : nondecreasing (rev path)).
  { clear - Hs. induction path as [| p rest IH]; [exact I | ].
    specialize (IH (nonincreasing_tail _ _ Hs)). simpl.
    assert (G : forall (l : DiscretizedPath) (q : PathPoint),
               nondecreasing l ->
               (forall e, nth_error l (length l - 1) = Some e -> pp_s e <= pp_s q) ->
               nondecreasing (l ++ [q])).
    { clear. induction l as [| a l IHl]; intros q Hl Hlast; [exact I | ].
      destruct l as [| b l'].
      - simpl. split; [ | exact I]. apply Hlast. reflexivity.
      - destruct Hl as [Hab Hl]. split; [exact Hab | ].
        apply IHl; [exact Hl | ].
        intros e He. apply Hlast.
        replace (length (a :: b :: l') - 1)%nat
          with (S (length (b :: l') - 1)) by (simpl; lia).
        exact He. }
    apply G; [exact IH | ].
    intros e He. rewrite length_rev, nth_error_rev in He.
    destruct (length rest - 1 <? length rest)%nat eqn:C; [ | discriminate].
    apply (nonincreasing_nth (p :: rest) Hs 0%nat
             (S (length rest - S (length rest - 1))) p e);
      [lia | reflexivity | exact He]. }
  apply (partition_point_unique (fun tp => Qltb (pp_s tp) path_s) (rev path)).
  - apply QueryLowerBound_partition. exact Hrev.
  - repeat split.
    + rewrite length_rev. lia.
    + intros i e Hi Ei. rewrite nth_error_rev in Ei.
      destruct (i <? length path)%nat eqn:C; [ | discriminate].
      pose proof (Hf (length path - S i)%nat e ltac:(lia) Ei) as K.
      destruct (Qltb (pp_s e) path_s); [reflexivity | discriminate].
    + intros i e Hi Ei. rewrite nth_error_rev in Ei.
      destruct (i <? length path)%nat eqn:C; [ | discriminate].
      apply Nat.ltb_lt in C.
      pose proof (Ht (length path - S i)%nat e ltac:(lia) Ei) as K.
      destruct (Qltb (pp_s e) path_s); [discriminate | reflexivity].
Qed.

Lemma strictly_increasing_tail (p : PathPoint) (path : DiscretizedPath) :
  strictly_increasing (p :: path) -> strictly_increasing path.
Proof. destruct path as [| q rest]; simpl; tauto. Qed.

Lemma strictly_increasing_nondecreasing (path : DiscretizedPath) :
  strictly_increasing path -> nondecreasing path.
Proof.
  induction path as [| p rest IH]; intro Hs; [exact I | ].
  destruct rest as [| q rest']; [exact I | ].
  destruct Hs as [Hpq Hrest]. split; [lra | exact (IH Hrest)].
Qed.

Lemma strictly_increasing_nth (path : DiscretizedPath) :
  strictly_increasing path ->
  forall i j pi pj, (i < j)%nat ->
    nth_error path i = Some pi -> nth_error path j = Some pj ->
    pp_s pi < pp_s pj.
Proof.
  induction path as [| p rest IH]; intros Hs i j pi pj Hij Ei Ej.
  - destruct i; discriminate.
  - destruct j as [| j']; [lia | ].
    destruct i as [| i'].
    + simpl in Ei; injection Ei as <-. simpl in Ej.
      destruct rest as [| q rest']; [destruct j'; discriminate | ].
      destruct Hs as [Hpq Hrest].
      destruct j' as [| j''].
      * simpl in Ej. injection Ej as <-. exact Hpq.
      * assert (K : pp_s q < pp_s pj).
        { apply (IH Hrest 0%nat (S j'') q pj); [lia | reflexivity | exact Ej]. }
        lra.
    + simpl in Ei, Ej.
      apply (IH (strictly_increasing_tail _ _ Hs) i' j'); auto; lia.
Qed.

(** With every station at or above [path_s] the upper_bound query runs to
    [end()]. *)
Lemma QueryUpperBound_end (path : DiscretizedPath) (path_s : Q) :
  (forall i e, nth_error path i = Some e -> path_s <= pp_s e) ->
  QueryUpperBound path path_s = length path.
Proof.
  intro Hall.
  assert (Hkeep : forall i e, nth_error path i = Some e ->
                              negb (Qltb (pp_s e) path_s) = true).
  { intros i e Ei. apply Hall in Ei. apply Qltb_false in Ei.
    rewrite Ei. reflexivity. }
  assert (Hp : partition_point (fun tp => negb (Qltb (pp_s tp) path_s)) path
                               (QueryUpperBound path path_s)).
  { unfold QueryUpperBound.
    apply (upper_bound_partition (fun x tp => Qltb (pp_s tp) x)).
    intros i j ei ej _ Ei _ _. exact (Hkeep i ei Ei). }
  destruct Hp as (Hle & _ & Hf).
  destruct (Nat.eq_dec (QueryUpperBound path path_s) (length path)) as [E | N];
    [exact E | exfalso].
  destruct (nth_error path (QueryUpperBound path path_s)) as [e |] eqn:Ee.
  - pose proof (Hf _ e (Nat.le_refl _) Ee) as K.
    rewrite (Hkeep _ e Ee) in K. discriminate.
  - apply nth_error_None in Ee. lia.
Qed.

(** C10 (as amended).  [EvaluateReverse] is the look-up for a path stored
    with non-increasing stations: on every such non-empty path it returns
    what [Evaluate] returns on the same points in reversed order, the
    interpolation receiving the same two neighbours with their roles
    exchanged.  On a path with strictly increasing stations and two or more
    points the two look-ups do not coincide: for every
    [path_s <= front().s()], [Evaluate] returns [front()] and
    [EvaluateReverse] returns [back()], a different point. *)
Theorem EvaluateReverse_is_Evaluate_on_reversed_path
    (interpolate : PathPoint -> PathPoint -> Q -> PathPoint)
    (path : DiscretizedPath) (path_s : Q) :
  path <> [] ->
  (nonincreasing path ->
   EvaluateReverse interpolate path path_s =
   Evaluate (fun p0 p1 => interpolate p1 p0) (rev path) path_s) /\
  (strictly_increasing path -> (2 <= length path)%nat ->
   forall front, hd_error path = Some front -> path_s <= pp_s front ->
     Evaluate interpolate path path_s = Some front /\
     EvaluateReverse interpolate path path_s = Some (back path front) /\
     Evaluate interpolate path path_s <> EvaluateReverse interpolate path path_s).
Proof.
  intros Hne. split.
  - intro Hs.
    pose proof (QueryLowerBound_rev path path_s Hs) as Hl.
    pose proof (QueryUpperBound_partition path path_s Hs) as (Hle & _ & _).
    destruct path as [| front rest]; [congruence | ].
    set (path := front :: rest) in *.
    assert (Hlen : (0 < length path)%nat) by (subst path; simpl; lia).
    destruct (rev path) as [| rfront rrest] eqn:Er.
    { apply (f_equal (@length _)) in Er. rewrite length_rev in Er. simpl in Er. lia. }
    assert (Hrfront : rfront = back path front).
    { rewrite <- (hd_rev_back path front rfront Hne), Er. reflexivity. }
    assert (Hrlen : length (rfront :: rrest) = length path)
      by (rewrite <- Er; apply length_rev).
    unfold EvaluateReverse, Evaluate. fold path.
    rewrite Hl, Hrlen.
    set (u := QueryUpperBound path path_s) in *.
    destruct (u =? 0)%nat eqn:E0.
    + apply Nat.eqb_eq in E0. rewrite E0, Nat.sub_0_r.
      destruct (length path =? 0)%nat eqn:E1; [apply Nat.eqb_eq in E1; lia | ].
      rewrite Nat.eqb_refl. rewrite <- Er. subst path. rewrite back_rev. reflexivity.
    + apply Nat.eqb_neq in E0.
      destruct (u =? length path)%nat eqn:E1.
      * apply Nat.eqb_eq in E1. rewrite E1, Nat.sub_diag. simpl.
        rewrite Hrfront. reflexivity.
      * apply Nat.eqb_neq in E1.
        destruct (length path - u =? 0)%nat eqn:E2; [apply Nat.eqb_eq in E2; lia | ].
        destruct (length path - u =? length path)%nat eqn:E3;
          [apply Nat.eqb_eq in E3; lia | ].
        rewrite <- Er.
        rewrite (nth_indep (rev path) rfront front) by (rewrite length_rev; lia).
        rewrite (nth_indep (rev path) rfront front) by (rewrite length_rev; lia).
        rewrite !rev_nth by lia.
        replace (length path - S (length path - u))%nat with (u - 1)%nat by lia.
        replace (length path - S (length path - u - 1))%nat with u by lia.
        reflexivity.
  - intros Hs Hlen front Hfront Hq.
    destruct path as [| front' rest]; [congruence | ].
    simpl in Hfront. injection Hfront as ->.
    set (path := front :: rest) in *.
    assert (Hfront : nth_error path 0 = Some front) by reflexivity.
    pose proof (back_nth_error path front Hne) as Hback.
    assert (Hlower : QueryLowerBound path path_s = 0%nat).
    { pose proof (QueryLowerBound_partition path path_s
                    (strictly_increasing_nondecreasing path Hs)) as (_ & Ht & _).
      destruct (QueryLowerBound path path_s) as [| r']; [reflexivity | exfalso].
      pose proof (Ht 0%nat front ltac:(lia) Hfront) as K.
      apply Qltb_true in K. lra. }
    assert (Hupper : QueryUpperBound path path_s = length path).
    { apply QueryUpperBound_end. intros i e Ei.
      destruct i as [| i'].
      - rewrite Hfront in Ei. injection Ei as <-. exact Hq.
      - pose proof (strictly_increasing_nth path Hs 0%nat (S i') front e
                      ltac:(lia) Hfront Ei). lra. }
    assert (Hdiff : pp_s front < pp_s (back path front)).
    { apply (strictly_increasing_nth path Hs 0%nat (length path - 1)%nat);
        [lia | exact Hfront | exact Hback]. }
    assert (He : Evaluate interpolate path path_s = Some front).
    { unfold Evaluate. fold path. rewrite Hlower. reflexivity. }
    assert (Hr : EvaluateReverse interpolate path path_s = Some (back path front)).
    { unfold EvaluateReverse. fold path. rewrite Hupper.
      destruct (length path =? 0)%nat eqn:E0; [apply Nat.eqb_eq in E0; lia | ].
      rewrite Nat.eqb_refl. reflexivity. }
    split; [exact He | split; [exact Hr | ]].
    rewrite He, Hr. intro K.
    assert (E : front = back path front) by congruence.
    rewrite <- E in Hdiff. lra.
Qed.

Lemma EvaluateReverse_is_Evaluate_on_reversed_path_witness :
  (rev path_0_1_2 <> [] /\ nonincreasing (rev path_0_1_2) /\
   EvaluateReverse lerp_path_point (rev path_0_1_2) (3 # 2) =
   Evaluate (fun p0 p1 => lerp_path_point p1 p0) path_0_1_2 (3 # 2)) /\
  (path_0_1_2 <> [] /\ strictly_increasing path_0_1_2 /\
   Evaluate lerp_path_point path_0_1_2 (-1 # 1) = Some (point_at 0 0) /\
   EvaluateReverse lerp_path_point path_0_1_2 (-1 # 1) = Some (point_at 2 (2 # 10))).
Proof.
  assert (Hne : rev path_0_1_2 <> []) by (simpl; discriminate).
  assert (Hs : nonincreasing (rev path_0_1_2)) by (simpl; repeat split; lra).
  assert (Hne' : path_0_1_2 <> []) by discriminate.
  assert (Hs' : strictly_increasing path_0_1_2) by (simpl; repeat split; lra).
  assert (Hlen : (2 <= length path_0_1_2)%nat) by (simpl; lia).
  assert (Hq : -1 # 1 <= pp_s (point_at 0 0)) by (simpl; lra).
  split.
  - split; [exact Hne | split; [exact Hs | ]].
    exact (proj1 (EvaluateReverse_is_Evaluate_on_reversed_path
                    lerp_path_point (rev path_0_1_2) (3 # 2) Hne) Hs).
  - split; [exact Hne' | split; [exact Hs' | ]].
    pose proof (proj2 (EvaluateReverse_is_Evaluate_on_reversed_path
                         lerp_path_point path_0_1_2 (-1 # 1) Hne')
                  Hs' Hlen (point_at 0 0) eq_refl Hq) as (He & Hr & _).
    split; [exact He | exact Hr].
Defined.

(** C10 (as stated) fails: on the strictly increasing two-point path with
    stations 0 and 1 and the query [path_s = 0], [Evaluate] returns the front
    point and [EvaluateReverse] the back point. *)
Lemma Evaluate_EvaluateReverse_differ :
  path_0_1 <> [] /\ strictly_increasing path_0_1 /\
  Evaluate lerp_path_point path_0_1 0 = Some (point_at 0 0) /\
  EvaluateReverse lerp_path_point path_0_1 0 = Some (point_at 1 (1 # 10)) /\
  Evaluate lerp_path_point path_0_1 0 <> EvaluateReverse lerp_path_point path_0_1 0.
Proof.
  split; [discriminate | ].
  split; [simpl; split; [lra | exact I] | ].
  split; [reflexivity | ].
  split; [reflexivity | ].
  vm_compute. discriminate.
Qed.

(** ** The bounds builder: one boundary *)


Lemma check_upper_bounds_nonempty (u : KnotBounds) :
  s_lower_bound (check_upper_bounds u) < s_upper_bound (check_upper_bounds u) /\
  s_soft_lower_bound (check_upper_bounds u)
  < s_soft_upper_bound (check_upper_bounds u).
Proof.
  unfold check_upper_bounds, k_s_bound_error; simpl.
  destruct (Qleb (s_upper_bound u) (s_lower_bound u)) eqn:A;
    destruct (Qleb (s_soft_upper_bound u) (s_soft_lower_bound u)) eqn:B;
    repeat match goal with
           | H : Qleb _ _ = true |- _ => apply Qleb_true in H
           | H : Qleb _ _ = false |- _ => apply Qleb_false in H
           end; split; lra.
Qed.

Lemma check_lower_bounds_nonempty (u : KnotBounds) :
  s_lower_bound (check_lower_bounds u) < s_upper_bound (check_lower_bounds u) /\
  s_soft_lower_bound (check_lower_bounds u)
  < s_soft_upper_bound (check_lower_bounds u).
Proof.
  unfold check_lower_bounds, k_s_bound_error; simpl.
  destruct (Qleb (s_upper_bound u) (s_lower_bound u)) eqn:A;
    destruct (Qleb (s_soft_upper_bound u) (s_soft_lower_bound u)) eqn:B;
    repeat match goal with
           | H : Qleb _ _ = true |- _ => apply Qleb_true in H
           | H : Qleb _ _ = false |- _ => apply Qleb_false in H
           end; split; lra.
Qed.

Lemma fold_boundary_cases (flags : Flags) (curr_t : Q) (dp : SpeedPoint)
    (k : KnotBounds) (boundary : STBoundary) (drive_s_upper drive_s_lower : Q) :
  GetUnblockSRange boundary curr_t = Some (drive_s_upper, drive_s_lower) ->
  constrains (boundary_type boundary) = true ->
  fold_boundary flags curr_t dp k boundary =
  let u := case_update flags curr_t dp k boundary drive_s_upper drive_s_lower in
  match boundary_type boundary with
  | OVERTAKE => check_lower_bounds u
  | _ => check_upper_bounds u
  end.
Proof.
  intros Hrange Htype. unfold fold_boundary, case_update. rewrite Hrange.
  destruct (boundary_type boundary); try reflexivity; discriminate.
Qed.

(** Both intervals stay non-empty across any boundary, updated or skipped. *)
Lemma fold_boundary_nonempty (flags : Flags) (curr_t : Q) (dp : SpeedPoint)
    (k : KnotBounds) (boundary : STBoundary) :
  s_lower_bound k < s_upper_bound k /\
  s_soft_lower_bound k < s_soft_upper_bound k ->
  s_lower_bound (fold_boundary flags curr_t dp k boundary)
  < s_upper_bound (fold_boundary flags curr_t dp k boundary) /\
  s_soft_lower_bound (fold_boundary flags curr_t dp k boundary)
  < s_soft_upper_bound (fold_boundary flags curr_t dp k boundary).
Proof.
  intro Hk. unfold fold_boundary.
  destruct (GetUnblockSRange boundary curr_t) as [[drive_s_upper drive_s_lower] |];
    [ | exact Hk].
  destruct (boundary_type boundary); try exact Hk;
    first [apply check_upper_bounds_nonempty | apply check_lower_bounds_nonempty].
Qed.

Lemma fold_boundaries_nonempty (flags : Flags) (curr_t : Q) (dp : SpeedPoint)
    (boundaries : list STBoundary) :
  forall k,
    s_lower_bound k < s_upper_bound k /\
    s_soft_lower_bound k < s_soft_upper_bound k ->
    let k' := fold_left (fold_boundary flags curr_t dp) boundaries k in
    s_lower_bound k' < s_upper_bound k' /\
    s_soft_lower_bound k' < s_soft_upper_bound k'.
Proof.
  induction boundaries as [| b rest IH]; intros k Hk; simpl; [exact Hk | ].
  apply IH. apply fold_boundary_nonempty. exact Hk.
Qed.

(** C4.  After the update for a STOP, YIELD, FOLLOW or OVERTAKE boundary
    whose range is supported at the knot, the hard and the soft interval are
    both non-empty: where the assignments of the case leave upper <= lower,
    STOP / YIELD / FOLLOW reset the upper bound to lower + 0.1 and OVERTAKE
    resets the lower bound to upper - 0.1; otherwise the assigned bounds
    stand.  On a path of positive length both intervals are therefore
    non-empty after every boundary of the knot, skipped ones included. *)
Theorem boundary_update_keeps_intervals_nonempty
    (flags : Flags) (curr_t : Q) (dp : SpeedPoint) (k : KnotBounds)
    (boundary : STBoundary) (drive_s_upper drive_s_lower : Q) :
  GetUnblockSRange boundary curr_t = Some (drive_s_upper, drive_s_lower) ->
  constrains (boundary_type boundary) = true ->
  let u := case_update flags curr_t dp k boundary drive_s_upper drive_s_lower in
  let k' := fold_boundary flags curr_t dp k boundary in
  (s_lower_bound k' < s_upper_bound k' /\
   s_soft_lower_bound k' < s_soft_upper_bound k') /\
  (boundary_type boundary <> OVERTAKE ->
   s_lower_bound k' = s_lower_bound u /\
   s_soft_lower_bound k' = s_soft_lower_bound u /\
   s_upper_bound k' =
     (if Qleb (s_upper_bound u) (s_lower_bound u)
      then s_lower_bound u + (1 # 10) else s_upper_bound u) /\
   s_soft_upper_bound k' =
     (if Qleb (s_soft_upper_bound u) (s_soft_lower_bound u)
      then s_soft_lower_bound u + (1 # 10) else s_soft_upper_bound u)) /\
  (boundary_type boundary = OVERTAKE ->
   s_upper_bound k' = s_upper_bound u /\
   s_soft_upper_bound k' = s_soft_upper_bound u /\
   s_lower_bound k' =
     (if Qleb (s_upper_bound u) (s_lower_bound u)
      then s_upper_bound u - (1 # 10) else s_lower_bound u) /\
   s_soft_lower_bound k' =
     (if Qleb (s_soft_upper_bound u) (s_soft_lower_bound u)
      then s_soft_upper_bound u - (1 # 10) else s_soft_lower_bound u)) /\
  (forall total_length processed,
     0 < total_length ->
     let after := fold_left (fold_boundary flags curr_t dp) processed
                            (mkKnotBounds 0 total_length 0 total_length) in
     s_lower_bound after < s_upper_bound after /\
     s_soft_lower_bound after < s_soft_upper_bound after).
Proof.
  intros Hrange Htype u k'.
  assert (Hall : forall total_length processed,
             0 < total_length ->
             let after := fold_left (fold_boundary flags curr_t dp) processed
                                    (mkKnotBounds 0 total_length 0 total_length) in
             s_lower_bound after < s_upper_bound after /\
             s_soft_lower_bound after < s_soft_upper_bound after).
  { intros total_length processed Hpos.
    apply fold_boundaries_nonempty. simpl. split; exact Hpos. }
  assert (Hk' : k' = match boundary_type boundary with
                     | OVERTAKE => check_lower_bounds u
                     | _ => check_upper_bounds u
                     end).
  { subst k' u. apply fold_boundary_cases; assumption. }
  pose proof (check_upper_bounds_nonempty u) as Hup.
  pose proof (check_lower_bounds_nonempty u) as Hlo.
  rewrite Hk'.
  destruct (boundary_type boundary) eqn:T; try discriminate;
    (split; [assumption | split; [ | split; [ | exact Hall]]];
     intro H; try congruence; try discriminate);
    unfold check_upper_bounds, check_lower_bounds, k_s_bound_error; simpl;
    repeat split; reflexivity.
Qed.

Lemma boundary_update_keeps_intervals_nonempty_witness :
  GetUnblockSRange close_follow_boundary 0 = Some (3, 0) /\
  constrains (boundary_type close_follow_boundary) = true /\
  fold_boundary sample_flags 0 (mkSpeedPoint 0 0 5 0 0)
                (mkKnotBounds 0 100 0 100) close_follow_boundary
  = mkKnotBounds 0 (0 + (1 # 10)) 0 (0 + (1 # 10)).
Proof.
  split; [reflexivity | split; [reflexivity | ]].
  pose proof (boundary_update_keeps_intervals_nonempty
                sample_flags 0 (mkSpeedPoint 0 0 5 0 0) (mkKnotBounds 0 100 0 100)
                close_follow_boundary 3 0 eq_refl eq_refl)
    as (_ & Hshape & _).
  destruct (Hshape ltac:(discriminate)) as (H1 & H2 & H3 & H4).
  destruct (fold_boundary sample_flags 0 (mkSpeedPoint 0 0 5 0 0)
              (mkKnotBounds 0 100 0 100) close_follow_boundary) as [a b c d].
  simpl in H1, H2, H3, H4. subst a b c d. reflexivity.
Defined.



(** ** The bounds builder: the loop over the knots *)

(** A loop that ends with OK has appended the bounds of [n] knots. *)
Lemma soft_bounds_loop_ok (ext : Collaborators) (flags : Flags)
    (rli : ReferenceLineInfo) (rough : SpeedData) (delta_t total_length : Q)
    (n : nat) :
  forall i s_bounds s_soft_bounds status b sb,
    soft_bounds_loop ext flags rli rough delta_t total_length
                     n i s_bounds s_soft_bounds = (status, b, sb) ->
    ok status = true ->
    exists ks,
      map (@inr Status KnotBounds) ks
      = map (soft_knot ext flags rli rough delta_t total_length) (seq i n) /\
      b = s_bounds ++ map (fun k => (s_lower_bound k, s_upper_bound k)) ks /\
      sb = s_soft_bounds
           ++ map (fun k => (s_soft_lower_bound k, s_soft_upper_bound k)) ks.
Proof.
  induction n as [| n IH]; intros i s_bounds s_soft_bounds status b sb Hloop Hok.
  - simpl in Hloop. injection Hloop as <- <- <-.
    exists []. simpl. rewrite !app_nil_r. repeat split.
  - simpl in Hloop.
    destruct (soft_knot ext flags rli rough delta_t total_length i) as [e | k] eqn:K.
    + injection Hloop as <- <- <-.
      unfold soft_knot in K.
      destruct (if negb (is_st_boundaries_empty (mutable_st_graph_data rli))
                then EvaluateByTime ext rough (knot_time delta_t i)
                else Some (mkSpeedPoint 0 0 0 0 0)) as [dp |].
      * match type of K with
        | (if ?c then _ else _) = _ => destruct c
        end; [injection K as <-; discriminate | discriminate].
      * injection K as <-. discriminate.
    + destruct (IH _ _ _ _ _ _ Hloop Hok) as (ks & Hks & Hb & Hsb).
      exists (k :: ks). simpl. rewrite K, Hks.
      rewrite Hb, Hsb, <- !app_assoc. repeat split.
Qed.

(** Whatever status the loop ends with is OK or the error of one knot. *)
Lemma soft_bounds_loop_status (ext : Collaborators) (flags : Flags)
    (rli : ReferenceLineInfo) (rough : SpeedData) (delta_t total_length : Q)
    (n : nat) :
  forall i s_bounds s_soft_bounds,
    let status :=
      fst (fst (soft_bounds_loop ext flags rli rough delta_t total_length
                                 n i s_bounds s_soft_bounds)) in
    status = Status_OK \/
    exists j, soft_knot ext flags rli rough delta_t total_length j = inl status.
Proof.
  induction n as [| n IH]; intros i s_bounds s_soft_bounds; simpl.
  - left; reflexivity.
  - destruct (soft_knot ext flags rli rough delta_t total_length i) as [e | k] eqn:K.
    + right. exists i. exact K.
    + apply IH.
Qed.

Lemma raise_to_dynamic_constraints_lower (ebk : option SpeedPoint) (k : KnotBounds) :
  s_lower_bound (raise_to_dynamic_constraints ebk k) = s_lower_bound k /\
  s_upper_bound k <= s_upper_bound (raise_to_dynamic_constraints ebk k).
Proof.
  destruct ebk as [p |]; simpl; split; try reflexivity; try lra.
  apply Q.le_max_l.
Qed.

(** The members [SetUpStatesAndBounds] computes when the soft bounds are
    on. *)
Lemma SetUpStatesAndBounds_soft
    (ext : Collaborators) (flags : Flags) (veh : VehicleParam)
    (rli : ReferenceLineInfo) (this : Members) (path_data : PathData)
    (rough : SpeedData) :
  FLAGS_use_soft_bound_in_nonlinear_speed_opt flags = true ->
  let g := mutable_st_graph_data rli in
  let n := (static_cast_int (total_time_by_conf g / (1 # 10)) + 1)%Z in
  let r := soft_bounds_loop ext flags rli rough (1 # 10) (path_length g)
                            (Z.to_nat n) 0 [] [] in
  let out := SetUpStatesAndBounds ext flags veh rli this path_data rough in
  fst out = fst (fst r) /\
  s_bounds_ (snd out) = snd (fst r) /\
  s_soft_bounds_ (snd out) = snd r /\
  delta_t_ (snd out) = 1 # 10 /\
  num_of_knots_ (snd out) = n /\
  total_length_ (snd out) = path_length g.
Proof.
  intros Hflag g n r out. subst out. unfold SetUpStatesAndBounds.
  rewrite Hflag. fold g. fold n. fold r.
  destruct r as [[status b] sb]. simpl. repeat split.
Qed.

(** C3.  With soft bounds on, at every knot of a successful set-up where ST
    boundaries exist and the emergency-brake profile can be evaluated at the
    knot's time, the stored hard upper bound is at least the emergency-brake
    station plus 0.2. *)
Theorem stored_upper_bound_clears_emergency_brake
    (ext : Collaborators) (flags : Flags) (veh : VehicleParam)
    (rli : ReferenceLineInfo) (this : Members) (path_data : PathData)
    (rough : SpeedData) (status : Status) (this1 : Members)
    (i : nat) (ebk_point : SpeedPoint) :
  FLAGS_use_soft_bound_in_nonlinear_speed_opt flags = true ->
  SetUpStatesAndBounds ext flags veh rli this path_data rough = (status, this1) ->
  ok status = true ->
  is_st_boundaries_empty (mutable_st_graph_data rli) = false ->
  (i < Z.to_nat (num_of_knots_ this1))%nat ->
  EvaluateByTime ext (emergency_brake_speed_data rli)
                 (knot_time (delta_t_ this1) i) = Some ebk_point ->
  exists s_low s_high,
    nth_error (s_bounds_ this1) i = Some (s_low, s_high) /\
    sp_s ebk_point + (2 # 10) <= s_high.
Proof.
  intros Hflag Hset Hok Hne Hi Hebk.
  pose proof (SetUpStatesAndBounds_soft ext flags veh rli this path_data rough Hflag)
    as (Hst & Hb & _ & Hdt & Hn & _).
  rewrite Hset in Hst, Hb, Hdt, Hn. simpl in Hst, Hb, Hdt, Hn.
  rewrite Hdt in Hebk. rewrite Hn in Hi.
  set (g := mutable_st_graph_data rli) in *.
  set (n := Z.to_nat (static_cast_int (total_time_by_conf g / (1 # 10)) + 1)) in *.
  destruct (soft_bounds_loop ext flags rli rough (1 # 10) (path_length g) n 0 [] [])
    as [[st b] sb] eqn:L.
  simpl in Hst, Hb. subst st b.
  destruct (soft_bounds_loop_ok ext flags rli rough (1 # 10) (path_length g)
              n 0 [] [] status (s_bounds_ this1) sb L Hok)
    as (ks & Hks & Hb & _).
  simpl in Hb.
  assert (Hlen : length ks = n).
  { apply (f_equal (@length _)) in Hks. rewrite !length_map, length_seq in Hks.
    exact Hks. }
  destruct (nth_error ks i) as [k |] eqn:Ek.
  2:{ apply nth_error_None in Ek. lia. }
  assert (Hk : soft_knot ext flags rli rough (1 # 10) (path_length g) i = inr k).
  { apply (f_equal (fun l => nth_error l i)) in Hks.
    rewrite !nth_error_map, Ek in Hks.
    rewrite (nth_error_nth' (seq 0 n) 0%nat) in Hks by (rewrite length_seq; lia).
    rewrite seq_nth in Hks by lia. simpl in Hks. congruence. }
  exists (s_lower_bound k), (s_upper_bound k). split.
  - rewrite Hb, nth_error_map, Ek. reflexivity.
  - unfold soft_knot in Hk. fold g in Hk. rewrite Hne in Hk. simpl negb in Hk.
    cbv iota in Hk.
    destruct (EvaluateByTime ext rough (knot_time (1 # 10) i)) as [dp |];
      [ | discriminate].
    unfold dynamic_constraints_lower in Hk. fold g in Hk.
    rewrite Hne in Hk. simpl negb in Hk. cbv iota in Hk. rewrite Hebk in Hk.
    match type of Hk with
    | (if ?c then _ else _) = _ => destruct c
    end; [discriminate | ].
    injection Hk as <-. simpl. apply Q.le_max_r.
Qed.

Lemma stored_upper_bound_clears_emergency_brake_witness :
  exists s_low s_high,
    nth_error
      (s_bounds_
         (snd (SetUpStatesAndBounds
                 (sample_ext (Some cruise_solution) Solve_Succeeded)
                 sample_flags sample_vehicle
                 (sample_reference_line false 5 [follow_boundary])
                 constructed sample_path rough_profile))) 1
    = Some (s_low, s_high) /\
    13 + (2 # 10) <= s_high.
Proof.
  apply (stored_upper_bound_clears_emergency_brake
           (sample_ext (Some cruise_solution) Solve_Succeeded)
           sample_flags sample_vehicle
           (sample_reference_line false 5 [follow_boundary])
           constructed sample_path rough_profile
           _ _ 1%nat (mkSpeedPoint 13 (2 # 10) 4 0 0)
           eq_refl (surjective_pairing _)).
  - vm_compute. reflexivity.
  - reflexivity.
  - vm_compute. lia.
  - vm_compute. reflexivity.
Defined.

(** One boundary never turns an ordered hard interval into an empty one. *)
Lemma fold_boundary_ordered (flags : Flags) (curr_t : Q) (dp : SpeedPoint)
    (k : KnotBounds) (boundary : STBoundary) :
  s_lower_bound k <= s_upper_bound k ->
  s_lower_bound (fold_boundary flags curr_t dp k boundary)
  <= s_upper_bound (fold_boundary flags curr_t dp k boundary).
Proof.
  intro Hk. unfold fold_boundary.
  destruct (GetUnblockSRange boundary curr_t) as [[drive_s_upper drive_s_lower] |];
    [ | exact Hk].
  destruct (boundary_type boundary); try exact Hk;
    match goal with
    | |- context [check_upper_bounds ?u] =>
        pose proof (check_upper_bounds_nonempty u) as [H _]; lra
    | |- context [check_lower_bounds ?u] =>
        pose proof (check_lower_bounds_nonempty u) as [H _]; lra
    end.
Qed.

Lemma fold_boundaries_ordered (flags : Flags) (curr_t : Q) (dp : SpeedPoint)
    (boundaries : list STBoundary) :
  forall k, s_lower_bound k <= s_upper_bound k ->
    s_lower_bound (fold_left (fold_boundary flags curr_t dp) boundaries k)
    <= s_upper_bound (fold_left (fold_boundary flags curr_t dp) boundaries k).
Proof.
  induction boundaries as [| b rest IH]; intros k Hk; simpl; [exact Hk | ].
  apply IH. apply fold_boundary_ordered. exact Hk.
Qed.

(** With a non-negative total length, the only error a knot can raise is the
    failed look-up of the rough speed profile. *)
Lemma soft_knot_error (ext : Collaborators) (flags : Flags)
    (rli : ReferenceLineInfo) (rough : SpeedData) (delta_t total_length : Q)
    (i : nat) (status : Status) :
  0 <= total_length ->
  soft_knot ext flags rli rough delta_t total_length i = inl status ->
  status = mkStatus PLANNING_ERROR msg_rough_speed_profile.
Proof.
  intros Hlen Hk. unfold soft_knot in Hk.
  destruct (if negb (is_st_boundaries_empty (mutable_st_graph_data rli))
            then EvaluateByTime ext rough (knot_time delta_t i)
            else Some (mkSpeedPoint 0 0 0 0 0)) as [dp |];
    [ | injection Hk as <-; reflexivity].
  set (k := fold_boundaries flags rli (knot_time delta_t i) total_length dp) in Hk.
  assert (Hord : s_lower_bound k <= s_upper_bound k).
  { subst k. unfold fold_boundaries. apply fold_boundaries_ordered. simpl. exact Hlen. }
  pose proof (raise_to_dynamic_constraints_lower
                (dynamic_constraints_lower ext rli (knot_time delta_t i)) k)
    as [Hl Hu].
  match type of Hk with
  | (if Qltb ?a ?b then _ else _) = _ => destruct (Qltb a b) eqn:C
  end; [ | discriminate].
  apply Qltb_true in C. rewrite Hl in C. lra.
Qed.

(** C8.  With soft bounds on and [total_length >= 0], the check
    [s_lower_bound > s_upper_bound] fails at no knot: the set-up returns OK
    or the error of the rough-speed look-up, never the bounds error.  The
    branch without soft bounds has no such protection: a stop fence at 30 m
    with an overtaken vehicle at 50 m makes it return the bounds error. *)
Theorem soft_bounds_check_never_fires
    (ext : Collaborators) (flags : Flags) (veh : VehicleParam)
    (rli : ReferenceLineInfo) (this : Members) (path_data : PathData)
    (rough : SpeedData) :
  FLAGS_use_soft_bound_in_nonlinear_speed_opt flags = true ->
  0 <= path_length (mutable_st_graph_data rli) ->
  let status :=
    fst (SetUpStatesAndBounds ext flags veh rli this path_data rough) in
  (forall i,
     soft_knot ext flags rli rough (1 # 10)
               (path_length (mutable_st_graph_data rli)) i
     <> inl (mkStatus PLANNING_ERROR msg_bounds)) /\
  (status = Status_OK \/
   status = mkStatus PLANNING_ERROR msg_rough_speed_profile) /\
  status <> mkStatus PLANNING_ERROR msg_bounds /\
  (0 <= path_length (mutable_st_graph_data
                       (sample_reference_line false 5 crossing_boundaries)) /\
   fst (SetUpStatesAndBounds ext hard_only_flags veh
          (sample_reference_line false 5 crossing_boundaries)
          this path_data rough)
   = mkStatus PLANNING_ERROR msg_bounds).
Proof.
  intros Hflag Hlen status.
  assert (Hknot : forall i st,
             soft_knot ext flags rli rough (1 # 10)
                       (path_length (mutable_st_graph_data rli)) i = inl st ->
             st = mkStatus PLANNING_ERROR msg_rough_speed_profile).
  { intros i st. apply soft_knot_error. exact Hlen. }
  assert (Hstatus : status = Status_OK \/
                    status = mkStatus PLANNING_ERROR msg_rough_speed_profile).
  { pose proof (SetUpStatesAndBounds_soft ext flags veh rli this path_data rough Hflag)
      as (Hst & _).
    subst status. rewrite Hst.
    match goal with
    | |- context [soft_bounds_loop ?e ?f ?r ?s ?d ?t ?n ?i ?a ?b] =>
        destruct (soft_bounds_loop_status e f r s d t n i a b) as [H | [j H]]
    end; [left; exact H | right; exact (Hknot _ _ H)]. }
  split; [ | split; [exact Hstatus | split]].
  - intros i H. apply Hknot in H. discriminate.
  - destruct Hstatus as [-> | ->]; discriminate.
  - split; [simpl; lra | reflexivity].
Qed.

Lemma soft_bounds_check_never_fires_witness :
  fst (SetUpStatesAndBounds (sample_ext (Some cruise_solution) Solve_Succeeded)
         sample_flags sample_vehicle
         (sample_reference_line false 5 crossing_boundaries)
         constructed sample_path rough_profile)
  <> mkStatus PLANNING_ERROR msg_bounds.
Proof.
  assert (Hlen : 0 <= path_length (mutable_st_graph_data
                        (sample_reference_line false 5 crossing_boundaries)))
    by (simpl; lra).
  exact (proj1 (proj2 (proj2
           (soft_bounds_check_never_fires
              (sample_ext (Some cruise_solution) Solve_Succeeded)
              sample_flags sample_vehicle
              (sample_reference_line false 5 crossing_boundaries)
              constructed sample_path rough_profile eq_refl Hlen)))).
Defined.

(** ** The solver stages *)

(** The sampling loop of [SmoothPathCurvature] stops by its own condition:
    the iteration count it is given is enough, more changes nothing. *)
Lemma sample_path_curvature_fuel (ext : Collaborators) (path : DiscretizedPath)
    (limit delta_s : Q) :
  0 < delta_s ->
  forall fuel extra path_s path_curvature,
    limit - path_s <= inject_Z (Z.of_nat fuel) * delta_s ->
    sample_path_curvature ext (fuel + extra) path path_s limit delta_s
                          path_curvature
    = sample_path_curvature ext fuel path path_s limit delta_s path_curvature.
Proof.
  intros Hd. induction fuel as [| fuel IH]; intros extra path_s acc H.
  - change (inject_Z (Z.of_nat 0)) with 0 in H.
    assert (Hle : limit <= path_s) by lra.
    apply Qltb_false in Hle.
    destruct extra; simpl; [reflexivity | rewrite Hle; reflexivity].
  - simpl. destruct (Qltb path_s limit); [ | reflexivity].
    apply IH.
    rewrite Nat2Z.inj_succ in H. unfold Z.succ in H.
    rewrite inject_Z_plus in H. change (inject_Z 1) with 1 in H.
    set (k := inject_Z (Z.of_nat fuel)) in *.
    assert (E : (k + 1) * delta_s == k * delta_s + delta_s) by ring.
    rewrite E in H. lra.
Qed.

Lemma sample_count_suffices (start limit delta_s : Q) :
  0 < delta_s ->
  limit - start <= inject_Z (Z.of_nat (sample_count start limit delta_s)) * delta_s.
Proof.
  intro Hd. unfold sample_count.
  set (q := (limit - start) / delta_s).
  assert (Hq : limit - start == q * delta_s)
    by (subst q; field; intro K; rewrite K in Hd; lra).
  pose proof (Qle_ceiling q) as Hc.
  assert (Hz : inject_Z (Qceiling q) <= inject_Z (Z.of_nat (Z.to_nat (Qceiling q)))).
  { rewrite <- Zle_Qle. lia. }
  rewrite Hq. apply Qmult_le_compat_r; lra.
Qed.

Lemma SmoothPathCurvature_members (ext : Collaborators) (this : Members)
    (path_data : PathData) :
  num_of_knots_ (snd (SmoothPathCurvature ext this path_data)) = num_of_knots_ this /\
  delta_t_ (snd (SmoothPathCurvature ext this path_data)) = delta_t_ this.
Proof.
  unfold SmoothPathCurvature.
  destruct (discretized_path path_data) as [| p rest]; [split; reflexivity | ].
  match goal with
  | |- context [Optimize ext ?p ?n] => destruct (Optimize ext p n)
  end; split; reflexivity.
Qed.

Lemma SmoothSpeedLimit_members (ext : Collaborators) (this : Members) :
  num_of_knots_ (snd (SmoothSpeedLimit ext this)) = num_of_knots_ this /\
  delta_t_ (snd (SmoothSpeedLimit ext this)) = delta_t_ this.
Proof.
  unfold SmoothSpeedLimit.
  match goal with
  | |- context [Optimize ext ?p ?n] => destruct (Optimize ext p n)
  end; split; reflexivity.
Qed.

(** A failing [OptimizeByNLP] leaves the three arrays as it found them. *)
Lemma OptimizeByNLP_failure (ext : Collaborators) (flags : Flags)
    (config : Config) (this : Members) (distance velocity acceleration : list Q) :
  ok (fst (OptimizeByNLP ext flags config this distance velocity acceleration)) = false ->
  snd (OptimizeByNLP ext flags config this distance velocity acceleration)
  = (distance, velocity, acceleration).
Proof.
  unfold OptimizeByNLP.
  destruct (use_warm_start config && warm_start_invalid distance velocity acceleration);
    [reflexivity | ].
  destruct (Initialize ext); try reflexivity.
  match goal with
  | |- context [OptimizeTNLP ext ?i] => destruct (OptimizeTNLP ext i)
  end; simpl; intro H; try discriminate; reflexivity.
Qed.

Lemma optimize_speed_by_nlp_interface_members (ext : Collaborators)
    (flags : Flags) (config : Config) (this : Members) (path_data : PathData)
    (rough : SpeedData) (distance velocity acceleration : list Q) :
  let r := optimize_speed_by_nlp_interface ext flags config this path_data rough
             distance velocity acceleration in
  num_of_knots_ (fst (fst r)) = num_of_knots_ this /\
  delta_t_ (fst (fst r)) = delta_t_ this.
Proof.
  unfold optimize_speed_by_nlp_interface.
  destruct (CheckSpeedLimitFeasibility ext this); [ | split; reflexivity].
  pose proof (SmoothPathCurvature_members ext this path_data) as [Hn1 Hd1].
  destruct (SmoothPathCurvature ext this path_data) as [st1 this1].
  simpl in Hn1, Hd1.
  destruct (negb (ok st1)); [simpl; split; assumption | ].
  pose proof (SmoothSpeedLimit_members ext this1) as [Hn2 Hd2].
  destruct (SmoothSpeedLimit ext this1) as [st2 this2].
  simpl in Hn2, Hd2.
  destruct (negb (ok st2)); [simpl; split; congruence | ].
  destruct (OptimizeByNLP ext flags config this2 distance velocity acceleration)
    as [st3 arrays].
  destruct (negb (ok st3)); simpl; split; congruence.
Qed.

(** The arrays survive the refinement stage whenever one of its steps
    fails. *)
Lemma optimize_speed_by_nlp_interface_keeps (ext : Collaborators)
    (flags : Flags) (config : Config) (this : Members) (path_data : PathData)
    (rough : SpeedData) (distance velocity acceleration : list Q) :
  let after_curvature := snd (SmoothPathCurvature ext this path_data) in
  let after_speed_limit := snd (SmoothSpeedLimit ext after_curvature) in
  CheckSpeedLimitFeasibility ext this = false \/
  ok (fst (SmoothPathCurvature ext this path_data)) = false \/
  ok (fst (SmoothSpeedLimit ext after_curvature)) = false \/
  ok (fst (OptimizeByNLP ext flags config after_speed_limit
                         distance velocity acceleration)) = false ->
  snd (optimize_speed_by_nlp_interface ext flags config this path_data rough
         distance velocity acceleration)
  = (distance, velocity, acceleration).
Proof.
  intros after_curvature after_speed_limit H.
  subst after_curvature after_speed_limit.
  unfold optimize_speed_by_nlp_interface.
  destruct (CheckSpeedLimitFeasibility ext this); [ | reflexivity].
  destruct (SmoothPathCurvature ext this path_data) as [st1 this1].
  simpl in H.
  destruct (ok st1) eqn:E1; [ | reflexivity]. simpl negb. cbv iota.
  destruct (SmoothSpeedLimit ext this1) as [st2 this2].
  simpl in H.
  destruct (ok st2) eqn:E2; [ | reflexivity]. simpl negb. cbv iota.
  pose proof (OptimizeByNLP_failure ext flags config this2
                distance velocity acceleration) as Hnlp.
  destruct (OptimizeByNLP ext flags config this2 distance velocity acceleration)
    as [st3 arrays].
  simpl in H, Hnlp.
  destruct H as [H | [H | [H | H]]]; try discriminate.
  rewrite H. simpl. apply Hnlp. exact H.
Qed.

(** ** Process *)

(** A run of [Process] on a non-null output and a non-empty path, before
    the destination is reached. *)
Lemma Process_run (ext : Collaborators) (flags : Flags) (config : Config)
    (veh : VehicleParam) (rli : ReferenceLineInfo) (this : Members)
    (path_data : PathData) (init_point : TrajectoryPoint) (rough : SpeedData) :
  empty (discretized_path path_data) = false ->
  ReachedDestination rli = false ->
  let setup := fst (SetUpStatesAndBounds ext flags veh rli this path_data rough) in
  let this1 := members_after_setup ext flags veh rli this path_data rough in
  let qp := fst (qp_outcome ext flags config veh rli this path_data rough) in
  let result := Process ext flags config veh rli this path_data init_point
                        (Some rough) in
  result_status result =
    (if negb (ok setup) then setup
     else if negb (ok qp) then qp else Status_OK) /\
  result_speed_data result =
    Some (if negb (ok setup) || negb (ok qp) then clear
          else FillEnoughSpeedPoints ext
                 (emit_speed_data (num_of_knots_ this1) (delta_t_ this1)
                    (optimized_arrays ext flags config veh rli this path_data
                                      rough))).
Proof.
  intros Hpath Hreach.
  unfold Process, optimized_arrays, qp_outcome, members_after_setup.
  rewrite Hpath, Hreach.
  destruct (SetUpStatesAndBounds ext flags veh rli this path_data rough)
    as [st this1].
  simpl fst; simpl snd.
  destruct (negb (ok st)); [split; reflexivity | ].
  destruct (OptimizeByQP ext config this1 rough [] [] []
              (new_problem (num_of_knots_ this1) (delta_t_ this1)
                 (s_init_ this1, s_dot_init_ this1, s_ddot_init_ this1)))
    as [qst [[distance velocity] acceleration]].
  simpl fst; simpl snd.
  destruct (negb (ok qst)); [split; reflexivity | ].
  pose proof (optimize_speed_by_nlp_interface_members ext flags config this1
                path_data rough distance velocity acceleration) as [Hn Hd].
  destruct (optimize_speed_by_nlp_interface ext flags config this1 path_data
              rough distance velocity acceleration) as [[this2 sd] arrays].
  simpl in Hn, Hd. simpl. rewrite Hn, Hd. split; reflexivity.
Qed.

(** The loop that closes [Process], in closed form. *)
Lemma append_optimized_points_spec (delta_t : Q)
    (distance velocity acceleration : list Q) (n : nat) :
  forall i speed_data,
    append_optimized_points n i delta_t distance velocity acceleration speed_data
    = speed_data
      ++ map (optimized_point delta_t (distance, velocity, acceleration))
             (take_while (fun j => negb (Qltb (at_index velocity j) 0))
                         (seq i n)).
Proof.
  induction n as [| n IH]; intros i speed_data; simpl.
  - rewrite app_nil_r. reflexivity.
  - destruct (Qltb (at_index velocity i) 0); simpl.
    + rewrite app_nil_r. reflexivity.
    + rewrite IH. unfold AppendSpeedPoint. rewrite <- app_assoc. reflexivity.
Qed.

(** The loop of [Process] emits what the specification describes. *)
Lemma emit_speed_data_by_spec (num_of_knots : Z) (delta_t : Q) (arrays : Solution) :
  emit_speed_data num_of_knots delta_t arrays
  = emission_by_spec num_of_knots delta_t arrays.
Proof.
  destruct arrays as [[distance velocity] acceleration].
  unfold emit_speed_data, emission_by_spec.
  rewrite append_optimized_points_spec. reflexivity.
Qed.

(** C1.  When the speed QP has succeeded and the refinement stage does not
    deliver (the speed-limit check fails, the curvature or the speed-limit
    smoothing fails, or the NLP solve fails), [Process] returns OK and the
    profile it emits is built from the three arrays of the QP: the output is
    the tail-padded sequence of the point (distance[0], 0, velocity[0],
    acceleration[0], 0) and of the points of the knots 1 .. N-1, read from
    the same three arrays, up to the first negative velocity. *)
Theorem Process_retains_QP_result
    (ext : Collaborators) (flags : Flags) (config : Config)
    (veh : VehicleParam) (rli : ReferenceLineInfo) (this : Members)
    (path_data : PathData) (init_point : TrajectoryPoint) (rough : SpeedData)
    (setup_status qp_status : Status) (this1 : Members)
    (distance velocity acceleration : list Q) :
  empty (discretized_path path_data) = false ->
  ReachedDestination rli = false ->
  SetUpStatesAndBounds ext flags veh rli this path_data rough
  = (setup_status, this1) ->
  ok setup_status = true ->
  OptimizeByQP ext config this1 rough [] [] []
    (new_problem (num_of_knots_ this1) (delta_t_ this1)
                 (s_init_ this1, s_dot_init_ this1, s_ddot_init_ this1))
  = (qp_status, (distance, velocity, acceleration)) ->
  ok qp_status = true ->
  let after_curvature := snd (SmoothPathCurvature ext this1 path_data) in
  let after_speed_limit := snd (SmoothSpeedLimit ext after_curvature) in
  CheckSpeedLimitFeasibility ext this1 = false \/
  ok (fst (SmoothPathCurvature ext this1 path_data)) = false \/
  ok (fst (SmoothSpeedLimit ext after_curvature)) = false \/
  ok (fst (OptimizeByNLP ext flags config after_speed_limit
                         distance velocity acceleration)) = false ->
  let result := Process ext flags config veh rli this path_data init_point
                        (Some rough) in
  result_status result = Status_OK /\
  result_speed_data result =
    Some (FillEnoughSpeedPoints ext
            (mkSpeedPoint (at_index distance 0) 0 (at_index velocity 0)
                          (at_index acceleration 0) 0
             :: map (optimized_point (delta_t_ this1)
                                     (distance, velocity, acceleration))
                    (take_while (fun i => negb (Qltb (at_index velocity i) 0))
                                (seq 1 (Z.to_nat (num_of_knots_ this1 - 1)))))).
Proof.
  intros Hpath Hreach Hsetup Hok Hqp Hqok after_curvature after_speed_limit Hfail
         result.
  pose proof (Process_run ext flags config veh rli this path_data init_point
                rough Hpath Hreach) as [Hst Hsd].
  fold result in Hst, Hsd.
  unfold optimized_arrays, qp_outcome, members_after_setup in Hst, Hsd.
  rewrite Hsetup in Hst, Hsd. simpl fst in Hst, Hsd. simpl snd in Hst, Hsd.
  rewrite Hqp in Hst, Hsd. simpl fst in Hst, Hsd. simpl snd in Hst, Hsd.
  rewrite Hok, Hqok in Hst, Hsd. simpl in Hst, Hsd.
  rewrite (optimize_speed_by_nlp_interface_keeps ext flags config this1
             path_data rough distance velocity acceleration Hfail) in Hsd.
  rewrite emit_speed_data_by_spec in Hsd.
  split; [exact Hst | exact Hsd].
Qed.

Lemma Process_retains_QP_result_witness :
  let result := Process ext_nlp_fails sample_flags sample_config sample_vehicle
                        following_line constructed sample_path
                        (mkTrajectoryPoint 5 0) (Some rough_profile) in
  result_status result = Status_OK /\
  result_speed_data result =
    Some [mkSpeedPoint 0 0 5 0 0;
          mkSpeedPoint (1 # 2) ((1 # 10) * 1) 5 0 ((0 - 0) / (1 # 10));
          mkSpeedPoint 1 ((1 # 10) * 2) 5 0 ((0 - 0) / (1 # 10))].
Proof.
  pose (setup := SetUpStatesAndBounds ext_nlp_fails sample_flags sample_vehicle
                   following_line constructed sample_path rough_profile).
  assert (Hfail :
            CheckSpeedLimitFeasibility ext_nlp_fails (snd setup) = false \/
            ok (fst (SmoothPathCurvature ext_nlp_fails (snd setup) sample_path))
            = false \/
            ok (fst (SmoothSpeedLimit ext_nlp_fails
                       (snd (SmoothPathCurvature ext_nlp_fails (snd setup)
                                                 sample_path)))) = false \/
            ok (fst (OptimizeByNLP ext_nlp_fails sample_flags sample_config
                       (snd (SmoothSpeedLimit ext_nlp_fails
                               (snd (SmoothPathCurvature ext_nlp_fails
                                       (snd setup) sample_path))))
                       [0; 1 # 2; 1] [5; 5; 5] [0; 0; 0])) = false).
  { right; right; right. vm_compute. reflexivity. }
  exact (Process_retains_QP_result
           ext_nlp_fails sample_flags sample_config sample_vehicle
           following_line constructed sample_path (mkTrajectoryPoint 5 0)
           rough_profile (fst setup) Status_OK (snd setup)
           [0; 1 # 2; 1] [5; 5; 5] [0; 0; 0]
           eq_refl eq_refl (surjective_pairing setup) eq_refl eq_refl eq_refl
           Hfail).
Defined.

(** C5 (as amended).  On a non-null output and a non-empty path, every
    failure status of [Process] (bounds set-up or QP) comes with a cleared
    output; the failure for an empty path is returned before the output is
    touched and leaves the incoming points in place. *)
Theorem Process_failure_clears_after_validation
    (ext : Collaborators) (flags : Flags) (config : Config)
    (veh : VehicleParam) (rli : ReferenceLineInfo) (this : Members)
    (path_data : PathData) (init_point : TrajectoryPoint) (rough : SpeedData) :
  let result := Process ext flags config veh rli this path_data init_point
                        (Some rough) in
  ok (result_status result) = false ->
  (empty (discretized_path path_data) = false ->
   result_speed_data result = Some clear) /\
  (empty (discretized_path path_data) = true ->
   result_status result = mkStatus PLANNING_ERROR msg_empty_path /\
   result_speed_data result = Some rough).
Proof.
  intros result Hfail. split; intro Hpath.
  - destruct (ReachedDestination rli) eqn:Hreach.
    + subst result. unfold Process in Hfail. rewrite Hpath, Hreach in Hfail.
      discriminate.
    + pose proof (Process_run ext flags config veh rli this path_data init_point
                    rough Hpath Hreach) as [Hst Hsd].
      fold result in Hst, Hsd. rewrite Hsd. rewrite Hst in Hfail.
      destruct (ok (fst (SetUpStatesAndBounds ext flags veh rli this path_data
                           rough))); [ | reflexivity].
      destruct (ok (fst (qp_outcome ext flags config veh rli this path_data
                           rough))); [ | reflexivity].
      discriminate.
  - subst result. unfold Process. rewrite Hpath. split; reflexivity.
Qed.

Lemma Process_failure_clears_after_validation_witness :
  let result := Process ext_qp_fails sample_flags sample_config sample_vehicle
                        following_line constructed sample_path
                        (mkTrajectoryPoint 5 0) (Some rough_profile) in
  ok (result_status result) = false /\
  empty (discretized_path sample_path) = false /\
  result_speed_data result = Some clear.
Proof.
  assert (Hfail : ok (result_status
                        (Process ext_qp_fails sample_flags sample_config
                           sample_vehicle following_line constructed sample_path
                           (mkTrajectoryPoint 5 0) (Some rough_profile))) = false)
    by (vm_compute; reflexivity).
  split; [exact Hfail | split; [reflexivity | ]].
  exact (proj1 (Process_failure_clears_after_validation
                  ext_qp_fails sample_flags sample_config sample_vehicle
                  following_line constructed sample_path
                  (mkTrajectoryPoint 5 0) rough_profile Hfail) eq_refl).
Defined.

(** C5 (as stated) fails: for an empty path [Process] returns a failure
    status and the three incoming speed points are still in the output. *)
Lemma Process_empty_path_keeps_stale_points :
  let result := Process ext_nlp_fails sample_flags sample_config sample_vehicle
                        following_line constructed empty_path
                        (mkTrajectoryPoint 5 0) (Some rough_profile) in
  ok (result_status result) = false /\
  result_speed_data result = Some rough_profile /\
  result_speed_data result <> Some clear.
Proof.
  split; [reflexivity | split; [reflexivity | discriminate]].
Qed.

(** The scalar members after the set-up, whichever bounds branch ran. *)
Lemma SetUpStatesAndBounds_scalars
    (ext : Collaborators) (flags : Flags) (veh : VehicleParam)
    (rli : ReferenceLineInfo) (this : Members) (path_data : PathData)
    (rough : SpeedData) :
  let this1 := members_after_setup ext flags veh rli this path_data rough in
  let v0 := tp_v (init_point (mutable_st_graph_data rli)) in
  delta_t_ this1 = 1 # 10 /\
  max_speed_ this1 = get_max_speed rli /\
  s_dot_init_ this1 = v0 /\
  s_dot_max_ this1 = Qmax (get_max_speed rli) (v0 + 1).
Proof.
  unfold members_after_setup, SetUpStatesAndBounds.
  destruct (FLAGS_use_soft_bound_in_nonlinear_speed_opt flags).
  - match goal with
    | |- context [soft_bounds_loop ?e ?f ?r ?s ?d ?t ?n ?i ?a ?b] =>
        destruct (soft_bounds_loop e f r s d t n i a b) as [[st b'] sb']
    end.
    simpl. repeat split.
  - match goal with
    | |- context [hard_bounds_loop ?r ?d ?t ?n ?i ?a] =>
        destruct (hard_bounds_loop r d t n i a) as [st b']
    end.
    simpl. repeat split.
Qed.

(** The velocity box [OptimizeByQP] sets. *)
Lemma speed_qp_dx_bounds (ext : Collaborators) (config : Config)
    (this : Members) (speed_data : SpeedData) (problem : PiecewiseJerkProblem) :
  pjp_dx_bounds (speed_qp ext config this speed_data problem)
  = Some (0, Qmax (max_speed_ this) (s_dot_init_ this + (1 # 10))).
Proof. reflexivity. Qed.

(** A successful [OptimizeByQP] returns what the solver found for the
    problem [speed_qp] built. *)
Lemma OptimizeByQP_success (ext : Collaborators) (config : Config)
    (this : Members) (speed_data : SpeedData)
    (distance velocity acceleration : list Q) (problem : PiecewiseJerkProblem)
    (status : Status) (sol : Solution) :
  OptimizeByQP ext config this speed_data distance velocity acceleration problem
  = (status, sol) ->
  ok status = true ->
  Optimize ext (speed_qp ext config this speed_data problem) None = Some sol.
Proof.
  unfold OptimizeByQP.
  destruct (Optimize ext (speed_qp ext config this speed_data problem) None)
    as [[[x dx] ddx] |]; intros H Hok; injection H as <- <-;
    [reflexivity | discriminate].
Qed.

(** C6 (as amended).  The speed QP is solved with the velocity box
    [0, max(max_speed, s_dot_init + 0.1)] at every knot, [max_speed] being
    the maximum speed of the reference line and [s_dot_init] the initial
    speed: the upper bound is [max_speed] when the initial speed is at least
    0.1 below it and the initial speed plus 0.1 otherwise.  Consequently,
    with a solver whose solution honours the box it was given to the
    tolerance [eps], every optimal velocity that [OptimizeByQP] returns lies
    in [0, max(max_speed, s_dot_init + 0.1) + eps]. *)
Theorem speed_qp_velocity_box
    (ext : Collaborators) (flags : Flags) (config : Config)
    (veh : VehicleParam) (rli : ReferenceLineInfo) (this : Members)
    (path_data : PathData) (rough : SpeedData)
    (distance velocity acceleration : list Q) (problem : PiecewiseJerkProblem)
    (eps : Q) :
  let this1 := members_after_setup ext flags veh rli this path_data rough in
  let max_speed := get_max_speed rli in
  let s_dot_init := tp_v (init_point (mutable_st_graph_data rli)) in
  let upper := Qmax max_speed (s_dot_init + (1 # 10)) in
  let qp := speed_qp ext config this1 rough problem in
  (forall sol, Optimize ext qp None = Some sol -> honours_dx_bounds eps qp sol) ->
  pjp_dx_bounds qp = Some (0, upper) /\
  (s_dot_init + (1 # 10) <= max_speed -> upper == max_speed) /\
  (max_speed < s_dot_init + (1 # 10) -> upper == s_dot_init + (1 # 10)) /\
  (forall status opt_x opt_dx opt_ddx,
     OptimizeByQP ext config this1 rough distance velocity acceleration problem
     = (status, (opt_x, opt_dx, opt_ddx)) ->
     ok status = true ->
     Optimize ext qp None = Some (opt_x, opt_dx, opt_ddx) /\
     Forall (fun v => 0 <= v /\ v <= upper + eps) opt_dx).
Proof.
  intros this1 max_speed s_dot_init upper qp Hsolver.
  pose proof (SetUpStatesAndBounds_scalars ext flags veh rli this path_data rough)
    as (_ & Hmax & Hinit & _).
  fold this1 in Hmax, Hinit.
  assert (Hbox : pjp_dx_bounds qp = Some (0, upper)).
  { subst qp upper max_speed s_dot_init. rewrite speed_qp_dx_bounds.
    rewrite Hmax, Hinit. reflexivity. }
  split; [exact Hbox | split; [ | split]].
  - intro H. subst upper. apply Q.max_l. exact H.
  - intro H. subst upper. apply Q.max_r. lra.
  - intros status opt_x opt_dx opt_ddx Hqp Hok.
    pose proof (OptimizeByQP_success ext config this1 rough distance velocity
                  acceleration problem status (opt_x, opt_dx, opt_ddx) Hqp Hok)
      as Hsol.
    fold qp in Hsol. split; [exact Hsol | ].
    pose proof (Hsolver _ Hsol) as Hh.
    unfold honours_dx_bounds in Hh. rewrite Hbox in Hh. exact Hh.
Qed.

Lemma speed_qp_velocity_box_witness :
  let this1 := members_after_setup ext_nlp_fails sample_flags sample_vehicle
                 following_line constructed sample_path rough_profile in
  let problem := new_problem (num_of_knots_ this1) (delta_t_ this1)
                   (s_init_ this1, s_dot_init_ this1, s_ddot_init_ this1) in
  let qp := speed_qp ext_nlp_fails sample_config this1 rough_profile problem in
  (forall sol, Optimize ext_nlp_fails qp None = Some sol ->
               honours_dx_bounds (1 # 1000) qp sol) /\
  pjp_dx_bounds qp = Some (0, Qmax 10 (5 + (1 # 10))) /\
  Forall (fun v => 0 <= v /\ v <= Qmax 10 (5 + (1 # 10)) + (1 # 1000)) [5; 5; 5].
Proof.
  intros this1 problem qp.
  assert (Hsolver : forall sol, Optimize ext_nlp_fails qp None = Some sol ->
                                honours_dx_bounds (1 # 1000) qp sol).
  { intros sol H. injection H as <-.
    unfold honours_dx_bounds. subst qp. rewrite speed_qp_dx_bounds.
    repeat constructor; apply Qle_bool_iff; vm_compute; reflexivity. }
  pose proof (speed_qp_velocity_box
                ext_nlp_fails sample_flags sample_config sample_vehicle
                following_line constructed sample_path rough_profile
                [] [] [] problem (1 # 1000) Hsolver) as (Hbox & _ & _ & Hres).
  split; [exact Hsolver | split; [exact Hbox | ]].
  exact (proj2 (Hres Status_OK [0; 1 # 2; 1] [5; 5; 5] [0; 0; 0]
                     eq_refl eq_refl)).
Defined.

(** C6 (as stated) fails: with a reference-line maximum of 10 m/s and an
    initial speed of 15 m/s the velocity box handed to the QP is
    [0, 15.1], not [0, 10]. *)
Lemma speed_qp_box_exceeds_max_speed :
  let this1 := members_after_setup ext_nlp_fails sample_flags sample_vehicle
                 speeding_line constructed sample_path rough_profile in
  let qp := speed_qp ext_nlp_fails sample_config this1 rough_profile
              (new_problem (num_of_knots_ this1) (delta_t_ this1)
                 (s_init_ this1, s_dot_init_ this1, s_ddot_init_ this1)) in
  get_max_speed speeding_line = 10 /\
  pjp_dx_bounds qp = Some (0, 151 # 10) /\
  pjp_dx_bounds qp <> Some (0, get_max_speed speeding_line) /\
  ~ (151 # 10 <= get_max_speed speeding_line).
Proof.
  split; [reflexivity | split; [reflexivity | split]].
  - vm_compute. discriminate.
  - simpl. lra.
Qed.

(** ** The emitted profile *)

Lemma take_while_Forall {A} (keep : A -> bool) (l : list A) :
  Forall (fun a => keep a = true) (take_while keep l).
Proof.
  induction l as [| a l IH]; simpl; [constructor | ].
  destruct (keep a) eqn:K; constructor; assumption.
Qed.

Lemma knot_time_nonneg (delta_t : Q) (i : nat) :
  0 <= delta_t -> 0 <= delta_t * inject_Z (Z.of_nat i).
Proof.
  intro H. apply Qmult_le_0_compat; [exact H | ].
  change 0 with (inject_Z 0). rewrite <- Zle_Qle. lia.
Qed.

Lemma emission_by_spec_times (num_of_knots : Z) (delta_t : Q) (arrays : Solution) :
  0 <= delta_t ->
  Forall (fun p => 0 <= sp_t p) (emission_by_spec num_of_knots delta_t arrays).
Proof.
  intro Hdt. destruct arrays as [[distance velocity] acceleration].
  unfold emission_by_spec. constructor; [simpl; lra | ].
  apply Forall_map, Forall_forall. intros i _. simpl.
  apply knot_time_nonneg. exact Hdt.
Qed.

Lemma emission_by_spec_velocities (num_of_knots : Z) (delta_t : Q)
    (arrays : Solution) :
  Forall (fun p => 0 <= sp_v p)
         (tl (emission_by_spec num_of_knots delta_t arrays)).
Proof.
  destruct arrays as [[distance velocity] acceleration].
  unfold emission_by_spec. simpl tl.
  apply Forall_map.
  eapply Forall_impl; [ | apply take_while_Forall].
  intros i Hi. simpl in *.
  destruct (Qltb (at_index velocity i) 0) eqn:C; [discriminate | ].
  apply Qltb_false in C. exact C.
Qed.

Lemma at_index_nonneg (v : list Q) (i : nat) :
  Forall (fun x => 0 <= x) v -> 0 <= at_index v i.
Proof.
  intro H. unfold at_index.
  destruct (nth_in_or_default i v 0) as [Hin | Hd].
  - rewrite Forall_forall in H. exact (H _ Hin).
  - rewrite Hd. lra.
Qed.

(** The arrays a successful [OptimizeByNLP] writes are the results of a
    solve that ended well; otherwise the arrays are those it was given. *)
Lemma OptimizeByNLP_arrays (ext : Collaborators) (flags : Flags)
    (config : Config) (this : Members) (distance velocity acceleration : list Q) :
  let arrays :=
    snd (OptimizeByNLP ext flags config this distance velocity acceleration) in
  arrays = (distance, velocity, acceleration) \/
  exists interface,
    (OptimizeTNLP ext interface = Solve_Succeeded \/
     OptimizeTNLP ext interface = Solved_To_Acceptable_Level) /\
    arrays = get_optimization_results ext interface.
Proof.
  unfold OptimizeByNLP.
  destruct (use_warm_start config && warm_start_invalid distance velocity acceleration);
    [left; reflexivity | ].
  destruct (Initialize ext); try (left; reflexivity).
  match goal with
  | |- context [OptimizeTNLP ext ?i] =>
      destruct (OptimizeTNLP ext i) eqn:E; [right | right | left; reflexivity];
      exists i; rewrite E; split; auto
  end.
Qed.

Lemma optimize_speed_by_nlp_interface_arrays (ext : Collaborators)
    (flags : Flags) (config : Config) (this : Members) (path_data : PathData)
    (rough : SpeedData) (distance velocity acceleration : list Q) :
  let arrays :=
    snd (optimize_speed_by_nlp_interface ext flags config this path_data rough
           distance velocity acceleration) in
  arrays = (distance, velocity, acceleration) \/
  exists interface,
    (OptimizeTNLP ext interface = Solve_Succeeded \/
     OptimizeTNLP ext interface = Solved_To_Acceptable_Level) /\
    arrays = get_optimization_results ext interface.
Proof.
  unfold optimize_speed_by_nlp_interface.
  destruct (CheckSpeedLimitFeasibility ext this); [ | left; reflexivity].
  destruct (SmoothPathCurvature ext this path_data) as [st1 this1].
  destruct (negb (ok st1)); [left; reflexivity | ].
  destruct (SmoothSpeedLimit ext this1) as [st2 this2].
  destruct (negb (ok st2)); [left; reflexivity | ].
  pose proof (OptimizeByNLP_arrays ext flags config this2
                distance velocity acceleration) as H.
  destruct (OptimizeByNLP ext flags config this2 distance velocity acceleration)
    as [st3 arrays].
  destruct (negb (ok st3)); exact H.
Qed.

(** C7.  When [Process] has run the optimisation to success (it returns OK,
    and not by the early return for a reached destination, which precedes
    every other step), the output is the tail-padded profile that starts
    with (distance[0], 0, velocity[0], acceleration[0], 0) and continues,
    for i = 1 .. N-1 up to the first negative velocity[i], with
    (distance[i], i * dt, velocity[i], acceleration[i],
     (acceleration[i] - acceleration[i-1]) / dt).  Every emitted point has
    t >= 0 and every emitted point after the first has v >= 0 by the test
    of the loop; the first point has v >= 0 as well, since the solvers keep
    their velocities at or above the lower bound 0 of the velocity box. *)
Theorem Process_emits_optimized_profile
    (ext : Collaborators) (flags : Flags) (config : Config)
    (veh : VehicleParam) (rli : ReferenceLineInfo) (this : Members)
    (path_data : PathData) (init_point : TrajectoryPoint) (rough : SpeedData)
    (eps : Q) :
  let result := Process ext flags config veh rli this path_data init_point
                        (Some rough) in
  ReachedDestination rli = false ->
  ok (result_status result) = true ->
  let this1 := members_after_setup ext flags veh rli this path_data rough in
  let qp := speed_qp ext config this1 rough
              (new_problem (num_of_knots_ this1) (delta_t_ this1)
                 (s_init_ this1, s_dot_init_ this1, s_ddot_init_ this1)) in
  let arrays := optimized_arrays ext flags config veh rli this path_data rough in
  let emitted := emission_by_spec (num_of_knots_ this1) (delta_t_ this1) arrays in
  result_speed_data result = Some (FillEnoughSpeedPoints ext emitted) /\
  Forall (fun p => 0 <= sp_t p) emitted /\
  Forall (fun p => 0 <= sp_v p) (tl emitted) /\
  ((forall sol, Optimize ext qp None = Some sol -> honours_dx_bounds eps qp sol) ->
   (forall interface,
      OptimizeTNLP ext interface = Solve_Succeeded \/
      OptimizeTNLP ext interface = Solved_To_Acceptable_Level ->
      nonnegative_velocities (get_optimization_results ext interface)) ->
   Forall (fun p => 0 <= sp_t p /\ 0 <= sp_v p) emitted).
Proof.
  intros result Hreach Hok this1 qp arrays emitted.
  assert (Hpath : empty (discretized_path path_data) = false).
  { destruct (empty (discretized_path path_data)) eqn:E; [ | reflexivity].
    subst result. unfold Process in Hok. rewrite E in Hok. discriminate. }
  pose proof (Process_run ext flags config veh rli this path_data init_point
                rough Hpath Hreach) as [Hst Hsd].
  fold result in Hst, Hsd. fold this1 in Hsd. fold arrays in Hsd.
  rewrite Hst in Hok.
  assert (Hoks : ok (fst (SetUpStatesAndBounds ext flags veh rli this path_data
                            rough)) = true /\
                 ok (fst (qp_outcome ext flags config veh rli this path_data
                            rough)) = true).
  { destruct (ok (fst (SetUpStatesAndBounds ext flags veh rli this path_data
                         rough))) eqn:E1;
      [ | simpl in Hok; rewrite E1 in Hok; discriminate].
    destruct (ok (fst (qp_outcome ext flags config veh rli this path_data
                         rough))) eqn:E2;
      [ | simpl in Hok; rewrite E2 in Hok; discriminate].
    split; reflexivity. }
  destruct Hoks as [Hok1 Hok2].
  pose proof (SetUpStatesAndBounds_scalars ext flags veh rli this path_data rough)
    as (Hdt & _).
  fold this1 in Hdt.
  pose proof (emission_by_spec_velocities (num_of_knots_ this1) (delta_t_ this1)
                arrays) as Htail.
  fold emitted in Htail.
  assert (Htimes : Forall (fun p => 0 <= sp_t p) emitted).
  { apply emission_by_spec_times. rewrite Hdt. lra. }
  split; [ | split; [exact Htimes | split; [exact Htail | ]]].
  - rewrite Hsd, Hok1, Hok2. simpl. rewrite emit_speed_data_by_spec. reflexivity.
  - intros Hqp Hnlp.
    assert (Hfirst : 0 <= at_index (snd (fst arrays)) 0).
    { subst arrays. unfold optimized_arrays. fold this1.
      pose proof (OptimizeByQP_success ext config this1 rough [] [] []
                    (new_problem (num_of_knots_ this1) (delta_t_ this1)
                       (s_init_ this1, s_dot_init_ this1, s_ddot_init_ this1))
                    (fst (qp_outcome ext flags config veh rli this path_data rough))
                    (snd (qp_outcome ext flags config veh rli this path_data rough))
                    (surjective_pairing _) Hok2) as Hsol.
      fold qp in Hsol.
      pose proof (Hqp _ Hsol) as Hh.
      unfold honours_dx_bounds in Hh. subst qp.
      rewrite speed_qp_dx_bounds in Hh.
      destruct (snd (qp_outcome ext flags config veh rli this path_data rough))
        as [[distance velocity] acceleration].
      simpl in Hh.
      destruct (optimize_speed_by_nlp_interface_arrays ext flags config this1
                  path_data rough distance velocity acceleration)
        as [E | (interface & Hsolved & E)]; cbv zeta in E; rewrite E.
      - simpl. apply at_index_nonneg.
        eapply Forall_impl; [ | exact Hh]. intros v [Hv _]. exact Hv.
      - apply at_index_nonneg. exact (Hnlp interface Hsolved). }
    subst emitted. destruct arrays as [[distance velocity] acceleration].
    unfold emission_by_spec in *. simpl in Hfirst.
    inversion Htimes as [| first rest Ht0 Htrest]; subst.
    constructor; [split; [exact Ht0 | exact Hfirst] | ].
    simpl tl in Htail.
    clear - Htrest Htail.
    induction Htrest as [| q l Hq Hl IH]; [constructor | ].
    inversion Htail; subst. constructor; [split; assumption | ].
    apply IH. assumption.
Qed.

Lemma Process_emits_optimized_profile_witness :
  let result := Process ext_all_succeed sample_flags sample_config sample_vehicle
                        following_line constructed sample_path
                        (mkTrajectoryPoint 5 0) (Some rough_profile) in
  let profile := [mkSpeedPoint 0 0 4 0 0;
                  optimized_point (1 # 10) refined_solution 1;
                  optimized_point (1 # 10) refined_solution 2] in
  ReachedDestination following_line = false /\
  ok (result_status result) = true /\
  result_speed_data result = Some profile /\
  Forall (fun p => 0 <= sp_t p /\ 0 <= sp_v p) profile.
Proof.
  intros result profile.
  assert (Hok : ok (result_status result) = true) by (vm_compute; reflexivity).
  pose proof (Process_emits_optimized_profile
                ext_all_succeed sample_flags sample_config sample_vehicle
                following_line constructed sample_path
                (mkTrajectoryPoint 5 0) rough_profile (1 # 1000) eq_refl Hok)
    as (Hsd & _ & _ & Hall).
  split; [reflexivity | split; [exact Hok | split; [exact Hsd | ]]].
  apply Hall.
  - intros sol H. injection H as <-.
    unfold honours_dx_bounds. rewrite speed_qp_dx_bounds.
    repeat constructor; apply Qle_bool_iff; vm_compute; reflexivity.
  - intros interface _. unfold nonnegative_velocities.
    repeat constructor; apply Qle_bool_iff; vm_compute; reflexivity.
Defined.

(** Two remarks on the statement above.  With the destination reached,
    [Process] returns OK by its early return and emits nothing: an empty
    incoming profile is still empty.  And the first point owes its
    velocity to the solver alone, the code does not test velocity[0]: a
    stand-in solver that leaves the box and starts at -0.01 m/s has that
    velocity emitted. *)
Lemma Process_emits_first_velocity_untested :
  (let result := Process ext_nlp_fails sample_flags sample_config sample_vehicle
                         arrived_line constructed sample_path
                         (mkTrajectoryPoint 0 0) (Some []) in
   result_status result = Status_OK /\ result_speed_data result = Some []) /\
  (let result := Process ext_creeping sample_flags sample_config sample_vehicle
                         standing_line constructed sample_path
                         (mkTrajectoryPoint 0 0) (Some rough_profile) in
   result_status result = Status_OK /\
   exists first rest,
     result_speed_data result = Some (first :: rest) /\
     sp_v first = -1 # 100 /\ ~ (0 <= sp_v first)).
Proof.
  split.
  - split; reflexivity.
  - split; [vm_compute; reflexivity | ].
    eexists. eexists. split; [vm_compute; reflexivity | ].
    split; [reflexivity | ]. simpl. lra.
Qed.

(* ========================================================================= *)
(** * Further properties of the path container *)

(** ** The searches never leave the vector *)

Lemma lower_bound_loop_range {A V} (comp : A -> V -> bool) (v : list A) (val : V) :
  forall fuel first len,
    (first <= lower_bound_loop comp v val fuel first len <= first + len)%nat.
Proof.
  induction fuel as [| fuel IH]; intros first len; [simpl; lia | ].
  destruct len as [| len']; [simpl; lia | ].
  cbn [lower_bound_loop].
  set (half := (S len' / 2)%nat).
  assert (Hhalf : (half <= len')%nat).
  { pose proof (Nat.div_lt (S len') 2). subst half. lia. }
  destruct (nth_error v (first + half)) as [e |]; [ | lia].
  destruct (comp e val).
  - specialize (IH (S (first + half)) (S len' - half - 1)%nat). lia.
  - specialize (IH first half). lia.
Qed.

Lemma upper_bound_loop_range {A V} (comp : V -> A -> bool) (v : list A) (val : V) :
  forall fuel first len,
    (first <= upper_bound_loop comp v val fuel first len <= first + len)%nat.
Proof.
  induction fuel as [| fuel IH]; intros first len; [simpl; lia | ].
  destruct len as [| len']; [simpl; lia | ].
  cbn [upper_bound_loop].
  set (half := (S len' / 2)%nat).
  assert (Hhalf : (half <= len')%nat).
  { pose proof (Nat.div_lt (S len') 2). subst half. lia. }
  destruct (nth_error v (first + half)) as [e |]; [ | lia].
  destruct (comp val e).
  - specialize (IH first half). lia.
  - specialize (IH (S (first + half)) (S len' - half - 1)%nat). lia.
Qed.

(** X1.  On every non-empty path, whatever the order of its stations, both
    look-ups return a result, and the result is the front point, the back
    point or the interpolation of two neighbouring points of the path: the
    index found by the binary search never leaves the vector. *)
Theorem lookups_read_inside_the_path
    (interpolate : PathPoint -> PathPoint -> Q -> PathPoint)
    (front : PathPoint) (rest : list PathPoint) (path_s : Q) :
  let path := front :: rest in
  reads_from interpolate path front path_s (Evaluate interpolate path path_s) /\
  reads_from interpolate path front path_s
             (EvaluateReverse interpolate path path_s).
Proof.
  intro path.
  assert (Hshape : forall r, (r <= length path)%nat ->
            reads_from interpolate path front path_s
              (if (r =? 0)%nat then Some front
               else if (r =? length path)%nat then Some (back path front)
               else Some (interpolate (nth (r - 1) path front)
                                      (nth r path front) path_s))).
  { intros r Hr. unfold reads_from.
    destruct (r =? 0)%nat eqn:E0; [left; reflexivity | ].
    destruct (r =? length path)%nat eqn:E1; [right; left; reflexivity | ].
    apply Nat.eqb_neq in E0, E1.
    right; right.
    exists (r - 1)%nat, (nth (r - 1) path front), (nth r path front).
    replace (S (r - 1)) with r by lia.
    repeat split; apply nth_error_nth'; lia. }
  split.
  - apply (Hshape (QueryLowerBound path path_s)).
    unfold QueryLowerBound, lower_bound.
    match goal with
    | |- (lower_bound_loop ?c ?v ?x ?f ?a ?l <= _)%nat =>
        pose proof (lower_bound_loop_range c v x f a l)
    end. lia.
  - apply (Hshape (QueryUpperBound path path_s)).
    unfold QueryUpperBound, upper_bound.
    match goal with
    | |- (upper_bound_loop ?c ?v ?x ?f ?a ?l <= _)%nat =>
        pose proof (upper_bound_loop_range c v x f a l)
    end. lia.
Qed.

(** ** The lower_bound query is a count *)

Lemma filter_partition_point {A} (P : A -> bool) (v : list A) :
  partitioned P v -> partition_point P v (length (filter P v)).
Proof.
  induction v as [| a l IH]; intro Hpart.
  - repeat split; simpl; try lia; intros i e _ H; destruct i; discriminate.
  - assert (Hl : partitioned P l).
    { intros i j ei ej Hij Ei Ej. apply (Hpart (S i) (S j) ei ej); simpl; auto; lia. }
    specialize (IH Hl). destruct IH as (Hle & Ht & Hf). simpl.
    destruct (P a) eqn:Pa.
    + repeat split; simpl.
      * lia.
      * intros [| i] e Hi Ei; simpl in Ei.
        -- injection Ei as <-. exact Pa.
        -- apply (Ht i); [lia | exact Ei].
      * intros [| i] e Hi Ei; [lia | ]. simpl in Ei. apply (Hf i); [lia | exact Ei].
    + assert (Hall : forall i e, nth_error l i = Some e -> P e = false).
      { intros i e Ei. destruct (P e) eqn:Pe; [ | reflexivity].
        pose proof (Hpart 0%nat (S i) a e ltac:(lia) eq_refl Ei Pe). congruence. }
      assert (Hnil : filter P l = []).
      { clear - Hall. induction l as [| b l IH]; [reflexivity | ]. simpl.
        rewrite (Hall 0%nat b eq_refl). apply IH.
        intros i e Ei. apply (Hall (S i) e). exact Ei. }
      rewrite Hnil. repeat split; simpl.
      * lia.
      * intros i e Hi; lia.
      * intros [| i] e _ Ei; simpl in Ei.
        -- injection Ei as <-. exact Pa.
        -- apply (Hall i e Ei).
Qed.

Lemma filter_length_le {A} (P R : A -> bool) (l : list A) :
  (forall a, P a = true -> R a = true) ->
  (length (filter P l) <= length (filter R l))%nat.
Proof.
  intro H. induction l as [| a l IH]; simpl; [lia | ].
  destruct (P a) eqn:Pa.
  - rewrite (H a Pa). simpl. lia.
  - destruct (R a); simpl; lia.
Qed.

(** X2.  On a path with non-decreasing stations the lower_bound query is the
    number of points whose station is below [path_s], and so it grows with
    [path_s]. *)
Theorem QueryLowerBound_counts_stations_below
    (path : DiscretizedPath) (path_s path_s' : Q) :
  nondecreasing path ->
  QueryLowerBound path path_s
  = length (filter (fun tp => Qltb (pp_s tp) path_s) path) /\
  (path_s <= path_s' ->
   (QueryLowerBound path path_s <= QueryLowerBound path path_s')%nat).
Proof.
  intro Hs.
  assert (Hcount : forall x,
             QueryLowerBound path x
             = length (filter (fun tp => Qltb (pp_s tp) x) path)).
  { intro x.
    apply (partition_point_unique (fun tp => Qltb (pp_s tp) x) path).
    - apply QueryLowerBound_partition. exact Hs.
    - apply filter_partition_point.
      intros i j pi pj Hij Ei Ej Hj.
      apply Qltb_true in Hj. apply Qltb_true.
      pose proof (nondecreasing_nth path Hs i j pi pj Hij Ei Ej). lra. }
  split; [apply Hcount | ].
  intro Hle. rewrite !Hcount. apply filter_length_le.
  intros tp H. apply Qltb_true in H. apply Qltb_true. lra.
Qed.

Lemma QueryLowerBound_counts_stations_below_witness :
  nondecreasing path_0_1_2 /\ QueryLowerBound path_0_1_2 (3 # 2) = 2%nat.
Proof.
  assert (Hs : nondecreasing path_0_1_2) by (simpl; repeat split; lra).
  split; [exact Hs | ].
  rewrite (proj1 (QueryLowerBound_counts_stations_below
                    path_0_1_2 (3 # 2) (3 # 2) Hs)).
  reflexivity.
Defined.

(** X3.  On a non-empty path stored with non-increasing stations
    [EvaluateReverse] clamps: it returns [front()] for every
    [path_s > front().s()], [back()] for every [path_s <= back().s()], and
    otherwise the interpolation of the neighbours [p0], [p1] with
    [p1.s() < path_s <= p0.s()]. *)
Theorem EvaluateReverse_clamps_and_brackets
    (interpolate : PathPoint -> PathPoint -> Q -> PathPoint)
    (front : PathPoint) (rest : list PathPoint) (path_s : Q) :
  let path := front :: rest in
  nonincreasing path ->
  (pp_s front < path_s -> EvaluateReverse interpolate path path_s = Some front) /\
  (path_s <= pp_s (back path front) ->
     EvaluateReverse interpolate path path_s = Some (back path front)) /\
  (pp_s (back path front) < path_s -> path_s <= pp_s front ->
     exists k p0 p1,
       nth_error path k = Some p0 /\ nth_error path (S k) = Some p1 /\
       pp_s p1 < path_s /\ path_s <= pp_s p0 /\
       EvaluateReverse interpolate path path_s = Some (interpolate p0 p1 path_s)).
Proof.
  intros path Hs.
  pose proof (QueryUpperBound_partition path path_s Hs) as (Hle & Ht & Hf).
  assert (Hne : path <> []) by (subst path; discriminate).
  pose proof (back_nth_error path front Hne) as Hback.
  assert (Hfront : nth_error path 0 = Some front) by reflexivity.
  assert (Hlen : (0 < length path)%nat) by (subst path; simpl; lia).
  assert (Hge : forall e, negb (Qltb (pp_s e) path_s) = true <-> path_s <= pp_s e).
  { intro e. destruct (Qltb (pp_s e) path_s) eqn:C; simpl.
    - apply Qltb_true in C. split; [discriminate | lra].
    - apply Qltb_false in C. split; [intros _; exact C | reflexivity]. }
  assert (Hlt : forall e, negb (Qltb (pp_s e) path_s) = false <-> pp_s e < path_s).
  { intro e. destruct (Qltb (pp_s e) path_s) eqn:C; simpl.
    - apply Qltb_true in C. split; [intros _; exact C | reflexivity].
    - apply Qltb_false in C. split; [discriminate | lra]. }
  set (r := QueryUpperBound path path_s) in *.
  assert (Hev : EvaluateReverse interpolate path path_s =
                if (r =? 0)%nat then Some front
                else if (r =? length path)%nat then Some (back path front)
                else Some (interpolate (nth (r - 1) path front)
                                       (nth r path front) path_s))
    by reflexivity.
  split; [ | split].
  - intro Hq.
    assert (r = 0)%nat as ->.
    { destruct r as [| r']; [reflexivity | exfalso].
      pose proof (Ht 0%nat front ltac:(lia) Hfront) as K.
      apply Hge in K. lra. }
    exact Hev.
  - intro Hq.
    assert (r = length path) as Hr.
    { destruct (Nat.eq_dec r (length path)) as [E | N]; [exact E | exfalso].
      pose proof (Hf (length path - 1)%nat _ ltac:(lia) Hback) as K.
      apply Hlt in K. lra. }
    rewrite Hev, Hr.
    destruct (length path =? 0)%nat eqn:E0; [apply Nat.eqb_eq in E0; lia | ].
    rewrite Nat.eqb_refl. reflexivity.
  - intros Hq1 Hq2.
    assert (Hr0 : r <> 0%nat).
    { intro E. pose proof (Hf 0%nat front ltac:(lia) Hfront) as K.
      apply Hlt in K. lra. }
    assert (Hrn : r <> length path).
    { intro E. pose proof (Ht (length path - 1)%nat _ ltac:(lia) Hback) as K.
      apply Hge in K. lra. }
    exists (r - 1)%nat, (nth (r - 1) path front), (nth r path front).
    assert (E0 : nth_error path (r - 1) = Some (nth (r - 1) path front))
      by (apply nth_error_nth'; lia).
    assert (E1 : nth_error path r = Some (nth r path front))
      by (apply nth_error_nth'; lia).
    replace (S (r - 1)) with r by lia.
    repeat split; try assumption.
    + apply Hlt. apply (Hf r); [lia | exact E1].
    + apply Hge. apply (Ht (r - 1)%nat); [lia | exact E0].
    + rewrite Hev.
      destruct (r =? 0)%nat eqn:Ea; [apply Nat.eqb_eq in Ea; lia | ].
      destruct (r =? length path)%nat eqn:Eb; [apply Nat.eqb_eq in Eb; lia | ].
      reflexivity.
Qed.

Lemma EvaluateReverse_clamps_and_brackets_witness :
  nonincreasing (rev path_0_1_2) /\
  EvaluateReverse lerp_path_point (rev path_0_1_2) 3 = Some (point_at 2 (2 # 10)) /\
  EvaluateReverse lerp_path_point (rev path_0_1_2) (-1 # 1) = Some (point_at 0 0).
Proof.
  assert (Hs : nonincreasing (rev path_0_1_2)) by (simpl; repeat split; lra).
  pose proof (EvaluateReverse_clamps_and_brackets lerp_path_point
                (point_at 2 (2 # 10)) [point_at 1 (1 # 10); point_at 0 0] 3 Hs)
    as (Hfront & _ & _).
  pose proof (EvaluateReverse_clamps_and_brackets lerp_path_point
                (point_at 2 (2 # 10)) [point_at 1 (1 # 10); point_at 0 0]
                (-1 # 1) Hs)
    as (_ & Hback & _).
  split; [exact Hs | split].
  - apply Hfront. simpl. lra.
  - apply Hback. simpl. lra.
Defined.

(** X4.  On a non-empty path with non-decreasing stations [Length()] is not
    negative, it is [max_s()] minus the station of the front point, and the
    station of every point lies between the front station and [max_s()]. *)
Theorem Length_spans_every_station (front : PathPoint) (rest : list PathPoint) :
  let path := front :: rest in
  nondecreasing path ->
  0 <= Length path /\
  Length path = max_s path - pp_s front /\
  forall p, In p path -> pp_s front <= pp_s p /\ pp_s p <= max_s path.
Proof.
  intros path Hs.
  assert (Hne : path <> []) by (subst path; discriminate).
  pose proof (back_nth_error path front Hne) as Hback.
  assert (Hfront : nth_error path 0 = Some front) by reflexivity.
  assert (Hall : forall p, In p path ->
                   pp_s front <= pp_s p /\ pp_s p <= max_s path).
  { intros p Hin. apply In_nth_error in Hin. destruct Hin as [i Hi].
    assert (Hi' : (i < length path)%nat)
      by (apply nth_error_Some; congruence).
    split.
    - apply (nondecreasing_nth path Hs 0%nat i front p); [lia | exact Hfront | exact Hi].
    - unfold max_s; subst path; cbv iota.
      apply (nondecreasing_nth (front :: rest) Hs i (length (front :: rest) - 1)%nat
               p (back (front :: rest) front)); [lia | exact Hi | exact Hback]. }
  split; [ | split; [reflexivity | exact Hall]].
  destruct (Hall front (or_introl eq_refl)) as [_ H].
  unfold Length, max_s in *. subst path. cbv iota in *. lra.
Qed.

Lemma Length_spans_every_station_witness :
  nondecreasing path_0_1_2 /\ 0 <= Length path_0_1_2.
Proof.
  assert (Hs : nondecreasing path_0_1_2) by (simpl; repeat split; lra).
  split; [exact Hs | ].
  exact (proj1 (Length_spans_every_station (point_at 0 0)
                  [point_at 1 (1 # 10); point_at 2 (2 # 10)] Hs)).
Defined.

(* ========================================================================= *)
(** * Further properties of SetUpStatesAndBounds *)

(** ** The scalar members *)

Lemma SetUpStatesAndBounds_s_init
    (ext : Collaborators) (flags : Flags) (veh : VehicleParam)
    (rli : ReferenceLineInfo) (this : Members) (path_data : PathData)
    (rough : SpeedData) :
  s_init_ (members_after_setup ext flags veh rli this path_data rough) = 0.
Proof.
  unfold members_after_setup, SetUpStatesAndBounds.
  destruct (FLAGS_use_soft_bound_in_nonlinear_speed_opt flags).
  - match goal with
    | |- context [soft_bounds_loop ?e ?f ?r ?s ?d ?t ?n ?i ?a ?b] =>
        destruct (soft_bounds_loop e f r s d t n i a b) as [[st b'] sb']
    end.
    reflexivity.
  - match goal with
    | |- context [hard_bounds_loop ?r ?d ?t ?n ?i ?a] =>
        destruct (hard_bounds_loop r d t n i a) as [st b']
    end.
    reflexivity.
Qed.

(** X6.  Whatever the signs of the configured maximum deceleration and of
    the jerk lower-bound flag, the acceleration and jerk lower bounds the
    set-up stores are not positive; the velocity ceiling it stores is at
    least the reference line's maximum speed and at least 1 m/s above the
    initial speed, and the initial station is 0. *)
Theorem set_up_limits_have_the_right_signs
    (ext : Collaborators) (flags : Flags) (veh : VehicleParam)
    (rli : ReferenceLineInfo) (this : Members) (path_data : PathData)
    (rough : SpeedData) :
  let this1 := members_after_setup ext flags veh rli this path_data rough in
  s_ddot_min_ this1 <= 0 /\
  s_ddot_min_ this1 == - Qabs (max_deceleration veh) /\
  s_dddot_min_ this1 <= 0 /\
  s_ddot_max_ this1 = max_acceleration veh /\
  s_dddot_max_ this1 = FLAGS_longitudinal_jerk_upper_bound flags /\
  get_max_speed rli <= s_dot_max_ this1 /\
  s_dot_init_ this1 + 1 <= s_dot_max_ this1 /\
  s_init_ this1 = 0.
Proof.
  intro this1.
  assert (Hm : s_ddot_min_ this1 = - (1) * Qabs (max_deceleration veh) /\
               s_dddot_min_ this1
               = - Qabs (FLAGS_longitudinal_jerk_lower_bound flags) /\
               s_ddot_max_ this1 = max_acceleration veh /\
               s_dddot_max_ this1 = FLAGS_longitudinal_jerk_upper_bound flags /\
               s_init_ this1 = 0).
  { subst this1. unfold members_after_setup, SetUpStatesAndBounds.
    destruct (FLAGS_use_soft_bound_in_nonlinear_speed_opt flags).
    - match goal with
      | |- context [soft_bounds_loop ?e ?f ?r ?s ?d ?t ?n ?i ?a ?b] =>
          destruct (soft_bounds_loop e f r s d t n i a b) as [[st b'] sb']
      end.
      simpl. repeat split.
    - match goal with
      | |- context [hard_bounds_loop ?r ?d ?t ?n ?i ?a] =>
          destruct (hard_bounds_loop r d t n i a) as [st b']
      end.
      simpl. repeat split. }
  destruct Hm as (H1 & H2 & H3 & H4 & H5).
  pose proof (SetUpStatesAndBounds_scalars ext flags veh rli this path_data rough)
    as (_ & _ & Hinit & Hmax).
  fold this1 in Hinit, Hmax.
  pose proof (Qabs_nonneg (max_deceleration veh)) as Ha.
  pose proof (Qabs_nonneg (FLAGS_longitudinal_jerk_lower_bound flags)) as Hj.
  rewrite H1, H2, Hmax, Hinit.
  repeat split; try assumption; try lra.
  - apply Q.le_max_l.
  - apply Q.le_max_r.
Qed.

(** ** The bounds vectors *)

Lemma hard_knot_error (rli : ReferenceLineInfo) (delta_t total_length : Q)
    (i : nat) (status : Status) :
  hard_knot rli delta_t total_length i = inl status ->
  status = mkStatus PLANNING_ERROR msg_bounds.
Proof.
  unfold hard_knot.
  destruct (fold_left _ _ _) as [lo hi].
  destruct (Qltb hi lo); intro K; [injection K as <-; reflexivity | discriminate].
Qed.

Lemma soft_knot_error_kinds (ext : Collaborators) (flags : Flags)
    (rli : ReferenceLineInfo) (rough : SpeedData) (delta_t total_length : Q)
    (i : nat) (status : Status) :
  soft_knot ext flags rli rough delta_t total_length i = inl status ->
  status = mkStatus PLANNING_ERROR msg_rough_speed_profile \/
  status = mkStatus PLANNING_ERROR msg_bounds.
Proof.
  unfold soft_knot.
  destruct (if negb (is_st_boundaries_empty (mutable_st_graph_data rli))
            then EvaluateByTime ext rough (knot_time delta_t i)
            else Some (mkSpeedPoint 0 0 0 0 0)) as [dp |].
  - match goal with
    | |- (if ?c then _ else _) = _ -> _ => destruct c
    end; intro K; [injection K as <-; right; reflexivity | discriminate].
  - intro K. injection K as <-. left; reflexivity.
Qed.

Lemma hard_bounds_loop_ok (rli : ReferenceLineInfo) (delta_t total_length : Q)
    (n : nat) :
  forall i s_bounds status b,
    hard_bounds_loop rli delta_t total_length n i s_bounds = (status, b) ->
    ok status = true ->
    exists ks,
      map (@inr Status (Q * Q)) ks
      = map (hard_knot rli delta_t total_length) (seq i n) /\
      b = s_bounds ++ ks.
Proof.
  induction n as [| n IH]; intros i s_bounds status b Hloop Hok.
  - simpl in Hloop. injection Hloop as <- <-.
    exists []. simpl. rewrite app_nil_r. split; reflexivity.
  - simpl in Hloop.
    destruct (hard_knot rli delta_t total_length i) as [e | k] eqn:K.
    + injection Hloop as <- <-.
      rewrite (hard_knot_error _ _ _ _ _ K) in Hok. discriminate.
    + destruct (IH _ _ _ _ Hloop Hok) as (ks & Hks & Hb).
      exists (k :: ks). simpl. rewrite K, Hks, Hb, <- app_assoc.
      split; reflexivity.
Qed.

Lemma hard_bounds_loop_length (rli : ReferenceLineInfo)
    (delta_t total_length : Q) (n : nat) :
  forall i s_bounds,
    let r := hard_bounds_loop rli delta_t total_length n i s_bounds in
    (fst r = Status_OK \/ fst r = mkStatus PLANNING_ERROR msg_bounds) /\
    (ok (fst r) = true -> length (snd r) = (length s_bounds + n)%nat) /\
    (ok (fst r) = false -> (length (snd r) < length s_bounds + n)%nat).
Proof.
  induction n as [| n IH]; intros i s_bounds; simpl.
  - split; [left; reflexivity | split; [intros _; lia | discriminate]].
  - destruct (hard_knot rli delta_t total_length i) as [e | k] eqn:K; simpl.
    + rewrite (hard_knot_error _ _ _ _ _ K).
      split; [right; reflexivity | split; [discriminate | intros _; lia]].
    + specialize (IH (S i) (s_bounds ++ [k])).
      rewrite length_app in IH. simpl in IH.
      destruct IH as (H0 & H1 & H2).
      split; [exact H0 | split; intro H; [rewrite (H1 H) | specialize (H2 H)]; lia].
Qed.

Lemma soft_bounds_loop_length (ext : Collaborators) (flags : Flags)
    (rli : ReferenceLineInfo) (rough : SpeedData) (delta_t total_length : Q)
    (n : nat) :
  forall i s_bounds s_soft_bounds,
    let r := soft_bounds_loop ext flags rli rough delta_t total_length
                              n i s_bounds s_soft_bounds in
    (ok (fst (fst r)) = true ->
     length (snd (fst r)) = (length s_bounds + n)%nat /\
     length (snd r) = (length s_soft_bounds + n)%nat) /\
    (ok (fst (fst r)) = false ->
     (length (snd (fst r)) < length s_bounds + n)%nat).
Proof.
  induction n as [| n IH]; intros i s_bounds s_soft_bounds; simpl.
  - split; [intros _; lia | discriminate].
  - destruct (soft_knot ext flags rli rough delta_t total_length i)
      as [e | k] eqn:K; simpl.
    + destruct (soft_knot_error_kinds _ _ _ _ _ _ _ _ K) as [-> | ->];
        (split; [discriminate | intros _; lia]).
    + specialize (IH (S i) (s_bounds ++ [(s_lower_bound k, s_upper_bound k)])
                     (s_soft_bounds
                      ++ [(s_soft_lower_bound k, s_soft_upper_bound k)])).
      rewrite !length_app in IH. simpl in IH.
      destruct IH as (H1 & H2).
      split; intro H; [specialize (H1 H) | specialize (H2 H)]; lia.
Qed.

(** The members [SetUpStatesAndBounds] computes when the soft bounds are
    off. *)
Lemma SetUpStatesAndBounds_hard
    (ext : Collaborators) (flags : Flags) (veh : VehicleParam)
    (rli : ReferenceLineInfo) (this : Members) (path_data : PathData)
    (rough : SpeedData) :
  FLAGS_use_soft_bound_in_nonlinear_speed_opt flags = false ->
  let g := mutable_st_graph_data rli in
  let n := (static_cast_int (total_time_by_conf g / (1 # 10)) + 1)%Z in
  let r := hard_bounds_loop rli (1 # 10) (path_length g) (Z.to_nat n) 0 [] in
  let out := SetUpStatesAndBounds ext flags veh rli this path_data rough in
  fst out = fst r /\
  s_bounds_ (snd out) = snd r /\
  s_soft_bounds_ (snd out) = s_soft_bounds_ this /\
  delta_t_ (snd out) = 1 # 10 /\
  num_of_knots_ (snd out) = n /\
  total_length_ (snd out) = path_length g.
Proof.
  intros Hflag g n r out. subst out. unfold SetUpStatesAndBounds.
  rewrite Hflag. fold g. fold n. fold r.
  destruct r as [status b]. simpl. repeat split.
Qed.

Lemma SetUpStatesAndBounds_refresh
    (ext : Collaborators) (flags : Flags) (veh : VehicleParam)
    (rli : ReferenceLineInfo) (this : Members) (path_data : PathData)
    (rough : SpeedData) :
  let out := SetUpStatesAndBounds ext flags veh rli this path_data rough in
  speed_limit_ (snd out)
  = (if ok (fst out) then speed_limit (mutable_st_graph_data rli)
     else speed_limit_ this) /\
  cruise_speed_ (snd out)
  = (if ok (fst out) then GetCruiseSpeed rli else cruise_speed_ this).
Proof.
  unfold SetUpStatesAndBounds.
  destruct (FLAGS_use_soft_bound_in_nonlinear_speed_opt flags).
  - match goal with
    | |- context [soft_bounds_loop ?e ?f ?r ?s ?d ?t ?n ?i ?a ?b] =>
        destruct (soft_bounds_loop e f r s d t n i a b) as [[st b'] sb']
    end.
    simpl. split; reflexivity.
  - match goal with
    | |- context [hard_bounds_loop ?r ?d ?t ?n ?i ?a] =>
        destruct (hard_bounds_loop r d t n i a) as [st b']
    end.
    simpl. split; reflexivity.
Qed.

(** The sizes of the bounds vectors and the refresh of the speed limit and
    the cruise speed, by the status of the set-up. *)
Lemma SetUpStatesAndBounds_lengths
    (ext : Collaborators) (flags : Flags) (veh : VehicleParam)
    (rli : ReferenceLineInfo) (this : Members) (path_data : PathData)
    (rough : SpeedData) :
  let out := SetUpStatesAndBounds ext flags veh rli this path_data rough in
  let this1 := snd out in
  let n := Z.to_nat (num_of_knots_ this1) in
  (ok (fst out) = true ->
   length (s_bounds_ this1) = n /\
   (FLAGS_use_soft_bound_in_nonlinear_speed_opt flags = true ->
    length (s_soft_bounds_ this1) = n) /\
   speed_limit_ this1 = speed_limit (mutable_st_graph_data rli) /\
   cruise_speed_ this1 = GetCruiseSpeed rli) /\
  (ok (fst out) = false ->
   (length (s_bounds_ this1) < n)%nat /\
   speed_limit_ this1 = speed_limit_ this /\
   cruise_speed_ this1 = cruise_speed_ this).
Proof.
  intros out this1 n.
  pose proof (SetUpStatesAndBounds_refresh ext flags veh rli this path_data rough)
    as [Hsl Hcs].
  fold out in Hsl, Hcs. fold this1 in Hsl, Hcs.
  destruct (FLAGS_use_soft_bound_in_nonlinear_speed_opt flags) eqn:Hflag.
  - pose proof (SetUpStatesAndBounds_soft ext flags veh rli this path_data rough
                  Hflag) as (Hst & Hb & Hsb & _ & Hn & _).
    fold out in Hst, Hb, Hsb, Hn. fold this1 in Hb, Hsb, Hn.
    match type of Hst with
    | _ = fst (fst (soft_bounds_loop ?e ?f ?r ?s ?d ?t ?m ?i ?a ?b)) =>
        pose proof (soft_bounds_loop_length e f r s d t m i a b) as [H1 H2]
    end.
    split; intro Hok; rewrite Hok in Hsl, Hcs; rewrite Hst in Hok;
      subst n; rewrite Hb, ?Hsb, Hn.
    + destruct (H1 Hok) as [Ha Hc]. simpl in Ha, Hc. repeat split; auto.
    + specialize (H2 Hok). simpl in H2. repeat split; auto.
  - pose proof (SetUpStatesAndBounds_hard ext flags veh rli this path_data rough
                  Hflag) as (Hst & Hb & _ & _ & Hn & _).
    fold out in Hst, Hb, Hn. fold this1 in Hb, Hn.
    match type of Hst with
    | _ = fst (hard_bounds_loop ?r ?d ?t ?m ?i ?a) =>
        pose proof (hard_bounds_loop_length r d t m i a) as (_ & H1 & H2)
    end.
    split; intro Hok; rewrite Hok in Hsl, Hcs; rewrite Hst in Hok;
      subst n; rewrite Hb, Hn.
    + specialize (H1 Hok). simpl in H1. repeat split; auto. discriminate.
    + specialize (H2 Hok). simpl in H2. repeat split; auto.
Qed.

(** X7.  A successful set-up leaves exactly one pair of bounds per knot (and
    one pair of soft bounds per knot when soft bounds are on) and refreshes
    the speed limit and the cruise speed; a failed set-up leaves fewer pairs
    than knots and keeps the speed limit and the cruise speed it had. *)
Theorem set_up_bounds_per_knot
    (ext : Collaborators) (flags : Flags) (veh : VehicleParam)
    (rli : ReferenceLineInfo) (this : Members) (path_data : PathData)
    (rough : SpeedData) :
  let out := SetUpStatesAndBounds ext flags veh rli this path_data rough in
  let this1 := snd out in
  let n := Z.to_nat (num_of_knots_ this1) in
  (ok (fst out) = true ->
   length (s_bounds_ this1) = n /\
   (FLAGS_use_soft_bound_in_nonlinear_speed_opt flags = true ->
    length (s_soft_bounds_ this1) = n) /\
   speed_limit_ this1 = speed_limit (mutable_st_graph_data rli) /\
   cruise_speed_ this1 = GetCruiseSpeed rli) /\
  (ok (fst out) = false ->
   (length (s_bounds_ this1) < n)%nat /\
   speed_limit_ this1 = speed_limit_ this /\
   cruise_speed_ this1 = cruise_speed_ this).
Proof.
  exact (SetUpStatesAndBounds_lengths ext flags veh rli this path_data rough).
Qed.

(** ** The branch without soft bounds *)

Lemma fold_boundary_hard_monotone (curr_t : Q) (k : Q * Q) (boundary : STBoundary) :
  fst k <= fst (fold_boundary_hard curr_t k boundary) /\
  snd (fold_boundary_hard curr_t k boundary) <= snd k.
Proof.
  destruct k as [lo hi]. unfold fold_boundary_hard.
  destruct (GetUnblockSRange boundary curr_t) as [[u l] |]; [ | simpl; lra].
  destruct (boundary_type boundary); simpl; split; try lra;
    try apply Q.le_min_l; try apply Q.le_max_l.
Qed.

Lemma fold_boundaries_hard_monotone (curr_t : Q) (boundaries : list STBoundary) :
  forall k,
    fst k <= fst (fold_left (fold_boundary_hard curr_t) boundaries k) /\
    snd (fold_left (fold_boundary_hard curr_t) boundaries k) <= snd k.
Proof.
  induction boundaries as [| b rest IH]; intro k; simpl; [lra | ].
  pose proof (fold_boundary_hard_monotone curr_t k b) as [H1 H2].
  pose proof (IH (fold_boundary_hard curr_t k b)) as [H3 H4]. lra.
Qed.

(** What one boundary asks of the pair of a knot in this branch. *)
Lemma fold_boundary_hard_respects (curr_t : Q) (k : Q * Q) (boundary : STBoundary)
    (u l : Q) :
  GetUnblockSRange boundary curr_t = Some (u, l) ->
  let k' := fold_boundary_hard curr_t k boundary in
  match boundary_type boundary with
  | STOP | YIELD => snd k' <= u
  | FOLLOW => snd k' <= u - 8
  | OVERTAKE => l <= fst k'
  | UNKNOWN | KEEP_CLEAR => True
  end.
Proof.
  intro Hrange. destruct k as [lo hi]. unfold fold_boundary_hard.
  rewrite Hrange.
  destruct (boundary_type boundary); simpl; try exact I;
    try apply Q.le_min_r; try apply Q.le_max_r.
Qed.

Lemma hard_knot_result (rli : ReferenceLineInfo) (delta_t total_length : Q)
    (i : nat) (k : Q * Q) :
  hard_knot rli delta_t total_length i = inr k ->
  k = fold_left (fold_boundary_hard (knot_time delta_t i))
                (st_boundaries (mutable_st_graph_data rli)) (0, total_length) /\
  fst k <= snd k.
Proof.
  unfold hard_knot.
  destruct (fold_left _ _ _) as [lo hi].
  destruct (Qltb hi lo) eqn:C; intro K; [discriminate | ].
  injection K as <-. apply Qltb_false in C. split; [reflexivity | exact C].
Qed.

(** The pair stored for knot [i] by a successful set-up without soft
    bounds. *)
Lemma hard_set_up_knot
    (ext : Collaborators) (flags : Flags) (veh : VehicleParam)
    (rli : ReferenceLineInfo) (this : Members) (path_data : PathData)
    (rough : SpeedData) (i : nat) :
  FLAGS_use_soft_bound_in_nonlinear_speed_opt flags = false ->
  let out := SetUpStatesAndBounds ext flags veh rli this path_data rough in
  ok (fst out) = true ->
  (i < Z.to_nat (num_of_knots_ (snd out)))%nat ->
  exists k,
    nth_error (s_bounds_ (snd out)) i = Some k /\
    hard_knot rli (1 # 10) (path_length (mutable_st_graph_data rli)) i = inr k.
Proof.
  intros Hflag out Hok Hi.
  pose proof (SetUpStatesAndBounds_hard ext flags veh rli this path_data rough
                Hflag) as (Hst & Hb & _ & _ & Hn & _).
  fold out in Hst, Hb, Hn. rewrite Hn in Hi. rewrite Hst in Hok. rewrite Hb.
  set (g := mutable_st_graph_data rli) in *.
  set (n := Z.to_nat (static_cast_int (total_time_by_conf g / (1 # 10)) + 1)) in *.
  destruct (hard_bounds_loop rli (1 # 10) (path_length g) n 0 []) as [st b] eqn:L.
  simpl in Hok |- *.
  destruct (hard_bounds_loop_ok rli (1 # 10) (path_length g) n 0 [] st b L Hok)
    as (ks & Hks & Hbks).
  simpl in Hbks. subst b.
  assert (Hlen : length ks = n).
  { apply (f_equal (@length _)) in Hks. rewrite !length_map, length_seq in Hks.
    exact Hks. }
  destruct (nth_error ks i) as [k |] eqn:Ek.
  2:{ apply nth_error_None in Ek. lia. }
  exists k. split; [reflexivity | ].
  apply (f_equal (fun l => nth_error l i)) in Hks.
  rewrite !nth_error_map, Ek in Hks.
  rewrite (nth_error_nth' (seq 0 n) 0%nat) in Hks by (rewrite length_seq; lia).
  rewrite seq_nth in Hks by lia. simpl in Hks. congruence.
Qed.

(** X8.  Without soft bounds, every pair a successful set-up stores is an
    ordered sub-interval of the path: 0 <= lower <= upper <= total_length. *)
Theorem hard_bounds_stay_on_the_path
    (ext : Collaborators) (flags : Flags) (veh : VehicleParam)
    (rli : ReferenceLineInfo) (this : Members) (path_data : PathData)
    (rough : SpeedData) (i : nat) (s_low s_high : Q) :
  FLAGS_use_soft_bound_in_nonlinear_speed_opt flags = false ->
  let out := SetUpStatesAndBounds ext flags veh rli this path_data rough in
  ok (fst out) = true ->
  nth_error (s_bounds_ (snd out)) i = Some (s_low, s_high) ->
  0 <= s_low /\ s_low <= s_high /\
  s_high <= path_length (mutable_st_graph_data rli).
Proof.
  intros Hflag out Hok Hnth.
  assert (Hi : (i < Z.to_nat (num_of_knots_ (snd out)))%nat).
  { pose proof (SetUpStatesAndBounds_lengths ext flags veh rli this path_data rough)
      as [H _].
    destruct (H Hok) as [Hlen _]. fold out in Hlen. rewrite <- Hlen.
    apply nth_error_Some. congruence. }
  destruct (hard_set_up_knot ext flags veh rli this path_data rough i Hflag Hok Hi)
    as (k & Hk & Hknot).
  fold out in Hk. rewrite Hnth in Hk. injection Hk as <-.
  apply hard_knot_result in Hknot. destruct Hknot as [Hfold Hord].
  pose proof (fold_boundaries_hard_monotone (knot_time (1 # 10) i)
                (st_boundaries (mutable_st_graph_data rli))
                (0, path_length (mutable_st_graph_data rli))) as [H1 H2].
  rewrite <- Hfold in H1, H2. simpl in *. repeat split; lra.
Qed.

Lemma hard_bounds_stay_on_the_path_witness :
  let out := SetUpStatesAndBounds ext_all_succeed hard_only_flags sample_vehicle
               stop_line constructed sample_path rough_profile in
  ok (fst out) = true /\
  nth_error (s_bounds_ (snd out)) 1 = Some (0, Qmin 100 30) /\
  Qmin 100 30 <= path_length (mutable_st_graph_data stop_line).
Proof.
  assert (Hok : ok (fst (SetUpStatesAndBounds ext_all_succeed hard_only_flags
                           sample_vehicle stop_line constructed sample_path
                           rough_profile)) = true) by reflexivity.
  assert (Hnth : nth_error
                   (s_bounds_ (snd (SetUpStatesAndBounds ext_all_succeed
                                      hard_only_flags sample_vehicle stop_line
                                      constructed sample_path rough_profile))) 1
                 = Some (0, Qmin 100 30)) by reflexivity.
  split; [exact Hok | split; [exact Hnth | ]].
  exact (proj2 (proj2 (hard_bounds_stay_on_the_path
                         ext_all_succeed hard_only_flags sample_vehicle
                         stop_line constructed sample_path rough_profile
                         1 0 (Qmin 100 30) eq_refl Hok Hnth))).
Defined.

(** X9.  Without soft bounds, the pair a successful set-up stores for a knot
    honours every boundary whose range is supported at the knot's time: the
    upper bound is at most the unblocked upper station of a STOP or YIELD
    boundary and at most that station minus 8 m for a FOLLOW boundary, and
    the lower bound is at least the unblocked lower station of an OVERTAKE
    boundary. *)
Theorem hard_bounds_respect_every_boundary
    (ext : Collaborators) (flags : Flags) (veh : VehicleParam)
    (rli : ReferenceLineInfo) (this : Members) (path_data : PathData)
    (rough : SpeedData) (i : nat) (s_low s_high : Q)
    (boundary : STBoundary) (u l : Q) :
  FLAGS_use_soft_bound_in_nonlinear_speed_opt flags = false ->
  let out := SetUpStatesAndBounds ext flags veh rli this path_data rough in
  ok (fst out) = true ->
  nth_error (s_bounds_ (snd out)) i = Some (s_low, s_high) ->
  In boundary (st_boundaries (mutable_st_graph_data rli)) ->
  GetUnblockSRange boundary (knot_time (delta_t_ (snd out)) i) = Some (u, l) ->
  match boundary_type boundary with
  | STOP | YIELD => s_high <= u
  | FOLLOW => s_high <= u - 8
  | OVERTAKE => l <= s_low
  | UNKNOWN | KEEP_CLEAR => True
  end.
Proof.
  intros Hflag out Hok Hnth Hin Hrange.
  pose proof (SetUpStatesAndBounds_hard ext flags veh rli this path_data rough
                Hflag) as (_ & _ & _ & Hdt & _).
  fold out in Hdt. rewrite Hdt in Hrange.
  assert (Hi : (i < Z.to_nat (num_of_knots_ (snd out)))%nat).
  { pose proof (SetUpStatesAndBounds_lengths ext flags veh rli this path_data rough)
      as [H _].
    destruct (H Hok) as [Hlen _]. fold out in Hlen. rewrite <- Hlen.
    apply nth_error_Some. congruence. }
  destruct (hard_set_up_knot ext flags veh rli this path_data rough i Hflag Hok Hi)
    as (k & Hk & Hknot).
  fold out in Hk. rewrite Hnth in Hk. injection Hk as <-.
  apply hard_knot_result in Hknot. destruct Hknot as [Hfold _].
  destruct (in_split _ _ Hin) as (pre & post & Hsplit).
  rewrite Hsplit, fold_left_app in Hfold. simpl in Hfold.
  set (t := knot_time (1 # 10) i) in *.
  set (before := fold_left (fold_boundary_hard t) pre
                           (0, path_length (mutable_st_graph_data rli))) in *.
  pose proof (fold_boundary_hard_respects t before boundary u l Hrange) as Hb.
  pose proof (fold_boundaries_hard_monotone t post
                (fold_boundary_hard t before boundary)) as [H1 H2].
  rewrite <- Hfold in H1, H2. simpl in H1, H2. cbv zeta in Hb.
  destruct (boundary_type boundary); try exact I; lra.
Qed.

Lemma hard_bounds_respect_every_boundary_witness :
  let out := SetUpStatesAndBounds ext_all_succeed hard_only_flags sample_vehicle
               following_line constructed sample_path rough_profile in
  ok (fst out) = true /\
  nth_error (s_bounds_ (snd out)) 2 = Some (0, Qmin 100 (30 - 8)) /\
  Qmin 100 (30 - 8) <= 30 - 8.
Proof.
  assert (Hok : ok (fst (SetUpStatesAndBounds ext_all_succeed hard_only_flags
                           sample_vehicle following_line constructed sample_path
                           rough_profile)) = true) by reflexivity.
  assert (Hnth : nth_error
                   (s_bounds_ (snd (SetUpStatesAndBounds ext_all_succeed
                                      hard_only_flags sample_vehicle
                                      following_line constructed sample_path
                                      rough_profile))) 2
                 = Some (0, Qmin 100 (30 - 8))) by reflexivity.
  split; [exact Hok | split; [exact Hnth | ]].
  exact (hard_bounds_respect_every_boundary
           ext_all_succeed hard_only_flags sample_vehicle following_line
           constructed sample_path rough_profile 2 0 (Qmin 100 (30 - 8))
           follow_boundary 30 0 eq_refl Hok Hnth (or_introl eq_refl) eq_refl).
Defined.

(** ** The branch with soft bounds *)

(** The pairs stored for knot [i] by a successful set-up with soft bounds. *)
Lemma soft_set_up_knot
    (ext : Collaborators) (flags : Flags) (veh : VehicleParam)
    (rli : ReferenceLineInfo) (this : Members) (path_data : PathData)
    (rough : SpeedData) (i : nat) :
  FLAGS_use_soft_bound_in_nonlinear_speed_opt flags = true ->
  let out := SetUpStatesAndBounds ext flags veh rli this path_data rough in
  ok (fst out) = true ->
  (i < Z.to_nat (num_of_knots_ (snd out)))%nat ->
  exists k,
    nth_error (s_bounds_ (snd out)) i = Some (s_lower_bound k, s_upper_bound k) /\
    nth_error (s_soft_bounds_ (snd out)) i
    = Some (s_soft_lower_bound k, s_soft_upper_bound k) /\
    soft_knot ext flags rli rough (1 # 10)
              (path_length (mutable_st_graph_data rli)) i = inr k.
Proof.
  intros Hflag out Hok Hi.
  pose proof (SetUpStatesAndBounds_soft ext flags veh rli this path_data rough
                Hflag) as (Hst & Hb & Hsb & _ & Hn & _).
  fold out in Hst, Hb, Hsb, Hn. rewrite Hn in Hi. rewrite Hst in Hok.
  rewrite Hb, Hsb.
  set (g := mutable_st_graph_data rli) in *.
  set (n := Z.to_nat (static_cast_int (total_time_by_conf g / (1 # 10)) + 1)) in *.
  destruct (soft_bounds_loop ext flags rli rough (1 # 10) (path_length g) n 0 [] [])
    as [[st b] sb] eqn:L.
  simpl in Hok |- *.
  destruct (soft_bounds_loop_ok ext flags rli rough (1 # 10) (path_length g)
              n 0 [] [] st b sb L Hok)
    as (ks & Hks & Hbks & Hsbks).
  simpl in Hbks, Hsbks. subst b sb.
  assert (Hlen : length ks = n).
  { apply (f_equal (@length _)) in Hks. rewrite !length_map, length_seq in Hks.
    exact Hks. }
  destruct (nth_error ks i) as [k |] eqn:Ek.
  2:{ apply nth_error_None in Ek. lia. }
  exists k. rewrite !nth_error_map, Ek. repeat split.
  apply (f_equal (fun l => nth_error l i)) in Hks.
  rewrite !nth_error_map, Ek in Hks.
  rewrite (nth_error_nth' (seq 0 n) 0%nat) in Hks by (rewrite length_seq; lia).
  rewrite seq_nth in Hks by lia. simpl in Hks. congruence.
Qed.

(** X10.  With soft bounds on and a path of positive length, every pair a
    successful set-up stores is a non-empty interval: lower < upper for the
    hard pair and for the soft pair of each knot. *)
Theorem soft_set_up_stores_nonempty_intervals
    (ext : Collaborators) (flags : Flags) (veh : VehicleParam)
    (rli : ReferenceLineInfo) (this : Members) (path_data : PathData)
    (rough : SpeedData) (i : nat) :
  FLAGS_use_soft_bound_in_nonlinear_speed_opt flags = true ->
  0 < path_length (mutable_st_graph_data rli) ->
  let out := SetUpStatesAndBounds ext flags veh rli this path_data rough in
  ok (fst out) = true ->
  (i < Z.to_nat (num_of_knots_ (snd out)))%nat ->
  exists s_low s_high s_soft_low s_soft_high,
    nth_error (s_bounds_ (snd out)) i = Some (s_low, s_high) /\
    nth_error (s_soft_bounds_ (snd out)) i = Some (s_soft_low, s_soft_high) /\
    s_low < s_high /\ s_soft_low < s_soft_high.
Proof.
  intros Hflag Hlen out Hok Hi.
  destruct (soft_set_up_knot ext flags veh rli this path_data rough i Hflag Hok Hi)
    as (k & Hb & Hsb & Hknot).
  exists (s_lower_bound k), (s_upper_bound k),
         (s_soft_lower_bound k), (s_soft_upper_bound k).
  split; [exact Hb | split; [exact Hsb | ]].
  unfold soft_knot in Hknot.
  destruct (if negb (is_st_boundaries_empty (mutable_st_graph_data rli))
            then EvaluateByTime ext rough (knot_time (1 # 10) i)
            else Some (mkSpeedPoint 0 0 0 0 0)) as [dp |]; [ | discriminate].
  set (folded := fold_boundaries flags rli (knot_time (1 # 10) i)
                   (path_length (mutable_st_graph_data rli)) dp) in Hknot.
  assert (Hfold : s_lower_bound folded < s_upper_bound folded /\
                  s_soft_lower_bound folded < s_soft_upper_bound folded).
  { subst folded. unfold fold_boundaries.
    apply fold_boundaries_nonempty. simpl. split; exact Hlen. }
  pose proof (raise_to_dynamic_constraints_lower
                (dynamic_constraints_lower ext rli (knot_time (1 # 10) i)) folded)
    as [Hl Hu].
  assert (Hsoft : forall ebk,
             s_soft_lower_bound (raise_to_dynamic_constraints ebk folded)
             = s_soft_lower_bound folded /\
             s_soft_upper_bound (raise_to_dynamic_constraints ebk folded)
             = s_soft_upper_bound folded).
  { intros [p |]; split; reflexivity. }
  destruct (Hsoft (dynamic_constraints_lower ext rli (knot_time (1 # 10) i)))
    as [Hsl Hsu].
  match type of Hknot with
  | (if ?c then _ else _) = _ => destruct c
  end; [discriminate | ].
  injection Hknot as <-. rewrite Hl, Hsl, Hsu. split; lra.
Qed.

Lemma soft_set_up_stores_nonempty_intervals_witness :
  let out := SetUpStatesAndBounds ext_all_succeed sample_flags sample_vehicle
               (sample_reference_line false 5 crossing_boundaries)
               constructed sample_path rough_profile in
  ok (fst out) = true /\
  exists s_low s_high s_soft_low s_soft_high,
    nth_error (s_bounds_ (snd out)) 0 = Some (s_low, s_high) /\
    nth_error (s_soft_bounds_ (snd out)) 0 = Some (s_soft_low, s_soft_high) /\
    s_low < s_high /\ s_soft_low < s_soft_high.
Proof.
  assert (Hok : ok (fst (SetUpStatesAndBounds ext_all_succeed sample_flags
                           sample_vehicle
                           (sample_reference_line false 5 crossing_boundaries)
                           constructed sample_path rough_profile)) = true)
    by reflexivity.
  split; [exact Hok | ].
  apply (soft_set_up_stores_nonempty_intervals
           ext_all_succeed sample_flags sample_vehicle
           (sample_reference_line false 5 crossing_boundaries)
           constructed sample_path rough_profile 0 eq_refl).
  - simpl. lra.
  - exact Hok.
  - vm_compute. lia.
Defined.

(** ** No boundaries *)

Lemma soft_knot_without_boundaries (ext : Collaborators) (flags : Flags)
    (rli : ReferenceLineInfo) (rough : SpeedData) (delta_t total_length : Q)
    (i : nat) :
  st_boundaries (mutable_st_graph_data rli) = [] ->
  soft_knot ext flags rli rough delta_t total_length i
  = if Qltb total_length 0
    then inl (mkStatus PLANNING_ERROR msg_bounds)
    else inr (mkKnotBounds 0 total_length 0 total_length).
Proof.
  intro Hnil.
  unfold soft_knot, dynamic_constraints_lower, fold_boundaries,
    is_st_boundaries_empty.
  rewrite Hnil. reflexivity.
Qed.

Lemma hard_knot_without_boundaries (rli : ReferenceLineInfo)
    (delta_t total_length : Q) (i : nat) :
  st_boundaries (mutable_st_graph_data rli) = [] ->
  hard_knot rli delta_t total_length i
  = if Qltb total_length 0
    then inl (mkStatus PLANNING_ERROR msg_bounds)
    else inr (0, total_length).
Proof.
  intro Hnil. unfold hard_knot. rewrite Hnil. reflexivity.
Qed.

Lemma soft_bounds_loop_without_boundaries (ext : Collaborators) (flags : Flags)
    (rli : ReferenceLineInfo) (rough : SpeedData) (delta_t total_length : Q) :
  st_boundaries (mutable_st_graph_data rli) = [] ->
  forall n i s_bounds s_soft_bounds,
    soft_bounds_loop ext flags rli rough delta_t total_length
                     n i s_bounds s_soft_bounds
    = if Qltb total_length 0
      then match n with
           | O => (Status_OK, s_bounds, s_soft_bounds)
           | S _ => (mkStatus PLANNING_ERROR msg_bounds, s_bounds, s_soft_bounds)
           end
      else (Status_OK, s_bounds ++ repeat (0, total_length) n,
            s_soft_bounds ++ repeat (0, total_length) n).
Proof.
  intros Hnil n. induction n as [| n IH]; intros i s_bounds s_soft_bounds.
  - cbn [soft_bounds_loop repeat]. rewrite !app_nil_r.
    destruct (Qltb total_length 0); reflexivity.
  - cbn [soft_bounds_loop repeat].
    rewrite soft_knot_without_boundaries by exact Hnil.
    destruct (Qltb total_length 0) eqn:C; [reflexivity | ].
    rewrite IH. cbn [s_lower_bound s_upper_bound s_soft_lower_bound
                     s_soft_upper_bound].
    rewrite <- !app_assoc. reflexivity.
Qed.

Lemma hard_bounds_loop_without_boundaries (rli : ReferenceLineInfo)
    (delta_t total_length : Q) :
  st_boundaries (mutable_st_graph_data rli) = [] ->
  forall n i s_bounds,
    hard_bounds_loop rli delta_t total_length n i s_bounds
    = if Qltb total_length 0
      then match n with
           | O => (Status_OK, s_bounds)
           | S _ => (mkStatus PLANNING_ERROR msg_bounds, s_bounds)
           end
      else (Status_OK, s_bounds ++ repeat (0, total_length) n).
Proof.
  intros Hnil n. induction n as [| n IH]; intros i s_bounds.
  - cbn [hard_bounds_loop repeat]. rewrite !app_nil_r.
    destruct (Qltb total_length 0); reflexivity.
  - cbn [hard_bounds_loop repeat].
    rewrite hard_knot_without_boundaries by exact Hnil.
    destruct (Qltb total_length 0) eqn:C; [reflexivity | ].
    rewrite IH. rewrite <- !app_assoc. reflexivity.
Qed.

(** X11.  Without ST boundaries neither speed profile is consulted: for a
    non-negative path length the set-up succeeds and every knot gets
    [0, total_length] (as hard and, with soft bounds on, as soft bounds);
    for a negative path length and at least one knot it fails with the
    bounds error before storing any pair. *)
Theorem set_up_without_boundaries
    (ext : Collaborators) (flags : Flags) (veh : VehicleParam)
    (rli : ReferenceLineInfo) (this : Members) (path_data : PathData)
    (rough : SpeedData) :
  st_boundaries (mutable_st_graph_data rli) = [] ->
  let out := SetUpStatesAndBounds ext flags veh rli this path_data rough in
  let total_length := path_length (mutable_st_graph_data rli) in
  let n := Z.to_nat (num_of_knots_ (snd out)) in
  (0 <= total_length ->
   fst out = Status_OK /\
   s_bounds_ (snd out) = repeat (0, total_length) n /\
   (FLAGS_use_soft_bound_in_nonlinear_speed_opt flags = true ->
    s_soft_bounds_ (snd out) = repeat (0, total_length) n)) /\
  (total_length < 0 -> (0 < n)%nat ->
   fst out = mkStatus PLANNING_ERROR msg_bounds /\ s_bounds_ (snd out) = []).
Proof.
  intros Hnil out total_length n.
  destruct (FLAGS_use_soft_bound_in_nonlinear_speed_opt flags) eqn:Hflag.
  - pose proof (SetUpStatesAndBounds_soft ext flags veh rli this path_data rough
                  Hflag) as (Hst & Hb & Hsb & _ & Hn & _).
    fold out in Hst, Hb, Hsb, Hn. subst n. rewrite Hst, Hb, Hsb, Hn.
    rewrite (soft_bounds_loop_without_boundaries ext flags rli rough _ _ Hnil).
    fold total_length.
    split.
    + intro H. apply Qltb_false in H. rewrite H. simpl. repeat split.
    + intros H Hpos. apply Qltb_true in H. rewrite H.
      destruct (Z.to_nat _); [lia | split; reflexivity].
  - pose proof (SetUpStatesAndBounds_hard ext flags veh rli this path_data rough
                  Hflag) as (Hst & Hb & _ & _ & Hn & _).
    fold out in Hst, Hb, Hn. subst n. rewrite Hst, Hb, Hn.
    rewrite (hard_bounds_loop_without_boundaries rli _ _ Hnil).
    fold total_length.
    split.
    + intro H. apply Qltb_false in H. rewrite H. simpl.
      repeat split. discriminate.
    + intros H Hpos. apply Qltb_true in H. rewrite H.
      destruct (Z.to_nat _); [lia | split; reflexivity].
Qed.

Lemma set_up_without_boundaries_witness :
  let out := SetUpStatesAndBounds ext_all_succeed sample_flags sample_vehicle
               free_line constructed sample_path [] in
  st_boundaries (mutable_st_graph_data free_line) = [] /\
  fst out = Status_OK /\
  s_bounds_ (snd out) = [(0, 100); (0, 100); (0, 100)].
Proof.
  pose proof (set_up_without_boundaries ext_all_succeed sample_flags
                sample_vehicle free_line constructed sample_path [] eq_refl)
    as [H _].
  assert (Hlen : 0 <= path_length (mutable_st_graph_data free_line))
    by (simpl; lra).
  destruct (H Hlen) as (Hst & Hb & _).
  split; [reflexivity | split; [exact Hst | ]].
  rewrite Hb. reflexivity.
Defined.

(** ** The rough speed profile decides the set-up with soft bounds *)

Lemma soft_bounds_loop_failure (ext : Collaborators) (flags : Flags)
    (rli : ReferenceLineInfo) (rough : SpeedData) (delta_t total_length : Q)
    (n : nat) :
  forall i s_bounds s_soft_bounds,
    let status :=
      fst (fst (soft_bounds_loop ext flags rli rough delta_t total_length
                                 n i s_bounds s_soft_bounds)) in
    ok status = false ->
    exists j, (i <= j < i + n)%nat /\
              soft_knot ext flags rli rough delta_t total_length j = inl status.
Proof.
  induction n as [| n IH]; intros i s_bounds s_soft_bounds; simpl.
  - discriminate.
  - destruct (soft_knot ext flags rli rough delta_t total_length i) as [e | k] eqn:K.
    + simpl. intros _. exists i. split; [lia | exact K].
    + intro H. destruct (IH _ _ _ H) as (j & Hj & Kj).
      exists j. split; [lia | exact Kj].
Qed.

(** X12.  With soft bounds on, ST boundaries present and a non-negative path
    length, the set-up succeeds exactly when the rough speed profile can be
    evaluated at the time of every knot; otherwise it returns the error of
    the rough-speed look-up. *)
Theorem soft_set_up_succeeds_iff_rough_profile_covers_knots
    (ext : Collaborators) (flags : Flags) (veh : VehicleParam)
    (rli : ReferenceLineInfo) (this : Members) (path_data : PathData)
    (rough : SpeedData) :
  FLAGS_use_soft_bound_in_nonlinear_speed_opt flags = true ->
  0 <= path_length (mutable_st_graph_data rli) ->
  st_boundaries (mutable_st_graph_data rli) <> [] ->
  let out := SetUpStatesAndBounds ext flags veh rli this path_data rough in
  let covered :=
    forall i, (i < Z.to_nat (num_of_knots_ (snd out)))%nat ->
              EvaluateByTime ext rough (knot_time (delta_t_ (snd out)) i) <> None in
  (fst out = Status_OK <-> covered) /\
  (fst out = mkStatus PLANNING_ERROR msg_rough_speed_profile <-> ~ covered).
Proof.
  intros Hflag Hlen Hne out covered.
  assert (Hempty : is_st_boundaries_empty (mutable_st_graph_data rli) = false).
  { unfold is_st_boundaries_empty.
    destruct (st_boundaries (mutable_st_graph_data rli)); [congruence | reflexivity]. }
  pose proof (SetUpStatesAndBounds_soft ext flags veh rli this path_data rough
                Hflag) as (Hst & _ & _ & Hdt & Hn & _).
  fold out in Hst, Hdt, Hn.
  assert (Hlookup : forall i k,
             soft_knot ext flags rli rough (1 # 10)
                       (path_length (mutable_st_graph_data rli)) i = inr k ->
             EvaluateByTime ext rough (knot_time (1 # 10) i) <> None).
  { intros i k K. unfold soft_knot in K. rewrite Hempty in K. simpl negb in K.
    cbv iota in K.
    destruct (EvaluateByTime ext rough (knot_time (1 # 10) i)); [discriminate | ].
    discriminate. }
  assert (Hmiss : forall i st,
             soft_knot ext flags rli rough (1 # 10)
                       (path_length (mutable_st_graph_data rli)) i = inl st ->
             EvaluateByTime ext rough (knot_time (1 # 10) i) = None).
  { intros i st K.
    pose proof (soft_knot_error ext flags rli rough _ _ i st Hlen K) as ->.
    unfold soft_knot in K. rewrite Hempty in K. simpl negb in K. cbv iota in K.
    destruct (EvaluateByTime ext rough (knot_time (1 # 10) i)); [ | reflexivity].
    match type of K with
    | (if ?c then _ else _) = _ => destruct c
    end; discriminate. }
  assert (Hiff : ok (fst out) = true <-> covered).
  { subst covered. rewrite Hdt, Hn. split.
    - intros Hok i Hi.
      assert (Hi' : (i < Z.to_nat (num_of_knots_ (snd out)))%nat)
        by (rewrite Hn; exact Hi).
      destruct (soft_set_up_knot ext flags veh rli this path_data rough i
                  Hflag Hok Hi') as (k & _ & _ & K).
      exact (Hlookup i k K).
    - intro Hcov. destruct (ok (fst out)) eqn:Hok; [reflexivity | exfalso].
      rewrite Hst in Hok.
      match type of Hok with
      | ok (fst (fst (soft_bounds_loop ?e ?f ?r ?s ?d ?t ?m ?i ?a ?b))) = false =>
          destruct (soft_bounds_loop_failure e f r s d t m i a b Hok)
            as (j & Hj & Kj)
      end.
      apply (Hcov j); [lia | exact (Hmiss _ _ Kj)]. }
  assert (Hkinds : fst out = Status_OK \/
                   fst out = mkStatus PLANNING_ERROR msg_rough_speed_profile).
  { rewrite Hst.
    match goal with
    | |- context [soft_bounds_loop ?e ?f ?r ?s ?d ?t ?m ?i ?a ?b] =>
        destruct (soft_bounds_loop_status e f r s d t m i a b) as [H | [j H]]
    end; [left; exact H | right].
    exact (soft_knot_error ext flags rli rough _ _ j _ Hlen H). }
  split; split.
  - intro H. apply Hiff. rewrite H. reflexivity.
  - intro H. apply Hiff in H. destruct Hkinds as [E | E]; [exact E | ].
    rewrite E in H. discriminate.
  - intros E H. apply Hiff in H. rewrite E in H. discriminate.
  - intro H. destruct Hkinds as [E | E]; [ | exact E].
    exfalso. apply H. apply Hiff. rewrite E. reflexivity.
Qed.

Lemma soft_set_up_succeeds_iff_rough_profile_covers_knots_witness :
  let out := SetUpStatesAndBounds ext_all_succeed sample_flags sample_vehicle
               following_line constructed sample_path short_rough_profile in
  0 <= path_length (mutable_st_graph_data following_line) /\
  st_boundaries (mutable_st_graph_data following_line) <> [] /\
  fst out = mkStatus PLANNING_ERROR msg_rough_speed_profile /\
  ~ (forall i, (i < Z.to_nat (num_of_knots_ (snd out)))%nat ->
               EvaluateByTime ext_all_succeed short_rough_profile
                              (knot_time (delta_t_ (snd out)) i) <> None).
Proof.
  assert (Hlen : 0 <= path_length (mutable_st_graph_data following_line))
    by (simpl; lra).
  assert (Hne : st_boundaries (mutable_st_graph_data following_line) <> [])
    by discriminate.
  assert (Hst : fst (SetUpStatesAndBounds ext_all_succeed sample_flags
                       sample_vehicle following_line constructed sample_path
                       short_rough_profile)
                = mkStatus PLANNING_ERROR msg_rough_speed_profile)
    by reflexivity.
  split; [exact Hlen | split; [exact Hne | split; [exact Hst | ]]].
  exact (proj1 (proj2 (soft_set_up_succeeds_iff_rough_profile_covers_knots
                         ext_all_succeed sample_flags sample_vehicle
                         following_line constructed sample_path
                         short_rough_profile eq_refl Hlen Hne)) Hst).
Defined.

(** X13.  After a successful set-up the speed-limit check reads the limit of
    the ST graph at station 0: it passes exactly when the initial speed is
    at most that limit plus 1e-6. *)
Theorem speed_limit_check_after_set_up
    (ext : Collaborators) (flags : Flags) (veh : VehicleParam)
    (rli : ReferenceLineInfo) (this : Members) (path_data : PathData)
    (rough : SpeedData) :
  let out := SetUpStatesAndBounds ext flags veh rli this path_data rough in
  let g := mutable_st_graph_data rli in
  ok (fst out) = true ->
  (CheckSpeedLimitFeasibility ext (snd out) = true <->
   tp_v (init_point g) <= GetSpeedLimitByS ext (speed_limit g) 0 + (1 # 1000000)).
Proof.
  intros out g Hok.
  pose proof (SetUpStatesAndBounds_refresh ext flags veh rli this path_data rough)
    as [Hsl _].
  fold out in Hsl. rewrite Hok in Hsl.
  pose proof (SetUpStatesAndBounds_scalars ext flags veh rli this path_data rough)
    as (_ & _ & Hinit & _).
  pose proof (SetUpStatesAndBounds_s_init
                ext flags veh rli this path_data rough) as Hs0.
  unfold members_after_setup in Hinit, Hs0. fold out in Hinit, Hs0.
  unfold CheckSpeedLimitFeasibility. rewrite Hsl, Hinit, Hs0. fold g.
  destruct (Qltb (GetSpeedLimitByS ext (speed_limit g) 0 + (1 # 1000000))
                 (tp_v (init_point g))) eqn:C.
  - apply Qltb_true in C. split; [discriminate | lra].
  - apply Qltb_false in C. split; [intros _; exact C | reflexivity].
Qed.

Lemma speed_limit_check_after_set_up_witness :
  let out := SetUpStatesAndBounds ext_all_succeed sample_flags sample_vehicle
               following_line constructed sample_path rough_profile in
  ok (fst out) = true /\
  CheckSpeedLimitFeasibility ext_all_succeed (snd out) = true.
Proof.
  assert (Hok : ok (fst (SetUpStatesAndBounds ext_all_succeed sample_flags
                           sample_vehicle following_line constructed sample_path
                           rough_profile)) = true) by reflexivity.
  split; [exact Hok | ].
  apply (proj2 (speed_limit_check_after_set_up
                  ext_all_succeed sample_flags sample_vehicle following_line
                  constructed sample_path rough_profile Hok)).
  simpl. lra.
Defined.

(* ========================================================================= *)
(** * Further properties of the solver stages *)

(** ** The speed QP *)

Lemma SetUpStatesAndBounds_init_state
    (ext : Collaborators) (flags : Flags) (veh : VehicleParam)
    (rli : ReferenceLineInfo) (this : Members) (path_data : PathData)
    (rough : SpeedData) :
  let this1 := members_after_setup ext flags veh rli this path_data rough in
  s_dot_init_ this1 = tp_v (init_point (mutable_st_graph_data rli)) /\
  s_ddot_init_ this1 = tp_a (init_point (mutable_st_graph_data rli)) /\
  total_length_ this1 = path_length (mutable_st_graph_data rli).
Proof.
  unfold members_after_setup, SetUpStatesAndBounds.
  destruct (FLAGS_use_soft_bound_in_nonlinear_speed_opt flags).
  - match goal with
    | |- context [soft_bounds_loop ?e ?f ?r ?s ?d ?t ?n ?i ?a ?b] =>
        destruct (soft_bounds_loop e f r s d t n i a b) as [[st b'] sb']
    end.
    simpl. repeat split.
  - match goal with
    | |- context [hard_bounds_loop ?r ?d ?t ?n ?i ?a] =>
        destruct (hard_bounds_loop r d t n i a) as [st b']
    end.
    simpl. repeat split.
Qed.

(** X16.  After a successful set-up the speed QP that [Process] hands to the
    solver is consistently dimensioned: it has [num_of_knots_] knots 0.1 s
    apart, starts at (0, initial speed, initial acceleration), carries one
    pair of station bounds and one reference station per knot, and weighs
    only acceleration, jerk and the distance to the reference. *)
Theorem speed_qp_is_dimensioned_by_the_knots
    (ext : Collaborators) (flags : Flags) (config : Config)
    (veh : VehicleParam) (rli : ReferenceLineInfo) (this : Members)
    (path_data : PathData) (rough : SpeedData) :
  let out := SetUpStatesAndBounds ext flags veh rli this path_data rough in
  let this1 := snd out in
  let g := mutable_st_graph_data rli in
  let qp := speed_qp ext config this1 rough
              (new_problem (num_of_knots_ this1) (delta_t_ this1)
                 (s_init_ this1, s_dot_init_ this1, s_ddot_init_ this1)) in
  ok (fst out) = true ->
  pjp_num_of_knots qp = num_of_knots_ this1 /\
  pjp_delta_s qp = 1 # 10 /\
  pjp_x_init qp = (0, tp_v (init_point g), tp_a (init_point g)) /\
  (exists bounds,
     pjp_x_bounds qp = x_bounds_per_knot bounds /\
     length bounds = Z.to_nat (num_of_knots_ this1)) /\
  (exists x_ref,
     pjp_x_ref qp = Some (ref_s_weight config, x_ref) /\
     length x_ref = Z.to_nat (num_of_knots_ this1)) /\
  (pjp_weight_x qp, pjp_weight_dx qp, pjp_weight_ddx qp, pjp_weight_dddx qp)
  = (0, 0, acc_weight config, jerk_weight config).
Proof.
  intros out this1 g qp Hok.
  pose proof (SetUpStatesAndBounds_init_state ext flags veh rli this path_data
                rough) as (Hv & Ha & _).
  pose proof (SetUpStatesAndBounds_s_init ext flags veh rli this path_data rough)
    as Hs.
  pose proof (SetUpStatesAndBounds_scalars ext flags veh rli this path_data rough)
    as (Hdt & _).
  unfold members_after_setup in Hv, Ha, Hs, Hdt.
  fold out in Hv, Ha, Hs, Hdt. fold this1 in Hv, Ha, Hs, Hdt.
  pose proof (SetUpStatesAndBounds_lengths ext flags veh rli this path_data rough)
    as [Hlen _].
  destruct (Hlen Hok) as (Hb & _). fold out in Hb. fold this1 in Hb.
  subst qp. unfold speed_qp. simpl.
  rewrite Hdt, Hs, Hv, Ha.
  split; [reflexivity | split; [reflexivity | split; [reflexivity | ]]].
  split; [exists (s_bounds_ this1); split; [reflexivity | exact Hb] | ].
  split; [ | reflexivity].
  eexists. split; [reflexivity | ].
  rewrite length_map, length_seq. reflexivity.
Qed.

Lemma speed_qp_is_dimensioned_by_the_knots_witness :
  let out := SetUpStatesAndBounds ext_all_succeed sample_flags sample_vehicle
               following_line constructed sample_path rough_profile in
  let this1 := snd out in
  let qp := speed_qp ext_all_succeed sample_config this1 rough_profile
              (new_problem (num_of_knots_ this1) (delta_t_ this1)
                 (s_init_ this1, s_dot_init_ this1, s_ddot_init_ this1)) in
  ok (fst out) = true /\ pjp_num_of_knots qp = num_of_knots_ this1.
Proof.
  assert (Hok : ok (fst (SetUpStatesAndBounds ext_all_succeed sample_flags
                           sample_vehicle following_line constructed sample_path
                           rough_profile)) = true) by reflexivity.
  split; [exact Hok | ].
  exact (proj1 (speed_qp_is_dimensioned_by_the_knots
                  ext_all_succeed sample_flags sample_config sample_vehicle
                  following_line constructed sample_path rough_profile Hok)).
Defined.

(** ** The NLP stage *)


(* ========================================================================= *)
(** * Further properties of Process *)

(** A successful [OptimizeByNLP] returns the results of the interface it
    has set up. *)
Lemma OptimizeByNLP_success (ext : Collaborators) (flags : Flags)
    (config : Config) (this : Members) (distance velocity acceleration : list Q) :
  ok (fst (OptimizeByNLP ext flags config this distance velocity acceleration))
  = true ->
  snd (OptimizeByNLP ext flags config this distance velocity acceleration)
  = get_optimization_results ext
      (nlp_interface flags config this distance
         (if use_warm_start config
          then Some (warm_start_of distance velocity acceleration)
          else None)).
Proof.
  unfold OptimizeByNLP.
  destruct (use_warm_start config && warm_start_invalid distance velocity acceleration);
    [discriminate | ].
  destruct (Initialize ext); try discriminate.
  match goal with
  | |- context [OptimizeTNLP ext ?i] => destruct (OptimizeTNLP ext i)
  end; try discriminate; reflexivity.
Qed.

(** A run of [Process] in which every stage succeeds. *)
Lemma Process_run_refined
    (ext : Collaborators) (flags : Flags) (config : Config)
    (veh : VehicleParam) (rli : ReferenceLineInfo) (this : Members)
    (path_data : PathData) (init_point : TrajectoryPoint) (rough : SpeedData)
    (setup_status qp_status : Status) (this1 : Members)
    (distance velocity acceleration : list Q) :
  empty (discretized_path path_data) = false ->
  ReachedDestination rli = false ->
  SetUpStatesAndBounds ext flags veh rli this path_data rough
  = (setup_status, this1) ->
  ok setup_status = true ->
  OptimizeByQP ext config this1 rough [] [] []
    (new_problem (num_of_knots_ this1) (delta_t_ this1)
                 (s_init_ this1, s_dot_init_ this1, s_ddot_init_ this1))
  = (qp_status, (distance, velocity, acceleration)) ->
  ok qp_status = true ->
  let after_curvature := snd (SmoothPathCurvature ext this1 path_data) in
  let after_speed_limit := snd (SmoothSpeedLimit ext after_curvature) in
  let nlp := OptimizeByNLP ext flags config after_speed_limit
                           distance velocity acceleration in
  CheckSpeedLimitFeasibility ext this1 = true ->
  ok (fst (SmoothPathCurvature ext this1 path_data)) = true ->
  ok (fst (SmoothSpeedLimit ext after_curvature)) = true ->
  ok (fst nlp) = true ->
  let result := Process ext flags config veh rli this path_data init_point
                        (Some rough) in
  result_status result = Status_OK /\
  result_members result = after_speed_limit /\
  result_speed_data result =
    Some (FillEnoughSpeedPoints ext
            (emit_speed_data (num_of_knots_ this1) (delta_t_ this1) (snd nlp))).
Proof.
  intros Hpath Hreach Hsetup Hok Hqp Hqok after_curvature after_speed_limit nlp
         Hcheck Hcurv Hlimit Hnlp result.
  pose proof (SmoothPathCurvature_members ext this1 path_data) as [Hn1 Hd1].
  pose proof (SmoothSpeedLimit_members ext after_curvature) as [Hn2 Hd2].
  fold after_curvature in Hn1, Hd1. fold after_speed_limit in Hn2, Hd2.
  subst result. unfold Process.
  rewrite Hpath, Hreach, Hsetup, Hok. simpl negb. cbv iota.
  rewrite Hqp, Hqok. simpl negb. cbv iota.
  unfold optimize_speed_by_nlp_interface. rewrite Hcheck.
  subst nlp after_speed_limit after_curvature.
  destruct (SmoothPathCurvature ext this1 path_data) as [st1 m1].
  simpl in *. rewrite Hcurv. simpl negb. cbv iota.
  destruct (SmoothSpeedLimit ext m1) as [st2 m2].
  simpl in *. rewrite Hlimit. simpl negb. cbv iota.
  destruct (OptimizeByNLP ext flags config m2 distance velocity acceleration)
    as [st3 arrays].
  simpl in *. rewrite Hnlp. simpl.
  rewrite Hn2, Hn1, Hd2, Hd1. repeat split.
Qed.

(** X18.  When the set-up, the speed QP, the speed-limit check, both
    smoothings and the NLP all succeed, [Process] returns OK and emits from
    the three arrays of the NLP solver, not from those of the QP: the output
    is the tail-padded sequence of the point (opt_x[0], 0, opt_dx[0],
    opt_ddx[0], 0) and of the points of the knots 1 .. N-1, read from the
    results of the interface [OptimizeByNLP] has set up, up to the first
    negative velocity.  The members it leaves are those after the two
    smoothings. *)
Theorem Process_emits_NLP_result
    (ext : Collaborators) (flags : Flags) (config : Config)
    (veh : VehicleParam) (rli : ReferenceLineInfo) (this : Members)
    (path_data : PathData) (init_point : TrajectoryPoint) (rough : SpeedData)
    (setup_status qp_status : Status) (this1 : Members)
    (distance velocity acceleration : list Q) :
  empty (discretized_path path_data) = false ->
  ReachedDestination rli = false ->
  SetUpStatesAndBounds ext flags veh rli this path_data rough
  = (setup_status, this1) ->
  ok setup_status = true ->
  OptimizeByQP ext config this1 rough [] [] []
    (new_problem (num_of_knots_ this1) (delta_t_ this1)
                 (s_init_ this1, s_dot_init_ this1, s_ddot_init_ this1))
  = (qp_status, (distance, velocity, acceleration)) ->
  ok qp_status = true ->
  let after_curvature := snd (SmoothPathCurvature ext this1 path_data) in
  let after_speed_limit := snd (SmoothSpeedLimit ext after_curvature) in
  let nlp := OptimizeByNLP ext flags config after_speed_limit
                           distance velocity acceleration in
  CheckSpeedLimitFeasibility ext this1 = true ->
  ok (fst (SmoothPathCurvature ext this1 path_data)) = true ->
  ok (fst (SmoothSpeedLimit ext after_curvature)) = true ->
  ok (fst nlp) = true ->
  let result := Process ext flags config veh rli this path_data init_point
                        (Some rough) in
  let interface :=
    nlp_interface flags config after_speed_limit distance
      (if use_warm_start config
       then Some (warm_start_of distance velocity acceleration)
       else None) in
  exists opt_x opt_dx opt_ddx,
    get_optimization_results ext interface = (opt_x, opt_dx, opt_ddx) /\
    result_status result = Status_OK /\
    result_members result = after_speed_limit /\
    result_speed_data result =
      Some (FillEnoughSpeedPoints ext
              (mkSpeedPoint (at_index opt_x 0) 0 (at_index opt_dx 0)
                            (at_index opt_ddx 0) 0
               :: map (optimized_point (delta_t_ this1) (opt_x, opt_dx, opt_ddx))
                      (take_while (fun i => negb (Qltb (at_index opt_dx i) 0))
                                  (seq 1 (Z.to_nat (num_of_knots_ this1 - 1)))))).
Proof.
  intros Hpath Hreach Hsetup Hok Hqp Hqok after_curvature after_speed_limit nlp
         Hcheck Hcurv Hlimit Hnlp result interface.
  pose proof (Process_run_refined ext flags config veh rli this path_data
                init_point rough setup_status qp_status this1
                distance velocity acceleration
                Hpath Hreach Hsetup Hok Hqp Hqok Hcheck Hcurv Hlimit Hnlp)
    as (Hst & Hm & Hsd).
  fold after_curvature in Hm, Hsd. fold after_speed_limit in Hm, Hsd.
  fold nlp in Hsd. fold result in Hst, Hm, Hsd.
  pose proof (OptimizeByNLP_success ext flags config after_speed_limit
                distance velocity acceleration Hnlp) as Hres.
  fold nlp in Hres. fold interface in Hres.
  rewrite Hres, emit_speed_data_by_spec in Hsd.
  destruct (get_optimization_results ext interface) as [[opt_x opt_dx] opt_ddx].
  exists opt_x, opt_dx, opt_ddx.
  split; [reflexivity | split; [exact Hst | split; [exact Hm | exact Hsd]]].
Qed.

Lemma Process_emits_NLP_result_witness :
  let result := Process ext_all_succeed sample_flags sample_config
                        sample_vehicle following_line constructed sample_path
                        (mkTrajectoryPoint 5 0) (Some rough_profile) in
  result_status result = Status_OK /\
  result_speed_data result
  = Some [mkSpeedPoint 0 0 4 0 0;
          mkSpeedPoint (2 # 5) ((1 # 10) * 1) 4 0 ((0 - 0) / (1 # 10));
          mkSpeedPoint (4 # 5) ((1 # 10) * 2) 4 0 ((0 - 0) / (1 # 10))].
Proof.
  pose (setup := SetUpStatesAndBounds ext_all_succeed sample_flags
                   sample_vehicle following_line constructed sample_path
                   rough_profile).
  destruct (Process_emits_NLP_result
              ext_all_succeed sample_flags sample_config sample_vehicle
              following_line constructed sample_path (mkTrajectoryPoint 5 0)
              rough_profile (fst setup) Status_OK (snd setup)
              [0; 1 # 2; 1] [5; 5; 5] [0; 0; 0]
              eq_refl eq_refl (surjective_pairing setup) eq_refl eq_refl
              eq_refl eq_refl eq_refl eq_refl eq_refl)
    as (opt_x & opt_dx & opt_ddx & Hres & Hst & _ & Hsd).
  injection Hres as <- <- <-.
  split; [exact Hst | exact Hsd].
Defined.

(** ** The statuses of Process *)

Lemma SetUpStatesAndBounds_status
    (ext : Collaborators) (flags : Flags) (veh : VehicleParam)
    (rli : ReferenceLineInfo) (this : Members) (path_data : PathData)
    (rough : SpeedData) :
  let status := fst (SetUpStatesAndBounds ext flags veh rli this path_data rough) in
  status = Status_OK \/
  status = mkStatus PLANNING_ERROR msg_rough_speed_profile \/
  status = mkStatus PLANNING_ERROR msg_bounds.
Proof.
  destruct (FLAGS_use_soft_bound_in_nonlinear_speed_opt flags) eqn:Hflag.
  - pose proof (SetUpStatesAndBounds_soft ext flags veh rli this path_data rough
                  Hflag) as (Hst & _).
    cbv zeta. rewrite Hst.
    match goal with
    | |- context [soft_bounds_loop ?e ?f ?r ?s ?d ?t ?m ?i ?a ?b] =>
        destruct (soft_bounds_loop_status e f r s d t m i a b) as [H | [j H]]
    end; [left; exact H | right].
    exact (soft_knot_error_kinds _ _ _ _ _ _ _ _ H).
  - pose proof (SetUpStatesAndBounds_hard ext flags veh rli this path_data rough
                  Hflag) as (Hst & _).
    cbv zeta. rewrite Hst.
    match goal with
    | |- context [hard_bounds_loop ?r ?d ?t ?m ?i ?a] =>
        destruct (hard_bounds_loop_length r d t m i a) as ([H | H] & _)
    end; [left; exact H | right; right; exact H].
Qed.

Lemma qp_outcome_status
    (ext : Collaborators) (flags : Flags) (config : Config)
    (veh : VehicleParam) (rli : ReferenceLineInfo) (this : Members)
    (path_data : PathData) (rough : SpeedData) :
  let status := fst (qp_outcome ext flags config veh rli this path_data rough) in
  status = Status_OK \/ status = mkStatus PLANNING_ERROR msg_qp.
Proof.
  unfold qp_outcome, OptimizeByQP.
  match goal with
  | |- context [Optimize ext ?p None] => destruct (Optimize ext p None) as [[[x dx] ddx] |]
  end; [left | right]; reflexivity.
Qed.

(** X19.  [Process] returns one of six statuses: OK, or a planning error for
    a null output, an empty path, a failed rough-speed look-up, infeasible
    bounds or a failed speed QP.  A failure of the speed-limit check, of a
    smoothing step or of the NLP never reaches the caller.  The status is OK
    exactly when the output is not null, the path is not empty, and either
    the destination is reached or both the set-up and the speed QP
    succeed. *)
Theorem Process_returns_one_of_six_statuses
    (ext : Collaborators) (flags : Flags) (config : Config)
    (veh : VehicleParam) (rli : ReferenceLineInfo) (this : Members)
    (path_data : PathData) (init_point : TrajectoryPoint)
    (speed_data : option SpeedData) :
  let result := Process ext flags config veh rli this path_data init_point
                        speed_data in
  In (result_status result) Process_statuses /\
  (result_status result = Status_OK <->
   exists rough,
     speed_data = Some rough /\
     empty (discretized_path path_data) = false /\
     (ReachedDestination rli = true \/
      ok (fst (SetUpStatesAndBounds ext flags veh rli this path_data rough))
      = true /\
      ok (fst (qp_outcome ext flags config veh rli this path_data rough))
      = true)).
Proof.
  intro result. subst result. unfold Process_statuses.
  destruct speed_data as [rough |].
  2:{ split; [simpl; tauto | ].
      split; [discriminate | intros (r & H & _); discriminate]. }
  destruct (empty (discretized_path path_data)) eqn:Hpath.
  { unfold Process. rewrite Hpath. simpl.
    split; [tauto | ].
    split; [discriminate | intros (r & _ & H & _); discriminate]. }
  destruct (ReachedDestination rli) eqn:Hreach.
  { unfold Process. rewrite Hpath, Hreach. simpl.
    split; [tauto | ].
    split; [intros _; exists rough; auto | reflexivity]. }
  pose proof (Process_run ext flags config veh rli this path_data init_point
                rough Hpath Hreach) as [Hst _].
  cbv zeta in Hst. rewrite Hst.
  pose proof (SetUpStatesAndBounds_status ext flags veh rli this path_data rough)
    as Hs.
  pose proof (qp_outcome_status ext flags config veh rli this path_data rough)
    as Hq.
  cbv zeta in Hs, Hq.
  set (setup := fst (SetUpStatesAndBounds ext flags veh rli this path_data rough))
    in *.
  set (qp := fst (qp_outcome ext flags config veh rli this path_data rough)) in *.
  split.
  - destruct Hs as [-> | [-> | ->]]; simpl; try tauto.
    destruct Hq as [-> | ->]; simpl; tauto.
  - split.
    + intro H. exists rough. split; [reflexivity | split; [reflexivity | right]].
      change (ok setup = true /\ ok qp = true).
      destruct Hs as [E | [E | E]]; rewrite E in H |- *; simpl in H;
        try discriminate.
      destruct Hq as [F | F]; rewrite F in H |- *; simpl in H; try discriminate.
      split; reflexivity.
    + intros (r & Hr & _ & [H | [H1 H2]]); [discriminate | ].
      injection Hr as <-. fold setup in H1. fold qp in H2.
      rewrite H1, H2. reflexivity.
Qed.

(** ** The emitted profile *)

Lemma take_while_seq (keep : nat -> bool) (m : nat) :
  forall start, exists k, (k <= m)%nat /\
                          take_while keep (seq start m) = seq start k.
Proof.
  induction m as [| m IH]; intro start; simpl.
  - exists 0%nat. split; [lia | reflexivity].
  - destruct (keep start).
    + destruct (IH (S start)) as (k & Hk & E).
      exists (S k). split; [lia | simpl; rewrite E; reflexivity].
    + exists 0%nat. split; [lia | reflexivity].
Qed.

Lemma optimized_points_increasing (delta_t : Q) (arrays : Solution) (k : nat) :
  0 < delta_t ->
  forall start p0,
    sp_t p0 < delta_t * inject_Z (Z.of_nat start) ->
    increasing_times (p0 :: map (optimized_point delta_t arrays) (seq start k)).
Proof.
  intro Hd. destruct arrays as [[distance velocity] acceleration].
  induction k as [| k IH]; intros start p0 H; [exact I | ].
  change (sp_t p0
          < sp_t (optimized_point delta_t (distance, velocity, acceleration) start)
          /\ increasing_times
               (optimized_point delta_t (distance, velocity, acceleration) start
                :: map (optimized_point delta_t (distance, velocity, acceleration))
                       (seq (S start) k))).
  split; [exact H | ].
  apply (IH (S start)). simpl sp_t.
  rewrite Nat2Z.inj_succ. unfold Z.succ. rewrite inject_Z_plus.
  change (inject_Z 1) with 1.
  set (x := inject_Z (Z.of_nat start)).
  assert (E : delta_t * (x + 1) == delta_t * x + delta_t) by ring.
  rewrite E. lra.
Qed.

(** X20.  The profile [Process] emits before the tail padding is never
    empty and has at most max(1, N) points, N being the number of knots (the
    initial point is emitted even when the set-up counts no knot); its times
    increase strictly, and its point number [j] carries the time
    [j * 0.1]. *)
Theorem emitted_profile_is_a_time_grid
    (ext : Collaborators) (flags : Flags) (veh : VehicleParam)
    (rli : ReferenceLineInfo) (this : Members) (path_data : PathData)
    (rough : SpeedData) (arrays : Solution) :
  let this1 := members_after_setup ext flags veh rli this path_data rough in
  let emitted :=
    emit_speed_data (num_of_knots_ this1) (delta_t_ this1) arrays in
  (1 <= length emitted)%nat /\
  (length emitted <= Z.to_nat (Z.max 1 (num_of_knots_ this1)))%nat /\
  increasing_times emitted /\
  (forall j p, nth_error emitted j = Some p ->
               sp_t p == inject_Z (Z.of_nat j) * (1 # 10)).
Proof.
  intros this1 emitted.
  pose proof (SetUpStatesAndBounds_scalars ext flags veh rli this path_data rough)
    as (Hdt & _).
  fold this1 in Hdt.
  subst emitted. rewrite emit_speed_data_by_spec, Hdt.
  destruct arrays as [[distance velocity] acceleration].
  unfold emission_by_spec.
  destruct (take_while_seq (fun i => negb (Qltb (at_index velocity i) 0))
              (Z.to_nat (num_of_knots_ this1 - 1)) 1) as (k & Hk & E).
  rewrite E. simpl length. rewrite length_map, length_seq.
  split; [lia | split; [lia | split]].
  - apply optimized_points_increasing; [lra | ].
    cbn [sp_t]. change (inject_Z (Z.of_nat 1)) with 1. lra.
  - intros [| j] p Hp; simpl in Hp.
    + injection Hp as <-. simpl. ring.
    + rewrite nth_error_map in Hp.
      destruct (nth_error (seq 1 k) j) as [i |] eqn:Ei; [ | discriminate].
      injection Hp as <-.
      assert (Hj : (j < length (seq 1 k))%nat)
        by (apply nth_error_Some; congruence).
      rewrite length_seq in Hj.
      rewrite (nth_error_nth' (seq 1 k) 0%nat) in Ei by (rewrite length_seq; lia).
      rewrite seq_nth in Ei by lia. injection Ei as Ei. subst i.
      cbn [optimized_point sp_t].
      replace (Z.of_nat (1 + j)) with (Z.of_nat (S j)) by reflexivity.
      ring.
Qed.

(* ========================================================================= *)
(** * The debug records *)

Lemma lower_edge_spec (delta_t : Q) (s_bounds : list (Q * Q)) :
  forall t points,
  exists t' lower,
    lower_edge s_bounds t delta_t points = (t', points ++ lower) /\
    map snd lower = map fst s_bounds /\
    hd_error (map fst lower) = match s_bounds with [] => None | _ => Some t end.
Proof.
  induction s_bounds as [| b rest IH]; intros t points.
  - exists t, []. simpl. rewrite app_nil_r. repeat split.
  - destruct (IH (t + delta_t) (points ++ [(t, fst b)])) as (t' & lower & E & Hs & _).
    exists t', ((t, fst b) :: lower).
    cbn [lower_edge]. rewrite E, <- app_assoc.
    split; [reflexivity | split; [simpl; rewrite Hs; reflexivity | reflexivity]].
Qed.

Lemma upper_edge_spec (delta_t : Q) (s_bounds : list (Q * Q)) (n : nat) :
  (n <= length s_bounds)%nat ->
  forall t points,
  exists upper,
    upper_edge n s_bounds t delta_t points = points ++ upper /\
    map snd upper = rev (map snd (firstn n s_bounds)).
Proof.
  induction n as [| i IH]; intros Hn t points.
  - exists []. simpl. rewrite app_nil_r. split; reflexivity.
  - destruct (IH ltac:(lia) (t - delta_t)
                 (points ++ [(t, snd (nth i s_bounds (0, 0)))]))
      as (upper & E & Hs).
    exists ((t, snd (nth i s_bounds (0, 0))) :: upper).
    cbn [upper_edge]. rewrite E, <- app_assoc.
    split; [reflexivity | ].
    cbn [map snd]. rewrite Hs.
    assert (Hf : firstn (S i) s_bounds = firstn i s_bounds ++ [nth i s_bounds (0, 0)]).
    { clear - Hn. revert i Hn.
      induction s_bounds as [| b rest IHr]; intros i Hn; [simpl in Hn; lia | ].
      destruct i as [| i']; [reflexivity | ].
      simpl in Hn.
      change (b :: firstn (S i') rest
              = (b :: firstn i' rest) ++ [nth i' rest (0, 0)]).
      rewrite (IHr i') by lia. reflexivity. }
    rewrite Hf, map_app, rev_app_distr. reflexivity.
Qed.

(** X21.  [record_constraints] records nothing when the emergency-brake
    profile is empty.  Otherwise it records that profile and a band of two
    points per stored pair of bounds: first the lower bounds in the order
    of the knots, then the upper bounds in the reverse order, so that the
    stations of the points number [i] and [2n - 1 - i] are the lower and the
    upper bound of knot [i]; the band starts at the time 0. *)
Theorem recorded_drive_boundary_is_a_closed_band
    (rli : ReferenceLineInfo) (name : string) (this : Members) :
  let n := length (s_bounds_ this) in
  (emergency_brake_speed_data rli = [] ->
   record_constraints rli name this = None) /\
  (emergency_brake_speed_data rli <> [] ->
   exists debug,
     record_constraints rli name this = Some debug /\
     speed_plan_points debug = emergency_brake_speed_data rli /\
     map snd (boundary_points debug)
     = map fst (s_bounds_ this) ++ rev (map snd (s_bounds_ this)) /\
     length (boundary_points debug) = (2 * n)%nat /\
     (forall i, (i < n)%nat ->
        nth_error (map snd (boundary_points debug)) i
        = Some (fst (nth i (s_bounds_ this) (0, 0))) /\
        nth_error (map snd (boundary_points debug)) (2 * n - 1 - i)
        = Some (snd (nth i (s_bounds_ this) (0, 0)))) /\
     ((0 < n)%nat -> hd_error (map fst (boundary_points debug)) = Some 0)).
Proof.
  intro n. unfold record_constraints. split.
  - intros ->. reflexivity.
  - intro Hne.
    destruct (emergency_brake_speed_data rli) as [| b0 brake] eqn:Hb;
      [congruence | ].
    cbn [length Nat.ltb Nat.leb].
    destruct (lower_edge_spec (delta_t_ this) (s_bounds_ this) 0 [])
      as (t' & lower & E & Sl & Tl).
    rewrite E. simpl app.
    destruct (upper_edge_spec (delta_t_ this) (s_bounds_ this) n
                (Nat.le_refl _) (t' - delta_t_ this) lower) as (upper & Eu & Su).
    fold n. rewrite Eu.
    subst n. rewrite firstn_all in Su.
    set (n := length (s_bounds_ this)).
    assert (Hstations : map snd (lower ++ upper)
                        = map fst (s_bounds_ this) ++ rev (map snd (s_bounds_ this)))
      by (rewrite map_app, Sl, Su; reflexivity).
    assert (Hl1 : length (map fst (s_bounds_ this)) = n) by apply length_map.
    assert (Hl2 : length (rev (map snd (s_bounds_ this))) = n)
      by (rewrite length_rev; apply length_map).
    eexists. split; [reflexivity | ]. cbn [speed_plan_points boundary_points].
    split; [reflexivity | split; [exact Hstations | split; [ | split]]].
    + rewrite <- (length_map snd), Hstations, length_app, Hl1, Hl2. lia.
    + intros i Hi. rewrite Hstations. split.
      * rewrite nth_error_app1 by lia.
        rewrite nth_error_map.
        rewrite (nth_error_nth' (s_bounds_ this) (0, 0)) by exact Hi.
        reflexivity.
      * rewrite nth_error_app2 by lia. rewrite Hl1.
        replace (2 * n - 1 - i - n)%nat with (n - 1 - i)%nat by lia.
        rewrite nth_error_rev, length_map.
        assert (C : (n - 1 - i <? length (s_bounds_ this))%nat = true)
          by (apply Nat.ltb_lt; fold n; lia).
        rewrite C. fold n.
        replace (n - S (n - 1 - i))%nat with i by lia.
        rewrite nth_error_map.
        rewrite (nth_error_nth' (s_bounds_ this) (0, 0)) by exact Hi.
        reflexivity.
    + intro Hn. rewrite map_app.
      destruct (s_bounds_ this) as [| b rest] eqn:Eb; [simpl in n; lia | ].
      destruct lower as [| l0 lower']; [discriminate | ].
      simpl in Tl |- *. exact Tl.
Qed.

Lemma record_qp_points_spec (delta_t : Q)
    (distance velocity acceleration : list Q) (n : nat) :
  forall i plan,
    record_qp_points n i delta_t distance velocity acceleration plan
    = plan ++ map (optimized_point delta_t (distance, velocity, acceleration))
                  (seq i n).
Proof.
  induction n as [| n IH]; intros i plan; simpl.
  - rewrite app_nil_r. reflexivity.
  - rewrite IH, <- app_assoc. reflexivity.
Qed.

Lemma take_while_prefix {A} (keep : A -> bool) (l : list A) :
  exists rest, l = take_while keep l ++ rest.
Proof.
  induction l as [| a l (rest & IH)]; simpl.
  - exists []. reflexivity.
  - destruct (keep a).
    + exists rest. simpl. rewrite <- IH. reflexivity.
    + exists (a :: l). reflexivity.
Qed.

(** X22.  [record_qp_info] records no point when one of the three arrays is
    empty.  Otherwise it records the initial point and one point for each of
    the knots 1 .. N-1, negative velocities included, so the profile that
    [Process] would emit from the same arrays is a prefix of the recorded
    plan. *)
Theorem recorded_qp_plan_extends_the_emission
    (this : Members) (distance velocity acceleration : list Q) :
  let arrays := (distance, velocity, acceleration) in
  let plan := snd (record_qp_info this distance velocity acceleration) in
  (distance = [] \/ velocity = [] \/ acceleration = [] -> plan = []) /\
  (distance <> [] -> velocity <> [] -> acceleration <> [] ->
   plan = mkSpeedPoint (at_index distance 0) 0 (at_index velocity 0)
                       (at_index acceleration 0) 0
          :: map (optimized_point (delta_t_ this) arrays)
                 (seq 1 (Z.to_nat (num_of_knots_ this - 1))) /\
   length plan = S (Z.to_nat (num_of_knots_ this - 1)) /\
   exists rest,
     plan = emit_speed_data (num_of_knots_ this) (delta_t_ this) arrays ++ rest).
Proof.
  intros arrays plan. subst plan arrays. unfold record_qp_info. split.
  - intros [-> | [-> | ->]]; simpl; rewrite ?orb_true_r; reflexivity.
  - intros Hd Hv Ha.
    destruct distance as [| d0 d]; [congruence | ].
    destruct velocity as [| v0 v]; [congruence | ].
    destruct acceleration as [| a0 a]; [congruence | ].
    cbn [length Nat.leb orb snd].
    rewrite record_qp_points_spec. cbn [app].
    split; [reflexivity | split].
    + cbn [length]. rewrite length_map, length_seq. reflexivity.
    + rewrite emit_speed_data_by_spec. unfold emission_by_spec.
      destruct (take_while_prefix
                  (fun i => negb (Qltb (at_index (v0 :: v) i) 0))
                  (seq 1 (Z.to_nat (num_of_knots_ this - 1)))) as (rest & E).
      exists (map (optimized_point (delta_t_ this) (d0 :: d, v0 :: v, a0 :: a))
                  rest).
      cbn [app]. f_equal. rewrite <- map_app, <- E. reflexivity.
Qed.

Lemma recorded_qp_plan_extends_the_emission_witness :
  [0; 0; 0] <> [] /\ [5; -1 # 100; 0] <> [] /\
  length (snd (record_qp_info
                 (members_after_setup ext_all_succeed sample_flags
                    sample_vehicle following_line constructed sample_path
                    rough_profile)
                 [0; 0; 0] [5; -1 # 100; 0] [0; 0; 0]))
  = 3%nat.
Proof.
  assert (H1 : [0; 0; 0] <> []) by discriminate.
  assert (H2 : [5; -1 # 100; 0] <> []) by discriminate.
  split; [exact H1 | split; [exact H2 | ]].
  exact (proj1 (proj2
           (proj2 (recorded_qp_plan_extends_the_emission
                     (members_after_setup ext_all_succeed sample_flags
                        sample_vehicle following_line constructed sample_path
                        rough_profile)
                     [0; 0; 0] [5; -1 # 100; 0] [0; 0; 0]) H1 H2 H1))).
Defined.

(* ========================================================================= *)
(** * The refinement stage *)

Lemma members_eta (this : Members) :
  this = with_smoothed_speed_limit
           (with_smoothed_path_curvature this (smoothed_path_curvature_ this))
           (smoothed_speed_limit_ this).
Proof. destruct this; reflexivity. Qed.

(** X24.  [optimize_speed_by_nlp_interface] changes no member other than the
    two smoothed curves, leaves [*speed_data] either as it was or cleared,
    and does nothing at all when the speed-limit check fails. *)
Theorem refinement_stage_touches_only_the_smoothed_curves
    (ext : Collaborators) (flags : Flags) (config : Config) (this : Members)
    (path_data : PathData) (rough : SpeedData)
    (distance velocity acceleration : list Q) :
  let r := optimize_speed_by_nlp_interface ext flags config this path_data
             rough distance velocity acceleration in
  (exists curvature speed_limit,
     fst (fst r)
     = with_smoothed_speed_limit
         (with_smoothed_path_curvature this curvature) speed_limit) /\
  (snd (fst r) = rough \/ snd (fst r) = clear) /\
  (CheckSpeedLimitFeasibility ext this = false ->
   r = (this, rough, (distance, velocity, acceleration))).
Proof.
  intro r. subst r. unfold optimize_speed_by_nlp_interface.
  destruct (CheckSpeedLimitFeasibility ext this).
  2:{ split; [ | split; [left; reflexivity | reflexivity]].
      exists (smoothed_path_curvature_ this), (smoothed_speed_limit_ this).
      apply members_eta. }
  assert (Hc : exists curvature,
             snd (SmoothPathCurvature ext this path_data)
             = with_smoothed_path_curvature this curvature).
  { unfold SmoothPathCurvature.
    destruct (discretized_path path_data) as [| p rest].
    - exists (smoothed_path_curvature_ this). destruct this; reflexivity.
    - match goal with
      | |- context [Optimize ext ?p ?n] => destruct (Optimize ext p n) as [sol |]
      end.
      + eexists. reflexivity.
      + exists (smoothed_path_curvature_ this). destruct this; reflexivity. }
  assert (Hl : forall m, exists speed_limit,
             snd (SmoothSpeedLimit ext m) = with_smoothed_speed_limit m speed_limit).
  { intro m. unfold SmoothSpeedLimit.
    match goal with
    | |- context [Optimize ext ?p ?n] => destruct (Optimize ext p n) as [sol |]
    end.
    - eexists. reflexivity.
    - exists (smoothed_speed_limit_ m). destruct m; reflexivity. }
  destruct Hc as (curvature & Hc).
  destruct (SmoothPathCurvature ext this path_data) as [st1 m1].
  simpl in Hc. subst m1.
  destruct (negb (ok st1)).
  { split; [ | split; [right; reflexivity | discriminate]].
    exists curvature, (smoothed_speed_limit_ this). destruct this; reflexivity. }
  destruct (Hl (with_smoothed_path_curvature this curvature))
    as (speed_limit & Hl').
  destruct (SmoothSpeedLimit ext (with_smoothed_path_curvature this curvature))
    as [st2 m2].
  simpl in Hl'. subst m2.
  destruct (negb (ok st2)).
  { split; [ | split; [right; reflexivity | discriminate]].
    exists curvature, speed_limit. reflexivity. }
  destruct (OptimizeByNLP ext flags config _ distance velocity acceleration)
    as [st3 arrays].
  destruct (negb (ok st3)); simpl;
    (split; [exists curvature, speed_limit; reflexivity | ]);
    (split; [ | discriminate]); [right | left]; reflexivity.
Qed.

(* ========================================================================= *)
(** * The upper_bound query is a count *)

(** X25.  On a path stored with non-increasing stations the upper_bound
    query is the number of points whose station is at least [path_s], and so
    it shrinks as [path_s] grows. *)
Theorem QueryUpperBound_counts_stations_at_or_above
    (path : DiscretizedPath) (path_s path_s' : Q) :
  nonincreasing path ->
  QueryUpperBound path path_s
  = length (filter (fun tp => negb (Qltb (pp_s tp) path_s)) path) /\
  (path_s <= path_s' ->
   (QueryUpperBound path path_s' <= QueryUpperBound path path_s)%nat).
Proof.
  intro Hs.
  assert (Hcount : forall x,
             QueryUpperBound path x
             = length (filter (fun tp => negb (Qltb (pp_s tp) x)) path)).
  { intro x.
    apply (partition_point_unique (fun tp => negb (Qltb (pp_s tp) x)) path).
    - apply QueryUpperBound_partition. exact Hs.
    - apply filter_partition_point.
      intros i j pi pj Hij Ei Ej Hj.
      destruct (Qltb (pp_s pi) x) eqn:C; [ | reflexivity].
      destruct (Qltb (pp_s pj) x) eqn:D; [discriminate | ].
      apply Qltb_true in C. apply Qltb_false in D.
      pose proof (nonincreasing_nth path Hs i j pi pj Hij Ei Ej). lra. }
  split; [apply Hcount | ].
  intro Hle. rewrite !Hcount. apply filter_length_le.
  intros tp H.
  destruct (Qltb (pp_s tp) path_s) eqn:C; [ | reflexivity].
  destruct (Qltb (pp_s tp) path_s') eqn:D; [discriminate | ].
  apply Qltb_true in C. apply Qltb_false in D. lra.
Qed.

Lemma QueryUpperBound_counts_stations_at_or_above_witness :
  nonincreasing (rev path_0_1_2) /\
  QueryUpperBound (rev path_0_1_2) (3 # 2) = 1%nat.
Proof.
  assert (Hs : nonincreasing (rev path_0_1_2)) by (simpl; repeat split; lra).
  split; [exact Hs | ].
  exact (eq_trans
           (proj1 (QueryUpperBound_counts_stations_at_or_above
                     (rev path_0_1_2) (3 # 2) (3 # 2) Hs))
           eq_refl).
Defined.
